(** * Manifest generation of Robo.js: a shallow embedding and its properties

    The development follows the two revisions of [cli/utils/manifest.ts] that
    the repository carries and the [build] command that drives them:

    - [Manifest]   : the current revision (api, commands, context, events,
                     middleware; modules with a mode suffix);
    - [Legacy]     : the earlier revision (commands and events only);
    - [Build]      : the action of the [build] command.

    JavaScript values are embedded untyped, as the program manipulates them:
    the manifest, the configuration and the scanned entries are all [Value]s.
    An object is the list of its own enumerable string-keyed data properties in
    insertion order.  Two things are outside the embedding and stated here once:
    integer-like keys keep insertion order like every other key, and an array of
    asynchronous callbacks handed to [Promise.all] runs them in array order. *)

From Stdlib Require Import String Ascii List ZArith Bool Lia DecimalString Sorted Permutation.
Import ListNotations.
Open Scope string_scope.
Open Scope list_scope.
Set Warnings "-register-all".

(* ------------------------------------------------------------------------- *)
(** ** Values *)

Inductive Value : Type :=
| VUndefined
| VNull
| VBool (b : bool)
| VNumber (n : Z)
| VBigInt (n : Z)
| VString (s : string)
| VArray (elems : list Value)
| VObject (props : list (string * Value)).

Definition Props : Type := list (string * Value).

(** What a run can end with instead of a value. *)
Inductive Error : Type :=
| TypeError
| ProcessExit (code : Z)
| FsError (code : string)
| ModuleError
| SyntaxError
| Unmodelled
| OutOfFuel.

Inductive Result (A : Type) : Type :=
| Ok (a : A)
| Err (e : Error).
Arguments Ok {A} a.
Arguments Err {A} e.

Definition bind {A B} (c : Result A) (k : A -> Result B) : Result B :=
  match c with
  | Ok a => k a
  | Err e => Err e
  end.

Notation "x <- c ;; k" := (bind c (fun x => k))
  (at level 61, c at next level, right associativity).
Notation "' p <- c ;; k" := (bind c (fun x => let p := x in k))
  (at level 61, p pattern, c at next level, right associativity).

(** [for (const x of xs) state = body(x, state)], stopping at the first throw. *)
Fixpoint foldM {A S} (body : A -> S -> Result S) (xs : list A) (s : S) : Result S :=
  match xs with
  | [] => Ok s
  | x :: rest => s' <- body x s ;; foldM body rest s'
  end.

(** [ToBoolean]. *)
Definition truthy (v : Value) : bool :=
  match v with
  | VUndefined | VNull => false
  | VBool b => b
  | VNumber n | VBigInt n => negb (n =? 0)%Z
  | VString s => negb (s =? "")
  | VArray _ | VObject _ => true
  end.

(** [typeof v]. *)
Definition typeof (v : Value) : string :=
  match v with
  | VUndefined => "undefined"
  | VBool _ => "boolean"
  | VNumber _ => "number"
  | VBigInt _ => "bigint"
  | VString _ => "string"
  | VNull | VArray _ | VObject _ => "object"
  end.

Definition nat_to_string (n : nat) : string := NilZero.string_of_uint (Nat.to_uint n).

Fixpoint indexed (i : nat) (l : list Value) : Props :=
  match l with
  | [] => []
  | x :: rest => (nat_to_string i, x) :: indexed (S i) rest
  end.

(** The own enumerable properties that [for ... in], object spread,
    [Object.keys], [Object.values] and [Object.entries] see. *)
Definition own_props (v : Value) : Props :=
  match v with
  | VObject ps => ps
  | VArray l => indexed 0 l
  | _ => []
  end.

Definition own_keys (v : Value) : list string := map fst (own_props v).
Definition own_values (v : Value) : list Value := map snd (own_props v).

Fixpoint lookup {V} (k : string) (ps : list (string * V)) : option V :=
  match ps with
  | [] => None
  | (k', v) :: rest => if k' =? k then Some v else lookup k rest
  end.

Definition or_undefined (o : option Value) : Value :=
  match o with
  | Some v => v
  | None => VUndefined
  end.

(** [v?.[k]]: a property read that yields [undefined] on a missing receiver. *)
Definition prop (v : Value) (k : string) : Value :=
  match v with
  | VObject ps => or_undefined (lookup k ps)
  | VArray l =>
      if k =? "length" then VNumber (Z.of_nat (length l))
      else or_undefined (lookup k (indexed 0 l))
  | _ => VUndefined
  end.

(** [v[k]]: the same read, throwing on [undefined] and [null]. *)
Definition member (v : Value) (k : string) : Result Value :=
  match v with
  | VUndefined | VNull => Err TypeError
  | _ => Ok (prop v k)
  end.

(** [o[k] = v] on the property list of [o]: an existing key keeps its place. *)
Fixpoint assign {V} (k : string) (v : V) (ps : list (string * V)) : list (string * V) :=
  match ps with
  | [] => [(k, v)]
  | (k', v') :: rest =>
      if k' =? k then (k, v) :: rest else (k', v') :: assign k v rest
  end.

(** [{ ...acc, ...src }] continued from the properties gathered so far. *)
Definition spread (acc : Props) (src : Value) : Props :=
  fold_left (fun a kv => assign (fst kv) (snd kv) a) (own_props src) acc.

(** [v[k] = x], an assignment through a reference to the object [v]; the
    compiled modules are strict code, where a primitive receiver throws.  A named
    property on an array has no place among its elements. *)
Definition set_member (v : Value) (k : string) (x : Value) : Result Value :=
  match v with
  | VObject ps => Ok (VObject (assign k x ps))
  | VArray _ => Err Unmodelled
  | _ => Err TypeError
  end.

(** [o[field][k] = x], written back along the path the references follow. *)
Definition set_in (o : Value) (field k : string) (x : Value) : Result Value :=
  sub <- member o field ;;
  sub' <- set_member sub k x ;;
  set_member o field sub'.

(** [...v] inside an array literal or an argument list. *)
Definition iterate (v : Value) : Result (list Value) :=
  match v with
  | VArray l => Ok l
  | VString s => Ok (map (fun c => VString (String c "")) (list_ascii_of_string s))
  | _ => Err TypeError
  end.

(** [a ?? b] and [a || b]. *)
Definition nullish (a b : Value) : Value :=
  match a with
  | VUndefined | VNull => b
  | _ => a
  end.

Definition or_else (a b : Value) : Value := if truthy a then a else b.

(** [Array.prototype.sort] with a consistent comparator: stable. *)
Fixpoint insert_sorted {A} (cmp : A -> A -> comparison) (x : A) (l : list A) : list A :=
  match l with
  | [] => [x]
  | y :: rest =>
      match cmp x y with
      | Gt => y :: insert_sorted cmp x rest
      | _ => x :: l
      end
  end.

Definition js_sort {A} (cmp : A -> A -> comparison) (l : list A) : list A :=
  fold_right (insert_sorted cmp) [] l.

(** [Object.fromEntries(Object.entries(o).sort(([a], [b]) => cmp(a, b)))]. *)
Definition sort_entries (cmp : string -> string -> comparison) (o : Value) : Value :=
  VObject (fold_left (fun a kv => assign (fst kv) (snd kv) a)
             (js_sort (fun x y => cmp (fst x) (fst y)) (own_props o)) []).

Fixpoint join (sep : string) (l : list string) : string :=
  match l with
  | [] => ""
  | [x] => x
  | x :: rest => (x ++ sep ++ join sep rest)%string
  end.

(** Equality of primitives as [Set] and [includes] see it; two objects are the
    same only by reference, which no list built below contains twice. *)
Definition same_value (a b : Value) : bool :=
  match a, b with
  | VUndefined, VUndefined | VNull, VNull => true
  | VBool x, VBool y => Bool.eqb x y
  | VNumber x, VNumber y | VBigInt x, VBigInt y => (x =? y)%Z
  | VString x, VString y => x =? y
  | _, _ => false
  end.

(** [[...new Set(l)]]: first occurrences, in order. *)
Fixpoint dedup (l : list Value) : list Value :=
  match l with
  | [] => []
  | x :: rest => x :: filter (fun y => negb (same_value x y)) (dedup rest)
  end.

(* ------------------------------------------------------------------------- *)
(** ** What both revisions share *)

(** [mergeEvents], the same text in both revisions: the body of its loop, and
    the function. *)
Definition mergeEvent (kv : string * Value) (mergedEvents : Props) : Result Props :=
  let eventName := fst kv in
  let baseEventArray := or_else (or_undefined (lookup eventName mergedEvents)) (VArray []) in
  let newEventArray := snd kv in
  b <- iterate baseEventArray ;;
  n <- iterate newEventArray ;;
  Ok (assign eventName (VArray (b ++ n)) mergedEvents).

Definition mergeEvents (baseEvents newEvents : Value) : Result Value :=
  let mergedEvents := spread [] baseEvents in
  mergedEvents <- foldM mergeEvent (own_props newEvents) mergedEvents ;;
  Ok (VObject mergedEvents).

(** The five kinds of source file, [ScanDirOptions['type']]. *)
Inductive EntryType : Type := Api | Commands | Context | Events | Middleware.

Definition type_name (t : EntryType) : string :=
  match t with
  | Api => "api"
  | Commands => "commands"
  | Context => "context"
  | Events => "events"
  | Middleware => "middleware"
  end.

Definition is_type (t u : EntryType) : bool := type_name t =? type_name u.

Definition is_array (v : Value) : bool :=
  match v with
  | VArray _ => true
  | _ => false
  end.

Definition is_defined (v : Value) : bool :=
  match v with
  | VUndefined => false
  | _ => true
  end.

(** [fileKeys[i]]; a missing index reads [undefined], which a property key
    turns into the string of that name. *)
Definition key_at (fileKeys : list string) (i : nat) : string := nth i fileKeys "undefined".

Definition placeholder (field : string) : Value := VObject [(field, VObject [])].

(** *** The body of the predicate that [generateEntries] hands to [scanDir]

    One step per [if] of the source, in source order; each takes the [entries]
    object as the step before left it.  The current revision has all of them,
    the legacy one the event and command steps, with the same text. *)

Definition eventStep (type : EntryType) (fileKeys : list string) (entry : Value)
    (entries : Props) : Result Props :=
  let existingEntry := or_undefined (lookup (key_at fileKeys 0) entries) in
  let fresh := is_type type Events && negb (truthy existingEntry) in
  let entries := if fresh then assign (key_at fileKeys 0) (VArray []) entries else entries in
  let existingEntry := if fresh then VArray [] else existingEntry in
  match existingEntry with
  | VArray l =>
      if is_type type Events
      then Ok (assign (key_at fileKeys 0) (VArray (l ++ [entry])) entries)
      else Ok entries
  | _ => Ok entries
  end.

Definition contextStep (type : EntryType) (fileKeys : list string) (entry : Value)
    (entries : Props) : Result Props :=
  if is_type type Context && (length fileKeys =? 2)%nat then
    let contextType := key_at fileKeys 0 in
    let entries :=
      if truthy (or_undefined (lookup contextType entries)) then entries
      else assign contextType (VObject []) entries in
    let entriesRecord := or_undefined (lookup contextType entries) in
    entriesRecord <- set_member entriesRecord (key_at fileKeys 1) entry ;;
    Ok (assign contextType entriesRecord entries)
  else Ok entries.

Definition subcommandGroupStep (type : EntryType) (fileKeys : list string) (entry : Value)
    (entries : Props) : Result Props :=
  if is_type type Commands && (length fileKeys =? 3)%nat then
    let parentCommand := or_undefined (lookup (key_at fileKeys 0) entries) in
    if truthy (prop parentCommand "__path") then Err (ProcessExit 1) else
    let parentCommand :=
      if truthy parentCommand then parentCommand else placeholder "subcommands" in
    subcommands <- member parentCommand "subcommands" ;;
    parentSubcommand <- member subcommands (key_at fileKeys 1) ;;
    if truthy (prop parentSubcommand "__path") then Err (ProcessExit 1) else
    let parentSubcommand :=
      if truthy parentSubcommand then parentSubcommand else placeholder "subcommands" in
    parentSubcommand <- set_in parentSubcommand "subcommands" (key_at fileKeys 2) entry ;;
    parentCommand <- set_in parentCommand "subcommands" (key_at fileKeys 1) parentSubcommand ;;
    Ok (assign (key_at fileKeys 0) parentCommand entries)
  else Ok entries.

Definition subcommandStep (type : EntryType) (fileKeys : list string) (entry : Value)
    (entries : Props) : Result Props :=
  if is_type type Commands && (length fileKeys =? 2)%nat then
    let parentCommand := or_undefined (lookup (key_at fileKeys 0) entries) in
    if truthy (prop parentCommand "__path") then Err (ProcessExit 1) else
    let parentCommand :=
      if truthy parentCommand then parentCommand else placeholder "subcommands" in
    parentCommand <- set_in parentCommand "subcommands" (key_at fileKeys 1) entry ;;
    Ok (assign (key_at fileKeys 0) parentCommand entries)
  else Ok entries.

Definition commandStep (type : EntryType) (fileKeys : list string) (entry : Value)
    (entries : Props) : Result Props :=
  if is_type type Commands && (length fileKeys =? 1)%nat
  then Ok (assign (key_at fileKeys 0) entry entries)
  else Ok entries.

Definition middlewareStep (type : EntryType) (fileKeys : list string) (entry : Value)
    (entries : Props) : Result Props :=
  if is_type type Middleware
  then Ok (assign (join "/" fileKeys) entry entries)
  else Ok entries.

(** The walk [for (let i = 1; i < fileKeys.length - 1; i++)] and the final
    [parent.subroutes[last] = entry], over the keys after the first. *)
Fixpoint apiInsert (keys : list string) (parent entry : Value) : Result Value :=
  match keys with
  | [] => set_in parent "subroutes" "undefined" entry
  | [last] => set_in parent "subroutes" last entry
  | key :: rest =>
      subroutes <- member parent "subroutes" ;;
      child <- member subroutes key ;;
      let child := if truthy child then child else placeholder "subroutes" in
      child <- apiInsert rest child entry ;;
      set_in parent "subroutes" key child
  end.

Definition apiStep (type : EntryType) (fileKeys : list string) (entry : Value)
    (entries : Props) : Result Props :=
  if is_type type Api then
    if (1 <? length fileKeys)%nat then
      let parent := or_undefined (lookup (key_at fileKeys 0) entries) in
      let parent := if truthy parent then parent else placeholder "subroutes" in
      parent <-
        (if truthy (prop parent "subroutes") then Ok parent
         else set_member parent "subroutes" (VObject [])) ;;
      parent <- apiInsert (tl fileKeys) parent entry ;;
      Ok (assign (key_at fileKeys 0) parent entries)
    else Ok (assign (key_at fileKeys 0) entry entries)
  else Ok entries.

Definition predicateBody (type : EntryType) (fileKeys : list string) (entry : Value)
    (entries : Props) : Result Props :=
  entries <- eventStep type fileKeys entry entries ;;
  entries <- contextStep type fileKeys entry entries ;;
  entries <- subcommandGroupStep type fileKeys entry entries ;;
  entries <- subcommandStep type fileKeys entry entries ;;
  entries <- commandStep type fileKeys entry entries ;;
  entries <- middlewareStep type fileKeys entry entries ;;
  apiStep type fileKeys entry entries.

(** [redactPluginOptions], the same text in both revisions. *)
Definition redactPlugin (plugin : Value) : Value :=
  if is_array plugin then
    let pluginName := prop plugin "0" in
    let pluginOptions := prop plugin "1" in
    if typeof pluginOptions =? "object" then
      let redactedObj :=
        fold_left (fun redactedObj kv => assign (fst kv) (VString "[REDACTED]") redactedObj)
                  (own_props pluginOptions) [] in
      VArray [pluginName; VObject redactedObj]
    else plugin
  else plugin.

Definition redactPluginOptions (config : Value) : Result Value :=
  plugins <- member config "plugins" ;;
  if negb (truthy plugins) then Ok config else
  match plugins with
  | VArray l =>
      let redactedPlugins := map redactPlugin l in
      Ok (VObject (assign "plugins" (VArray redactedPlugins) (spread [] config)))
  | _ => Err TypeError
  end.

Definition strings (l : list string) : Value := VArray (map VString l).

Definition INTENT_PERMISSIONS : Props :=
  [ ("DirectMessages", strings []);
    ("DirectMessageReactions", strings []);
    ("DirectMessageTyping", strings []);
    ("Guilds", strings ["ViewChannel"]);
    ("GuildMembers", strings []);
    ("GuildBans", strings ["BanMembers"; "ViewAuditLog"]);
    ("GuildEmojisAndStickers", strings ["ManageEmojisAndStickers"]);
    ("GuildIntegrations", strings ["ManageGuild"; "ViewAuditLog"]);
    ("GuildWebhooks", strings ["ManageWebhooks"; "ViewAuditLog"]);
    ("GuildInvites", strings ["CreateInstantInvite"; "ManageGuild"]);
    ("GuildVoiceStates",
      strings ["Connect"; "Speak"; "MuteMembers"; "DeafenMembers"; "MoveMembers"; "UseVAD"]);
    ("GuildPresences", strings []);
    ("GuildMessages", strings ["ReadMessageHistory"; "SendMessages"]);
    ("GuildMessageReactions", strings ["ReadMessageHistory"; "AddReactions"]);
    ("GuildMessageTyping", strings ["ReadMessageHistory"]) ].

Definition as_string (v : Value) : option string :=
  match v with
  | VString s => Some s
  | _ => None
  end.

Fixpoint all_strings (l : list Value) : option (list string) :=
  match l with
  | [] => Some []
  | x :: rest =>
      match as_string x, all_strings rest with
      | Some s, Some r => Some (s :: r)
      | _, _ => None
      end
  end.

(** [l.sort((a, b) => a.localeCompare(b))]: the comparator is a method of the
    elements, so they are strings; fewer than two elements are never compared. *)
Definition sort_by_locale (localeCompare : string -> string -> comparison)
    (l : list Value) : Result (list Value) :=
  match all_strings l with
  | Some ss => Ok (map VString (js_sort localeCompare ss))
  | None => if (length l <? 2)%nat then Ok l else Err Unmodelled
  end.

(** [v?.length], as far as its truth goes. *)
Definition has_length (v : Value) : bool :=
  match v with
  | VString s => negb (s =? "")
  | _ => truthy (prop v "length")
  end.

(** [generatePermissions], the same text in both revisions. *)
Definition generatePermissions (localeCompare : string -> string -> comparison)
    (config : Value) : Result (list Value) :=
  let permissions : list Value := [] in
  let autoPermissions := nullish (prop (prop config "invite") "autoPermissions") (VBool true) in
  permissions <-
    (if truthy autoPermissions then
       clientOptions <- member config "clientOptions" ;;
       let intents := own_values (or_else (prop clientOptions "intents") (VObject [])) in
       foldM (fun intent permissions =>
                match intent with
                | VString name =>
                    let intentPermissions := or_undefined (lookup name INTENT_PERMISSIONS) in
                    if truthy intentPermissions
                    then more <- iterate intentPermissions ;; Ok (permissions ++ more)
                    else Ok permissions
                | _ => Ok permissions
                end)
             intents permissions
     else Ok permissions) ;;
  invite <- member config "invite" ;;
  let configPermissions := prop invite "permissions" in
  permissions <-
    (if negb (typeof configPermissions =? "number") && has_length configPermissions
     then more <- iterate configPermissions ;; Ok (permissions ++ more)
     else Ok permissions) ;;
  permissions <- sort_by_locale localeCompare permissions ;;
  Ok (filter truthy (dedup permissions)).

(** [generateScopes], the same text in both revisions. *)
Definition generateScopes (localeCompare : string -> string -> comparison)
    (config newManifest : Value) : Result (list Value) :=
  let scopes := [VString "bot"] in
  manifestCommands <- member newManifest "commands" ;;
  scopes <-
    (match manifestCommands with
     | VUndefined | VNull => Err TypeError
     | _ => Ok (if (0 <? length (own_keys manifestCommands))%nat
                then scopes ++ [VString "applications.commands"] else scopes)
     end) ;;
  invite <- member config "invite" ;;
  scopes <-
    (if has_length (prop invite "scopes")
     then more <- iterate (prop invite "scopes") ;; Ok (scopes ++ more)
     else Ok scopes) ;;
  scopes <- sort_by_locale localeCompare scopes ;;
  Ok (filter truthy (dedup scopes)).

(* ------------------------------------------------------------------------- *)
(** ** Paths and the file system below the working directory *)

(** A path below [process.cwd()], as its components. *)
Definition Path : Type := list string.

Inductive Node : Type :=
| File (content : string)
| Special
| Dir (children : list (string * Node)).

Fixpoint resolve (n : Node) (p : Path) : Result Node :=
  match p with
  | [] => Ok n
  | c :: rest =>
      match n with
      | Dir children =>
          match lookup c children with
          | Some child => resolve child rest
          | None => Err (FsError "ENOENT")
          end
      | _ => Err (FsError "ENOTDIR")
      end
  end.

(** [fs.readdir] and [fs.stat]. *)
Definition readdir (root : Node) (p : Path) : Result (list string) :=
  n <- resolve root p ;;
  match n with
  | Dir children => Ok (map fst children)
  | _ => Err (FsError "ENOTDIR")
  end.

Definition stat (root : Node) (p : Path) : Result Node := resolve root p.

(** [fs.mkdir(p, { recursive: true })]. *)
Fixpoint mkdir (p : Path) (n : Node) : Result Node :=
  match p with
  | [] =>
      match n with
      | Dir _ => Ok n
      | _ => Err (FsError "EEXIST")
      end
  | c :: rest =>
      match n with
      | Dir children =>
          child <- mkdir rest (match lookup c children with
                               | Some child => child
                               | None => Dir []
                               end) ;;
          Ok (Dir (assign c child children))
      | _ => Err (FsError "ENOTDIR")
      end
  end.

(** [fs.writeFile(p, content)]. *)
Fixpoint writeFile (p : Path) (content : string) (n : Node) : Result Node :=
  match p with
  | [] =>
      match n with
      | File _ => Ok (File content)
      | Special => Err Unmodelled
      | Dir _ => Err (FsError "EISDIR")
      end
  | c :: rest =>
      match n with
      | Dir children =>
          match lookup c children, rest with
          | Some child, _ =>
              child <- writeFile rest content child ;;
              Ok (Dir (assign c child children))
          | None, [] => Ok (Dir (assign c (File content) children))
          | None, _ => Err (FsError "ENOENT")
          end
      | _ => Err (FsError "ENOTDIR")
      end
  end.

(** The text around the last dot of a name, when it has one. *)
Fixpoint split_last_dot (s : string) : option (string * string) :=
  match s with
  | EmptyString => None
  | String c rest =>
      match split_last_dot rest with
      | Some (before, after) => Some (String c before, after)
      | None => if Ascii.eqb c "." then Some ("", rest) else None
      end
  end.

(** [path.extname(file)] and [path.basename(file, path.extname(file))]. *)
Definition extname (file : string) : string :=
  match split_last_dot file with
  | Some (before, after) => if before =? "" then "" else ("." ++ after)%string
  | None => ""
  end.

Definition basename (file : string) : string :=
  match split_last_dot file with
  | Some (before, _) => if before =? "" then file else before
  | None => file
  end.

(** [path.join(process.cwd(), dir)] for a configured directory. *)
Fixpoint split_slash (s : string) (current : string) : list string :=
  match s with
  | EmptyString => [current]
  | String c rest =>
      if Ascii.eqb c "/" then current :: split_slash rest ""
      else split_slash rest (current ++ String c "")%string
  end.

Definition normalize (segments : list string) : Path :=
  fold_left (fun p seg =>
               if (seg =? "") || (seg =? ".") then p
               else if seg =? ".." then removelast p
               else p ++ [seg])
            segments [].

Definition path_of_string (s : string) : Path := normalize (split_slash s "").

(** [fullPath.replace(process.cwd(), '')]. *)
Definition relative (p : Path) : string :=
  fold_left (fun s seg => (s ++ "/" ++ seg)%string) p "".

(* ------------------------------------------------------------------------- *)
(** ** [JSON.stringify(value, replacer, 2)]

    [jsonReplacer] only rewrites a bigint under the key [defaultMemberPermissions];
    it is applied where the serializer meets a bigint, and [replacer = false]
    is the call with no replacer, where every bigint throws. *)

Definition dquote : string := String (ascii_of_nat 34) "".
Definition newline : string := String (ascii_of_nat 10) "".

Definition hex (n : nat) : string :=
  String (nth n (list_ascii_of_string "0123456789abcdef") "0"%char) "".

Definition escape_char (c : ascii) : string :=
  let n := nat_of_ascii c in
  if (n =? 34)%nat then String "\" dquote
  else if (n =? 92)%nat then "\\"
  else if (n =? 8)%nat then "\b"
  else if (n =? 9)%nat then "\t"
  else if (n =? 10)%nat then "\n"
  else if (n =? 12)%nat then "\f"
  else if (n =? 13)%nat then "\r"
  else if (n <? 32)%nat then ("\u00" ++ hex (n / 16) ++ hex (n mod 16))%string
  else String c "".

Definition quote (s : string) : string :=
  (dquote ++ String.concat "" (map escape_char (list_ascii_of_string s)) ++ dquote)%string.

Definition Z_to_string (n : Z) : string := NilZero.string_of_int (Z.to_int n).

Definition jsonReplacer (key : string) (value : Value) : Value :=
  match value with
  | VBigInt n =>
      if key =? "defaultMemberPermissions" then VString (Z_to_string n ++ "n") else value
  | _ => value
  end.

Definition wrap (opening closing indent : string) (parts : list string) : string :=
  match parts with
  | [] => (opening ++ closing)%string
  | _ =>
      let inner := (indent ++ "  ")%string in
      (opening ++ newline ++ inner ++ join ("," ++ newline ++ inner) parts
         ++ newline ++ indent ++ closing)%string
  end.

Fixpoint serialize (replacer : bool) (indent key : string) (value : Value)
    : Result (option string) :=
  match value with
  | VUndefined => Ok None
  | VNull => Ok (Some "null")
  | VBool b => Ok (Some (if b then "true" else "false"))
  | VNumber n => Ok (Some (Z_to_string n))
  | VString s => Ok (Some (quote s))
  | VBigInt n =>
      match (if replacer then jsonReplacer key value else value) with
      | VString s => Ok (Some (quote s))
      | _ => Err TypeError
      end
  | VArray elems =>
      parts <-
        (fix each (i : nat) (l : list Value) : Result (list string) :=
           match l with
           | [] => Ok []
           | x :: rest =>
               sx <- serialize replacer (indent ++ "  ") (nat_to_string i) x ;;
               srest <- each (S i) rest ;;
               Ok (match sx with Some t => t | None => "null" end :: srest)
           end) 0%nat elems ;;
      Ok (Some (wrap "[" "]" indent parts))
  | VObject props =>
      parts <-
        (fix each (l : list (string * Value)) : Result (list string) :=
           match l with
           | [] => Ok []
           | (k, x) :: rest =>
               sx <- serialize replacer (indent ++ "  ") k x ;;
               srest <- each rest ;;
               Ok (match sx with
                   | Some t => (quote k ++ ": " ++ t)%string :: srest
                   | None => srest
                   end)
           end) props ;;
      Ok (Some (wrap "{" "}" indent parts))
  end.

Definition JSON_stringify (replacer : bool) (value : Value) : Result Value :=
  text <- serialize replacer "" "" value ;;
  Ok (match text with Some t => VString t | None => VUndefined end).

(* ------------------------------------------------------------------------- *)
(** ** The host of a run

    What the program obtains from its surroundings: the tree below the working
    directory, the modules it imports, and the helpers of the package that are
    not part of the files followed here. *)

Record Host : Type := {
  tree : Node;
  localeCompare : string -> string -> comparison;
  ALLOWED_EXTENSIONS : list string;
  Mode_get : string;
  Mode_is : string -> bool;
  (** [(await import(fullPath)).config] *)
  import_config : Path -> Result Value;
  (** [loadConfig()], also what [getConfig()] answers afterwards *)
  loadConfig : Value;
  (** [findPackagePath(pluginName, process.cwd())], [None] for a falsy answer *)
  findPackagePath : Value -> option string;
  (** [Compiler.useManifest({ basePath, name })] *)
  useManifest : string -> Value -> Result Value;
  isTypescriptProject : bool;
  (** [packageJson.version] *)
  version : Value;
  (** [fs.readFile(path, 'utf-8')] outside the tree and [JSON.parse] *)
  readFile : string -> Result string;
  JSON_parse : string -> Result Value
}.

(** An object literal: each part is a spread value or a group of written
    properties, in source order. *)
Definition literal (parts : list Value) : Value := VObject (fold_left spread parts []).

(** [Array.prototype.flat()]. *)
Definition flat (l : list Value) : list Value :=
  flat_map (fun v => match v with VArray inner => inner | _ => [v] end) l.

(** [catch (error) { if (hasProperties(error, ['code']) &&
    !['ENOENT', 'ENOTDIR'].includes(error.code)) throw error }]. *)
Definition unless_missing {A} (attempt : Result A) (otherwise : A) : Result A :=
  match attempt with
  | Err (FsError code) =>
      if (code =? "ENOENT") || (code =? "ENOTDIR") then Ok otherwise else attempt
  | Err TypeError => Ok otherwise
  | _ => attempt
  end.

(** [catch (error) { if (hasProperties(error, ['code']) && error.code === 'ENOENT')
    ... else throw error }]. *)
Definition if_enoent {A} (attempt : Result A) (otherwise : Result A) : Result A :=
  match attempt with
  | Err (FsError code) => if code =? "ENOENT" then otherwise else attempt
  | _ => attempt
  end.

(** [newManifest[k] = Object.fromEntries(Object.entries(newManifest[k]).sort(...))]. *)
Definition sortProperty (cmp : string -> string -> comparison) (k : string)
    (newManifest : Value) : Result Value :=
  set_member newManifest k (sort_entries cmp (prop newManifest k)).

Definition manifestPath : Path := [".robo"; "manifest.json"].

(** The end of [generateManifest], from [fs.mkdir] on: the tree it leaves. *)
Definition persist (replacer : bool) (root : Node) (newManifest : Value) : Result Node :=
  disk <- mkdir [".robo"] root ;;
  text <- JSON_stringify replacer newManifest ;;
  match text with
  | VString t => writeFile manifestPath t disk
  | _ => Err TypeError
  end.

(* ------------------------------------------------------------------------- *)
(** ** The current revision of [manifest.ts] *)

Module Manifest.

Definition BASE_MANIFEST (h : Host) : Value :=
  VObject
    [ ("__README",
       VString "This file was automatically generated by Robo.js - do not edit manually.");
      ("__robo", VObject [ ("config", VNull);
                           ("language", VString "javascript");
                           ("mode", VString (Mode_get h));
                           ("type", VString "robo") ]);
      ("api", VObject []);
      ("commands", VObject []);
      ("context", VObject [ ("message", VObject []); ("user", VObject []) ]);
      ("events", VObject []);
      ("permissions", VArray []);
      ("middleware", VArray []);
      ("scopes", VArray []) ].

(** One turn of the loop of [readPluginManifest]. *)
Definition foldPlugin (h : Host) (plugin pluginsManifest : Value) : Result Value :=
  pluginName <- (if typeof plugin =? "string" then Ok plugin else member plugin "0") ;;
  match findPackagePath h pluginName with
  | None => Ok pluginsManifest
  | Some packagePath =>
      manifest <- useManifest h packagePath pluginName ;;
      manifestPermissions <- member manifest "permissions" ;;
      let validPermissions :=
        truthy manifestPermissions && negb (typeof manifestPermissions =? "number") in
      mergedEvents <- mergeEvents (prop pluginsManifest "events") (prop manifest "events") ;;
      middlewareBase <- iterate (nullish (prop pluginsManifest "middleware") (VArray [])) ;;
      middlewareNew <- iterate (nullish (prop manifest "middleware") (VArray [])) ;;
      permissionsBase <- iterate (prop pluginsManifest "permissions") ;;
      permissionsNew <- (if validPermissions then iterate manifestPermissions else Ok []) ;;
      scopesBase <- iterate (prop pluginsManifest "scopes") ;;
      scopesNew <- iterate (nullish (prop manifest "scopes") (VArray [])) ;;
      Ok (literal
            [ pluginsManifest;
              VObject
                [ ("api", literal [prop pluginsManifest "api"; prop manifest "api"]);
                  ("commands",
                   literal [prop pluginsManifest "commands"; prop manifest "commands"]);
                  ("context",
                   VObject
                     [ ("message",
                        literal [prop (prop pluginsManifest "context") "message";
                                 prop (prop manifest "context") "message"]);
                       ("user",
                        literal [prop (prop pluginsManifest "context") "user";
                                 prop (prop manifest "context") "user"]) ]);
                  ("events", mergedEvents);
                  ("middleware", VArray (middlewareBase ++ middlewareNew));
                  ("permissions", VArray (permissionsBase ++ permissionsNew));
                  ("scopes", VArray (scopesBase ++ scopesNew)) ] ])
  end.

Definition readPluginManifest (h : Host) (plugins : Value) : Result Value :=
  let pluginsManifest := BASE_MANIFEST h in
  if negb (has_length plugins) then Ok pluginsManifest else
  each <- iterate plugins ;;
  foldM (foldPlugin h) each pluginsManifest.

(** [if (test(config[k])) value[k] = config[k]]. *)
Definition copy_when (test : Value -> bool) (k : string) (config : Value) (value : Props)
    : Props :=
  if test (prop config k) then assign k (prop config k) value else value.

Definition optionValue (option : Value) : Result Value :=
  name <- member option "name" ;;
  Ok (VObject
        (copy_when truthy "type" option
        (copy_when truthy "required" option
        (copy_when truthy "nameLocalizations" option
        (copy_when truthy "min" option
        (copy_when truthy "max" option
        (copy_when truthy "descriptionLocalizations" option
        (copy_when truthy "description" option
        (copy_when truthy "choices" option
        (copy_when truthy "autocomplete" option
           [("name", name)])))))))))).

Fixpoint mapM {A B} (f : A -> Result B) (l : list A) : Result (list B) :=
  match l with
  | [] => Ok []
  | x :: rest => y <- f x ;; ys <- mapM f rest ;; Ok (y :: ys)
  end.

(** The comparator of [options.sort]: required options first. *)
Definition by_required (a b : Value) : comparison :=
  if truthy (prop a "required") && negb (truthy (prop b "required")) then Lt
  else if negb (truthy (prop a "required")) && truthy (prop b "required") then Gt
  else Eq.

(** [Object.keys(value).sort().reduce(...)]: the keys in code-unit order. *)
Definition by_key (value : Props) : Value :=
  VObject (fold_left (fun acc key => assign key (or_undefined (lookup key value)) acc)
             (js_sort String.compare (map fst value)) []).

Definition getValue (type : EntryType) (config : Value) : Result Value :=
  let value : Props := [] in
  if negb (truthy config) then Ok (VObject value) else
  value <-
    (if is_type type Commands then
       let value := copy_when is_defined "defaultMemberPermissions" config value in
       let value := copy_when is_defined "dmPermission" config value in
       let value := copy_when truthy "description" config value in
       let value := copy_when truthy "descriptionLocalizations" config value in
       if truthy (prop config "options") then
         match prop config "options" with
         | VArray configOptions =>
             mapped <- mapM optionValue configOptions ;;
             let value := assign "options" (VArray mapped) value in
             let options := js_sort by_required mapped in
             let value := assign "options" (VArray options) value in
             Ok (copy_when is_defined "sage" config value)
         | _ => Err TypeError
         end
       else Ok value
     else Ok value) ;;
  let value :=
    if is_type type Context then
      copy_when is_defined "dmPermission" config
        (copy_when truthy "defaultMemberPermissions" config value)
    else value in
  let value :=
    if is_type type Events
    then assign "frequency" (nullish (prop config "frequency") (VString "always")) value
    else value in
  let value := copy_when is_defined "timeout" config value in
  Ok (by_key value).

Record ScanDirOptions : Type := {
  buildDirectory : Value;
  recurseModules : option bool;
  recursionKeys : option (list string);
  recursionModuleKeys : option (list string);
  recursionPath : option Path;
  type : EntryType
}.

Definition ScanDirPredicate (S : Type) : Type :=
  list string -> Path -> list string -> S -> Result S.

(** The directory a first call starts from. *)
Definition startDirectory (buildDirectory : Value) (type : EntryType) : Result Path :=
  buildDir <-
    (if truthy buildDirectory then
       match buildDirectory with
       | VString s => Ok (path_of_string s)
       | _ => Err TypeError
       end
     else Ok [".robo"; "build"]) ;;
  Ok (buildDir ++ [type_name type]).

(** The two arrays that the [fs.stat] pass fills. *)
Definition classify (h : Host) (directoryPath : Path) (directory : list string)
    : Result (list string * list string) :=
  foldM (fun file found =>
           let '(files, directories) := found in
           stats <- stat (tree h) (directoryPath ++ [file]) ;;
           match stats with
           | File _ =>
               if negb (existsb (String.eqb (extname file)) (ALLOWED_EXTENSIONS h))
               then Ok (files, directories)
               else Ok (files ++ [file], directories)
           | Dir _ => Ok (files, directories ++ [file])
           | Special => Ok (files, directories)
           end)
        directory ([], []).

(** The mode a module directory is meant for: its suffix, or the active one. *)
Definition moduleMode (h : Host) (module : string) : string :=
  match split_last_dot module with
  | Some (_, suffix) => suffix
  | None => Mode_get h
  end.

Definition modulesPathOf (recursionPath : option Path) : Path :=
  match recursionPath with
  | Some p => removelast p ++ ["modules"]
  | None => [".robo"; "build"; "modules"]
  end.

(** The block under [if (recurseModules)]: the [type] directories of the
    modules to scan. *)
Definition findModules (h : Host) (recursionPath : option Path) (type : EntryType)
    : Result (list Path) :=
  let modulesPath := modulesPathOf recursionPath in
  unless_missing
    (modulesDirectory <- readdir (tree h) modulesPath ;;
     foldM (fun module modules =>
              unless_missing
                (let fullPath := modulesPath ++ [module; type_name type] in
                 let mode := moduleMode h module in
                 if negb (mode =? "") && negb (Mode_is h mode) then Ok modules else
                 stats <- stat (tree h) fullPath ;;
                 match stats with
                 | Dir _ => Ok (modules ++ [fullPath])
                 | _ => Ok modules
                 end)
                modules)
           modulesDirectory [])
    [].

(** The defaults of the destructured options. *)
Definition withModules (options : ScanDirOptions) : bool :=
  match recurseModules options with Some b => b | None => true end.

Definition keysOf (options : ScanDirOptions) : list string :=
  match recursionKeys options with Some l => l | None => [] end.

Definition moduleKeysOf (options : ScanDirOptions) : list string :=
  match recursionModuleKeys options with Some l => l | None => [] end.

(** The options of the call for a child directory, and for a module. *)
Definition childOptions (options : ScanDirOptions) (directoryPath : Path)
    (childDir : string) : ScanDirOptions :=
  let nestedPath := directoryPath ++ [childDir] in
  let fileKeys := keysOf options ++ [childDir] in
  {| buildDirectory := buildDirectory options;
     recursionKeys := Some fileKeys;
     recurseModules := Some false;
     recursionModuleKeys := Some (moduleKeysOf options);
     recursionPath := Some nestedPath;
     type := type options |}.

Definition moduleOptions (options : ScanDirOptions) (module : Path) : ScanDirOptions :=
  let nestedPath := module in
  let moduleKeys := moduleKeysOf options ++ [last (removelast module) ""] in
  {| buildDirectory := buildDirectory options;
     recursionKeys := Some [];
     recurseModules := Some true;
     recursionModuleKeys := Some moduleKeys;
     recursionPath := Some nestedPath;
     type := type options |}.

(** The call of the predicate for a file of the directory. *)
Definition visitFile {S} (predicate : ScanDirPredicate S) (options : ScanDirOptions)
    (directoryPath : Path) (file : string) (state : S) : Result S :=
  let fileKeys := keysOf options ++ [basename file] in
  let fullPath := directoryPath ++ [file] in
  predicate fileKeys fullPath (moduleKeysOf options) state.

Fixpoint scanDir {S} (h : Host) (fuel : nat) (predicate : ScanDirPredicate S)
    (options : ScanDirOptions) (state : S) : Result S :=
  match fuel with
  | O => Err OutOfFuel
  | Datatypes.S fuel =>
      directoryPath <-
        (match recursionPath options with
         | Some p => Ok p
         | None => startDirectory (buildDirectory options) (type options)
         end) ;;
      directory <- if_enoent (readdir (tree h) directoryPath) (Ok []) ;;
      found <- classify h directoryPath directory ;;
      let '(files, directories) := found in
      modules <-
        (if withModules options then findModules h (recursionPath options) (type options)
         else Ok []) ;;
      state <- foldM (visitFile predicate options directoryPath) files state ;;
      state <-
        foldM (fun childDir => scanDir h fuel predicate (childOptions options directoryPath childDir))
              directories state ;;
      foldM (fun module => scanDir h fuel predicate (moduleOptions options module))
            modules state
  end.

(** The callback that [generateEntries] hands to [scanDir]. *)
Definition makeEntry (h : Host) (type : EntryType) (generatedKeys fileKeys : list string)
    (fullPath : Path) (moduleKeys : list string) : Result Value :=
  let isGenerated := existsb (String.eqb (join "/" fileKeys)) generatedKeys in
  config <- import_config h fullPath ;;
  value <- getValue type config ;;
  let entry :=
    literal
      [ value;
        VObject
          [ ("__auto", if isGenerated then VBool true else VUndefined);
            ("__module", or_else (VString (join "/" moduleKeys)) VUndefined);
            ("__path", VString (relative fullPath)) ] ] in
  Ok (sort_entries (localeCompare h) entry).

Definition predicate (h : Host) (type : EntryType) (generatedKeys : list string)
    : ScanDirPredicate Props :=
  fun fileKeys fullPath moduleKeys entries =>
    entry <- makeEntry h type generatedKeys fileKeys fullPath moduleKeys ;;
    predicateBody type fileKeys entry entries.

Definition generateEntries (h : Host) (fuel : nat) (type : EntryType)
    (generatedKeys : list string) : Result Value :=
  if_enoent
    (let entries : Props := [] in
     experimental <- member (loadConfig h) "experimental" ;;
     entries <-
       scanDir h fuel (predicate h type generatedKeys)
         {| buildDirectory := prop experimental "buildDirectory";
            recurseModules := None;
            recursionKeys := None;
            recursionModuleKeys := None;
            recursionPath := None;
            type := type |} entries ;;
     Ok (VObject entries))
    (Ok (VObject [])).

(** [Object.keys(generatedDefaults?.[kind] ?? {})]. *)
Definition generatedKeysOf (generatedDefaults : Value) (kind : string) : list string :=
  own_keys (nullish (prop generatedDefaults kind) (VObject [])).

(** What [generateManifest] awaits before it writes the manifest down. *)
Record Gathered : Type := {
  pluginsManifest : Value;
  api : Value;
  commands : Value;
  context : Value;
  events : Value;
  middleware : list Value
}.

Definition gather (h : Host) (fuel : nat) (generatedDefaults : Value) (type : string)
    : Result Gathered :=
  let config := loadConfig h in
  pluginsManifest <-
    (if type =? "plugin" then Ok (BASE_MANIFEST h)
     else readPluginManifest h (prop config "plugins")) ;;
  api <- generateEntries h fuel Api [] ;;
  commands <- generateEntries h fuel Commands (generatedKeysOf generatedDefaults "commands") ;;
  context <- generateEntries h fuel Context (generatedKeysOf generatedDefaults "context") ;;
  events <- generateEntries h fuel Events (generatedKeysOf generatedDefaults "events") ;;
  middlewareEntries <- generateEntries h fuel Middleware [] ;;
  Ok {| pluginsManifest := pluginsManifest;
        api := api;
        commands := commands;
        context := context;
        events := events;
        middleware := flat (own_values middlewareEntries) |}.

(** The [__robo] block of the manifest. *)
Definition roboBlock (h : Host) (now type : string) (redacted seed : Value) : Value :=
  VObject
    [ ("config", redacted);
      ("language", VString (if isTypescriptProject h then "typescript" else "javascript"));
      ("mode", VString (Mode_get h));
      ("seed",
       if truthy seed then VObject [("description", prop seed "description")]
       else VUndefined);
      ("type", VString type);
      ("updatedAt", VString now);
      ("version", version h) ].

(** The properties that the literal bound to [newManifest] writes out after
    its two spreads. *)
Definition written (h : Host) (now type : string) (g : Gathered)
    (redacted seed mergedEvents : Value) (pluginMiddleware : list Value) : Props :=
  [ ("__robo", roboBlock h now type redacted seed);
    ("api", literal [prop (pluginsManifest g) "api"; api g]);
    ("commands", literal [prop (pluginsManifest g) "commands"; commands g]);
    ("context",
     VObject
       [ ("message",
          literal [prop (prop (pluginsManifest g) "context") "message";
                   prop (context g) "message"]);
         ("user",
          literal [prop (prop (pluginsManifest g) "context") "user";
                   prop (context g) "user"]) ]);
    ("events", mergedEvents);
    ("middleware", VArray (pluginMiddleware ++ middleware g)) ].

(** The literal, then the assignments to [newManifest]. *)
Definition compose (h : Host) (now type : string) (g : Gathered) : Result Value :=
  let config := loadConfig h in
  redacted <- redactPluginOptions config ;;
  seed <- member config "seed" ;;
  mergedEvents <- mergeEvents (prop (pluginsManifest g) "events") (events g) ;;
  pluginMiddleware <- iterate (prop (pluginsManifest g) "middleware") ;;
  let newManifest :=
    literal
      [ BASE_MANIFEST h;
        pluginsManifest g;
        VObject (written h now type g redacted seed mergedEvents pluginMiddleware) ] in
  permissions <- generatePermissions (localeCompare h) config ;;
  newManifest <- set_member newManifest "permissions" (VArray permissions) ;;
  scopes <- generateScopes (localeCompare h) config newManifest ;;
  newManifest <- set_member newManifest "scopes" (VArray scopes) ;;
  newManifest <- sortProperty (localeCompare h) "api" newManifest ;;
  newManifest <- sortProperty (localeCompare h) "commands" newManifest ;;
  sortProperty (localeCompare h) "events" newManifest.

(** [generateManifest]; [now] is what [new Date().toISOString()] answers.  The
    result is the manifest returned and the tree the run leaves behind. *)
Definition generateManifest (h : Host) (now : string) (fuel : nat)
    (generatedDefaults : Value) (type : string) : Result (Value * Node) :=
  g <- gather h fuel generatedDefaults type ;;
  newManifest <- compose h now type g ;;
  disk <- persist true (tree h) newManifest ;;
  Ok (newManifest, disk).

End Manifest.

(* ------------------------------------------------------------------------- *)
(** ** The legacy revision of [manifest.ts] *)

Module Legacy.

Definition BASE_MANIFEST : Value :=
  VObject
    [ ("__README",
       VString "This file was automatically generated by Robo.js - do not edit manually.");
      ("__robo", VObject [ ("config", VNull); ("type", VString "robo") ]);
      ("commands", VObject []);
      ("events", VObject []);
      ("permissions", VArray []);
      ("scopes", VArray []) ].

(** [!content?.trim()] on the bytes of the file. *)
Definition is_blank (content : string) : bool :=
  forallb (fun c => existsb (Nat.eqb (nat_of_ascii c)) [9; 10; 11; 12; 13; 32]%nat)
          (list_ascii_of_string content).

(** [path.join(basePath || '.', '.robo', 'manifest.json')]. *)
Definition manifestFile (basePath : string) : string :=
  ((if basePath =? "" then "." else basePath) ++ "/.robo/manifest.json")%string.

(** [loadManifest(name, basePath)]; the module-level cache [_manifest] that its
    [finally] refreshes is read by [getManifest] only. *)
Definition loadManifest (h : Host) (name : Value) (basePath : string) : Result Value :=
  let manifestPath := manifestFile basePath in
  if_enoent
    (manifestContent <- readFile h manifestPath ;;
     if is_blank manifestContent then Ok BASE_MANIFEST else
     manifest <- JSON_parse h manifestContent ;;
     if truthy name && negb (basePath =? "") then
       let plugin := VObject [("name", name); ("path", VString basePath)] in
       let pluginInfo := VObject [("__auto", VBool true); ("__plugin", plugin)] in
       manifestCommands <- member manifest "commands" ;;
       manifestCommands <-
         (match manifestCommands with
          | VUndefined | VNull => Err TypeError
          | _ =>
              foldM (fun key manifestCommands =>
                       command <- member manifestCommands key ;;
                       command <- set_member command "__auto" (VBool true) ;;
                       command <- set_member command "__plugin" plugin ;;
                       set_member manifestCommands key command)
                    (own_keys manifestCommands) manifestCommands
          end) ;;
       manifest <- set_member manifest "commands" manifestCommands ;;
       manifestEvents <- member manifest "events" ;;
       manifestEvents <-
         (match manifestEvents with
          | VUndefined | VNull => Err TypeError
          | _ =>
              foldM (fun key manifestEvents =>
                       match prop manifestEvents key with
                       | VArray configs =>
                           set_member manifestEvents key
                             (VArray (map (fun eventConfig => literal [pluginInfo; eventConfig])
                                          configs))
                       | _ => Err TypeError
                       end)
                    (own_keys manifestEvents) manifestEvents
          end) ;;
       set_member manifest "events" manifestEvents
     else Ok manifest)
    (Ok BASE_MANIFEST).

(** One turn of the loop of [readPluginManifest]. *)
Definition foldPlugin (h : Host) (plugin pluginsManifest : Value) : Result Value :=
  pluginName <- (if typeof plugin =? "string" then Ok plugin else member plugin "0") ;;
  let packagePath := match findPackagePath h pluginName with Some p => p | None => "" end in
  manifest <- loadManifest h pluginName packagePath ;;
  manifestPermissions <- member manifest "permissions" ;;
  let validPermissions :=
    truthy manifestPermissions && negb (typeof manifestPermissions =? "number") in
  permissionsBase <- iterate (prop pluginsManifest "permissions") ;;
  permissionsNew <- (if validPermissions then iterate manifestPermissions else Ok []) ;;
  scopesBase <- iterate (prop pluginsManifest "scopes") ;;
  scopesNew <- iterate (nullish (prop manifest "scopes") (VArray [])) ;;
  Ok (literal
        [ pluginsManifest;
          VObject
            [ ("commands", literal [prop pluginsManifest "commands"; prop manifest "commands"]);
              ("events", literal [prop pluginsManifest "events"; prop manifest "events"]);
              ("permissions", VArray (permissionsBase ++ permissionsNew));
              ("scopes", VArray (scopesBase ++ scopesNew)) ] ]).

Definition readPluginManifest (h : Host) (plugins : Value) : Result Value :=
  let pluginsManifest := BASE_MANIFEST in
  if negb (has_length plugins) then Ok pluginsManifest else
  each <- iterate plugins ;;
  foldM (foldPlugin h) each pluginsManifest.

Definition optionValue (option : Value) : Result Value :=
  name <- member option "name" ;;
  Ok (VObject
        (Manifest.copy_when truthy "type" option
        (Manifest.copy_when truthy "required" option
        (Manifest.copy_when truthy "nameLocalizations" option
        (Manifest.copy_when truthy "descriptionLocalizations" option
        (Manifest.copy_when truthy "description" option
        (Manifest.copy_when truthy "autocomplete" option
           [("name", name)]))))))).

Definition getValue (type : EntryType) (config : Value) : Result Value :=
  let value : Props := [] in
  if negb (truthy config) then Ok (VObject value) else
  value <-
    (if is_type type Commands then
       let value := Manifest.copy_when truthy "description" config value in
       let value := Manifest.copy_when truthy "descriptionLocalizations" config value in
       if truthy (prop config "options") then
         match prop config "options" with
         | VArray configOptions =>
             mapped <- Manifest.mapM optionValue configOptions ;;
             let value := assign "options" (VArray (js_sort Manifest.by_required mapped)) value in
             Ok (Manifest.copy_when is_defined "sage" config value)
         | _ => Err TypeError
         end
       else Ok value
     else Ok value) ;;
  let value :=
    if is_type type Events
    then assign "frequency" (nullish (prop config "frequency") (VString "always")) value
    else value in
  let value := Manifest.copy_when is_defined "timeout" config value in
  Ok (Manifest.by_key value).

Record ScanDirOptions : Type := {
  recursionKeys : option (list string);
  recursionPath : option Path;
  type : EntryType
}.

Definition classify (h : Host) (directoryPath : Path) (directory : list string)
    : Result (list string * list string) :=
  foldM (fun file found =>
           let '(files, directories) := found in
           stats <- stat (tree h) (directoryPath ++ [file]) ;;
           match stats with
           | File _ =>
               if negb (extname file =? ".js") then Ok (files, directories)
               else Ok (files ++ [file], directories)
           | Dir _ => Ok (files, directories ++ [file])
           | Special => Ok (files, directories)
           end)
        directory ([], []).

Definition modulesPath : Path := [".robo"; "build"; "modules"].

(** The first rejection among the results of callbacks that all ran. *)
Fixpoint firstError {A} (outcomes : list (Result A)) : option Error :=
  match outcomes with
  | [] => None
  | Err e :: _ => Some e
  | Ok _ :: rest => firstError rest
  end.

(** The block under [if (!recursionPath)]: every callback of the [Promise.all]
    runs, the first rejection is what the [catch] sees, and [modules] keeps what
    the others pushed. *)
Definition findModules (h : Host) (type : EntryType) : Result (list Path) :=
  match readdir (tree h) modulesPath with
  | Err e => unless_missing (Err e) []
  | Ok modulesDirectory =>
      let outcomes :=
        map (fun module =>
               let fullPath := modulesPath ++ [module; type_name type] in
               stats <- stat (tree h) fullPath ;;
               Ok (fullPath, stats))
            modulesDirectory in
      let modules :=
        flat_map (fun outcome =>
                    match outcome with
                    | Ok (fullPath, Dir _) => [fullPath]
                    | _ => []
                    end)
                 outcomes in
      match firstError outcomes with
      | Some e => unless_missing (Err e) modules
      | None => Ok modules
      end
  end.

Fixpoint scanDir {S} (h : Host) (fuel : nat)
    (directive : list string -> Path -> S -> Result S)
    (options : ScanDirOptions) (state : S) : Result S :=
  match fuel with
  | O => Err OutOfFuel
  | Datatypes.S fuel =>
      let recursionKeys := match recursionKeys options with Some l => l | None => [] end in
      let directoryPath :=
        match recursionPath options with
        | Some p => p
        | None => [".robo"; "build"; type_name (type options)]
        end in
      directory <- readdir (tree h) directoryPath ;;
      found <- classify h directoryPath directory ;;
      let '(files, directories) := found in
      modules <-
        (match recursionPath options with
         | None => findModules h (type options)
         | Some _ => Ok []
         end) ;;
      state <-
        foldM (fun file state =>
                 let fileKeys := recursionKeys ++ [basename file] in
                 let fullPath := directoryPath ++ [file] in
                 directive fileKeys fullPath state)
              files state ;;
      state <-
        foldM (fun childDir state =>
                 let nestedPath := directoryPath ++ [childDir] in
                 let fileKeys := recursionKeys ++ [childDir] in
                 scanDir h fuel directive
                   {| recursionKeys := Some fileKeys;
                      recursionPath := Some nestedPath;
                      type := type options |} state)
              directories state ;;
      foldM (fun module state =>
               let nestedPath := module in
               scanDir h fuel directive
                 {| recursionKeys := Some [];
                    recursionPath := Some nestedPath;
                    type := type options |} state)
            modules state
  end.

Definition makeEntry (h : Host) (type : EntryType) (generatedKeys fileKeys : list string)
    (fullPath : Path) : Result Value :=
  let isGenerated := existsb (String.eqb (join "/" fileKeys)) generatedKeys in
  config <- import_config h fullPath ;;
  value <- getValue type config ;;
  let entry :=
    literal
      [ value;
        VObject
          [ ("__auto", if isGenerated then VBool true else VUndefined);
            ("__path", VString (relative fullPath)) ] ] in
  Ok (sort_entries (localeCompare h) entry).

Definition directive (h : Host) (type : EntryType) (generatedKeys : list string)
    : list string -> Path -> Props -> Result Props :=
  fun fileKeys fullPath entries =>
    entry <- makeEntry h type generatedKeys fileKeys fullPath ;;
    entries <- eventStep type fileKeys entry entries ;;
    entries <- subcommandGroupStep type fileKeys entry entries ;;
    entries <- subcommandStep type fileKeys entry entries ;;
    commandStep type fileKeys entry entries.

Definition generateEntries (h : Host) (fuel : nat) (type : EntryType)
    (generatedKeys : list string) : Result Value :=
  if_enoent
    (let entries : Props := [] in
     entries <-
       scanDir h fuel (directive h type generatedKeys)
         {| recursionKeys := None; recursionPath := None; type := type |} entries ;;
     Ok (VObject entries))
    (Ok (VObject [])).

Record Gathered : Type := {
  pluginsManifest : Value;
  commands : Value;
  events : Value
}.

Definition gather (h : Host) (fuel : nat) (generatedDefaults : Value) (type : string)
    : Result Gathered :=
  let config := loadConfig h in
  pluginsManifest <-
    (if type =? "plugin" then Ok BASE_MANIFEST
     else readPluginManifest h (prop config "plugins")) ;;
  commands <-
    generateEntries h fuel Commands (Manifest.generatedKeysOf generatedDefaults "commands") ;;
  events <-
    generateEntries h fuel Events (Manifest.generatedKeysOf generatedDefaults "events") ;;
  Ok {| pluginsManifest := pluginsManifest; commands := commands; events := events |}.

Definition roboBlock (h : Host) (now type : string) (redacted : Value) : Value :=
  VObject
    [ ("config", redacted);
      ("type", VString type);
      ("updatedAt", VString now);
      ("version", version h) ].

Definition written (h : Host) (now type : string) (g : Gathered)
    (redacted mergedEvents : Value) : Props :=
  [ ("__robo", roboBlock h now type redacted);
    ("commands", literal [prop (pluginsManifest g) "commands"; commands g]);
    ("events", mergedEvents) ].

Definition compose (h : Host) (now type : string) (g : Gathered) : Result Value :=
  let config := loadConfig h in
  redacted <- redactPluginOptions config ;;
  mergedEvents <- mergeEvents (prop (pluginsManifest g) "events") (events g) ;;
  let newManifest :=
    literal
      [ BASE_MANIFEST;
        pluginsManifest g;
        VObject (written h now type g redacted mergedEvents) ] in
  permissions <- generatePermissions (localeCompare h) config ;;
  newManifest <- set_member newManifest "permissions" (VArray permissions) ;;
  scopes <- generateScopes (localeCompare h) config newManifest ;;
  newManifest <- set_member newManifest "scopes" (VArray scopes) ;;
  newManifest <- sortProperty (localeCompare h) "commands" newManifest ;;
  sortProperty (localeCompare h) "events" newManifest.

Definition generateManifest (h : Host) (now : string) (fuel : nat)
    (generatedDefaults : Value) (type : string) : Result (Value * Node) :=
  g <- gather h fuel generatedDefaults type ;;
  newManifest <- compose h now type g ;;
  disk <- persist false (tree h) newManifest ;;
  Ok (newManifest, disk).

End Legacy.

(* ------------------------------------------------------------------------- *)
(** ** The [build] command *)

Module Build.

(** The helpers [buildAction] awaits, none of them in the files followed here:
    each field is what the call answers. *)
Record Steps : Type := {
  loadConfig : Result Value;
  compile : Result Value;
  generateDefaults : Result Value;
  getProjectSize : Result Value;
  loadManifest : Result Value;
  (** [generateManifest(generatedFiles, 'robo')] *)
  generateManifest : Value -> string -> Result Value;
  (** [findCommandDifferences(oldCommands, newCommands, kind)] *)
  findCommandDifferences : Value -> Value -> string -> list Value;
  (** [registerCommands(dev, newCommands, changed, added, removed)] *)
  registerCommands : Value -> Value -> list Value -> list Value -> list Value -> Result Value
}.

(** A call of [registerCommands], with its arguments. *)
Record Registration : Type := {
  dev : Value;
  newCommands : Value;
  changedCommands : list Value;
  addedCommands : list Value;
  removedCommands : list Value
}.

(** A run of the command: the calls of [registerCommands] it has made, and
    how it ended. *)
Definition Run (A : Type) : Type := (list Registration * Result A)%type.

Definition await {A} (c : Result A) : Run A := ([], c).

Definition andThen {A B} (c : Run A) (k : A -> Run B) : Run B :=
  match snd c with
  | Ok a => (fst c ++ fst (k a), snd (k a))
  | Err e => (fst c, Err e)
  end.

Definition buildAction (s : Steps) (options : Value) : Run Value :=
  if truthy (prop options "watch") then await (Err (ProcessExit 1)) else
  andThen (await (loadConfig s)) (fun config =>
  andThen (await (compile s)) (fun compileTime =>
  andThen (await (generateDefaults s)) (fun generatedFiles =>
  andThen (await (getProjectSize s)) (fun totalSize =>
  andThen (await (loadManifest s)) (fun oldManifest =>
  andThen (await (generateManifest s generatedFiles "robo")) (fun manifest =>
  andThen (await (member oldManifest "commands")) (fun oldCommands =>
  andThen (await (member manifest "commands")) (fun newCommands =>
  let addedCommands := findCommandDifferences s oldCommands newCommands "added" in
  let removedCommands := findCommandDifferences s oldCommands newCommands "removed" in
  let changedCommands := findCommandDifferences s oldCommands newCommands "changed" in
  if truthy (prop options "force")
     || (0 <? length addedCommands)%nat
     || (0 <? length removedCommands)%nat
     || (0 <? length changedCommands)%nat
  then
    ([ {| dev := prop options "dev";
          newCommands := newCommands;
          changedCommands := changedCommands;
          addedCommands := addedCommands;
          removedCommands := removedCommands |} ],
     registerCommands s (prop options "dev") newCommands
       changedCommands addedCommands removedCommands)
  else await (Ok VUndefined))))))))).

End Build.

(* ------------------------------------------------------------------------- *)
(** ** Concrete runs *)

Module Runs.

Definition host (t : Node) (config : Value) : Host :=
  {| tree := t;
     localeCompare := String.compare;
     ALLOWED_EXTENSIONS := [".js"; ".jsx"; ".ts"; ".tsx"];
     Mode_get := "development";
     Mode_is := fun mode => mode =? "development";
     import_config := fun _ => Ok VUndefined;
     loadConfig := config;
     findPackagePath := fun _ => None;
     useManifest := fun _ _ => Err ModuleError;
     isTypescriptProject := false;
     version := VString "0.9.0";
     readFile := fun _ => Err (FsError "ENOENT");
     JSON_parse := fun _ => Err SyntaxError |}.

Definition build (children : list (string * Node)) : Node :=
  Dir [(".robo", Dir [("build", Dir children)])].

(** Two installed plugins that both listen to [ready]. *)
Definition listener (file : string) : Value := VObject [("__path", VString file)].

Definition pluginManifest (file permission scope : string) : Value :=
  VObject [ ("commands", VObject []);
            ("events", VObject [("ready", VArray [listener file])]);
            ("permissions", strings [permission]);
            ("scopes", strings [scope]) ].

Definition firstPlugin : Value := pluginManifest "/first/ready.js" "BanMembers" "identify".
Definition secondPlugin : Value := pluginManifest "/second/ready.js" "KickMembers" "guilds".

Definition twoPlugins : Host :=
  {| tree := build [];
     localeCompare := String.compare;
     ALLOWED_EXTENSIONS := [".js"];
     Mode_get := "development";
     Mode_is := fun mode => mode =? "development";
     import_config := fun _ => Ok VUndefined;
     loadConfig := VObject [("plugins", strings ["first"; "second"])];
     findPackagePath := fun name =>
       match name with
       | VString n => Some ("node_modules/" ++ n)%string
       | _ => None
       end;
     useManifest := fun basePath _ =>
       if basePath =? "node_modules/first" then Ok firstPlugin else Ok secondPlugin;
     isTypescriptProject := false;
     version := VString "0.9.0";
     readFile := fun file => Ok file;
     JSON_parse := fun content =>
       if content =? "node_modules/first/.robo/manifest.json"
       then Ok firstPlugin else Ok secondPlugin |}.

(** An API route file beside a directory of the same name, two levels down. *)
Definition nestedRoutes : Host :=
  host (build [("api", Dir [("a", Dir [("b.js", File ""); ("b", Dir [("c.js", File "")])])])])
       (VObject []).


(** A project with a parent command, a subcommand and a subcommand group. *)
Definition threeLevels : Host :=
  host (build [ ("commands",
                 Dir [ ("ping.js", File "");
                       ("ban", Dir [("user.js", File "")]);
                       ("settings", Dir [("update", Dir [("something.js", File "")])]) ]) ])
       (VObject [("plugins",
                  VArray [VArray [VString "analytics";
                                  VObject [("token", VString "hunter2")]]])]).

(** The visits of a scan, in order. *)
Definition Visit : Type := (list string * Path * list string)%type.

Definition record : Manifest.ScanDirPredicate (list Visit) :=
  fun fileKeys fullPath moduleKeys visits => Ok (visits ++ [(fileKeys, fullPath, moduleKeys)]).

Definition firstCall (type : EntryType) : Manifest.ScanDirOptions :=
  {| Manifest.buildDirectory := VUndefined;
     Manifest.recurseModules := None;
     Manifest.recursionKeys := None;
     Manifest.recursionModuleKeys := None;
     Manifest.recursionPath := None;
     Manifest.type := type |}.

Definition steps (old new : Value) (diff : string -> list Value) : Build.Steps :=
  {| Build.loadConfig := Ok VNull;
     Build.compile := Ok (VNumber 12);
     Build.generateDefaults := Ok (VObject []);
     Build.getProjectSize := Ok (VNumber 2048);
     Build.loadManifest := Ok old;
     Build.generateManifest := fun _ _ => Ok new;
     Build.findCommandDifferences := fun _ _ kind => diff kind;
     Build.registerCommands := fun _ _ _ _ _ => Ok VUndefined |}.

End Runs.

(* ------------------------------------------------------------------------- *)
(** ** Facts about property lists *)

Section PropertyLists.

Context {V : Type}.
Implicit Types (ps : list (string * V)) (k : string) (v : V).

Lemma lookup_assign_same k v ps : lookup k (assign k v ps) = Some v.
Proof.
  induction ps as [|[k' v'] ps IH]; simpl.
  - now rewrite String.eqb_refl.
  - destruct (k' =? k) eqn:E; simpl.
    + now rewrite String.eqb_refl.
    + now rewrite E.
Qed.

Lemma lookup_assign_other k k' v ps :
  k <> k' -> lookup k' (assign k v ps) = lookup k' ps.
Proof.
  intros Hne. induction ps as [|[k0 v0] ps IH]; simpl.
  - destruct (k =? k') eqn:E; [apply String.eqb_eq in E; contradiction | reflexivity].
  - destruct (k0 =? k) eqn:E; simpl.
    + apply String.eqb_eq in E. subst k0.
      destruct (k =? k') eqn:E'; [apply String.eqb_eq in E'; contradiction | reflexivity].
    + destruct (k0 =? k'); [reflexivity | exact IH].
Qed.

Lemma lookup_assign k k' v ps :
  lookup k' (assign k v ps) = if k =? k' then Some v else lookup k' ps.
Proof.
  destruct (k =? k') eqn:E.
  - apply String.eqb_eq in E. subst. apply lookup_assign_same.
  - apply String.eqb_neq in E. now apply lookup_assign_other.
Qed.

Lemma lookup_None_iff k ps : lookup k ps = None <-> ~ In k (map fst ps).
Proof.
  induction ps as [|[k' v'] ps IH]; simpl.
  - tauto.
  - destruct (k' =? k) eqn:E.
    + apply String.eqb_eq in E. split; [discriminate | intros H; exfalso; apply H; now left].
    + apply String.eqb_neq in E. rewrite IH. tauto.
Qed.

Lemma lookup_Some_In k v ps : lookup k ps = Some v -> In (k, v) ps.
Proof.
  induction ps as [|[k' v'] ps IH]; simpl; [discriminate|].
  destruct (k' =? k) eqn:E.
  - apply String.eqb_eq in E. intros [= ->]. subst. now left.
  - intros H. right. now apply IH.
Qed.

Lemma In_lookup_NoDup k v ps :
  NoDup (map fst ps) -> In (k, v) ps -> lookup k ps = Some v.
Proof.
  induction ps as [|[k' v'] ps IH]; simpl; [tauto|].
  intros Hnd [H|H].
  - injection H as -> ->. now rewrite String.eqb_refl.
  - inversion Hnd as [|? ? Hnotin Hnd']; subst.
    destruct (k' =? k) eqn:E.
    + apply String.eqb_eq in E. subst k'. exfalso. apply Hnotin.
      change k with (fst (k, v)). now apply in_map.
    + now apply IH.
Qed.

Lemma keys_assign k v ps :
  map fst (assign k v ps) =
  if existsb (String.eqb k) (map fst ps) then map fst ps else map fst ps ++ [k].
Proof.
  induction ps as [|[k' v'] ps IH]; simpl; [reflexivity|].
  rewrite (String.eqb_sym k k'). destruct (k' =? k) eqn:E; simpl.
  - apply String.eqb_eq in E. now subst.
  - rewrite IH. now destruct (existsb (String.eqb k) (map fst ps)).
Qed.

Lemma In_keys_assign k k' v ps :
  In k' (map fst (assign k v ps)) <-> k' = k \/ In k' (map fst ps).
Proof.
  induction ps as [|[k0 v0] ps IH]; simpl.
  - intuition.
  - destruct (k0 =? k) eqn:E; simpl.
    + apply String.eqb_eq in E. subst. intuition.
    + rewrite IH. intuition.
Qed.

Lemma NoDup_assign k v ps : NoDup (map fst ps) -> NoDup (map fst (assign k v ps)).
Proof.
  induction ps as [|[k' v'] ps IH]; simpl; intros Hnd.
  - constructor; [intros []|constructor].
  - inversion Hnd as [|? ? Hnotin Hnd']; subst.
    destruct (k' =? k) eqn:E; simpl.
    + apply String.eqb_eq in E. subst. now constructor.
    + constructor; [|now apply IH].
      rewrite In_keys_assign. intros [->|H]; [|contradiction].
      now rewrite String.eqb_refl in E.
Qed.

Lemma In_assign k v kv ps :
  In kv (assign k v ps) -> kv = (k, v) \/ In kv ps.
Proof.
  induction ps as [|[k' v'] ps IH]; simpl.
  - intuition.
  - destruct (k' =? k); simpl; intuition.
Qed.

Lemma assign_lookup_same k v ps : lookup k ps = Some v -> assign k v ps = ps.
Proof.
  induction ps as [|[k' v'] ps IH]; simpl; [discriminate|].
  destruct (k' =? k) eqn:E.
  - apply String.eqb_eq in E. intros [= ->]. now subst.
  - intros H. now rewrite IH.
Qed.

Lemma assign_fresh k v ps : lookup k ps = None -> assign k v ps = ps ++ [(k, v)].
Proof.
  induction ps as [|[k' v'] ps IH]; simpl; [reflexivity|].
  destruct (k' =? k); [discriminate|]. intros H. now rewrite IH.
Qed.

Lemma assign_assign_same k v v' ps : assign k v (assign k v' ps) = assign k v ps.
Proof.
  induction ps as [|[k0 v0] ps IH]; simpl.
  - now rewrite String.eqb_refl.
  - destruct (k0 =? k) eqn:E; simpl.
    + now rewrite String.eqb_refl.
    + now rewrite E, IH.
Qed.


(** Folding assignments: the last write to a key wins, older keys stay. *)
Lemma lookup_fold_assign k (src acc : list (string * V)) :
  lookup k (fold_left (fun a kv => assign (fst kv) (snd kv) a) src acc) =
  match lookup k (rev src) with
  | Some v => Some v
  | None => lookup k acc
  end.
Proof.
  revert acc. induction src as [|[k' v'] src IH]; intros acc; simpl; [reflexivity|].
  rewrite IH. clear IH.
  assert (Happ : forall l, lookup k (l ++ [(k', v')]) =
                           match lookup k l with
                           | Some v => Some v
                           | None => if k' =? k then Some v' else None
                           end).
  { induction l as [|[a b] l IHl]; simpl; [reflexivity|].
    destruct (a =? k); [reflexivity | exact IHl]. }
  rewrite Happ. destruct (lookup k (rev src)); [reflexivity|].
  rewrite lookup_assign. now destruct (k' =? k).
Qed.

Lemma lookup_rev_NoDup k ps : NoDup (map fst ps) -> lookup k (rev ps) = lookup k ps.
Proof.
  intros Hnd. destruct (lookup k ps) as [v|] eqn:E.
  - apply In_lookup_NoDup.
    + rewrite map_rev. now apply NoDup_rev.
    + apply in_rev. rewrite rev_involutive. now apply lookup_Some_In.
  - apply lookup_None_iff. apply lookup_None_iff in E.
    rewrite map_rev. intros H. apply E. now apply in_rev.
Qed.

Lemma NoDup_fold_assign (src acc : list (string * V)) :
  NoDup (map fst acc) ->
  NoDup (map fst (fold_left (fun a kv => assign (fst kv) (snd kv) a) src acc)).
Proof.
  revert acc. induction src as [|kv src IH]; intros acc H; simpl; [exact H|].
  apply IH. now apply NoDup_assign.
Qed.

Lemma fold_assign_fresh (src acc : list (string * V)) :
  NoDup (map fst (acc ++ src)) ->
  fold_left (fun a kv => assign (fst kv) (snd kv) a) src acc = acc ++ src.
Proof.
  revert acc. induction src as [|[k v] src IH]; intros acc H; simpl.
  - now rewrite app_nil_r.
  - rewrite assign_fresh.
    + rewrite IH; rewrite <- app_assoc; [reflexivity | exact H].
    + apply lookup_None_iff. rewrite map_app in H. simpl in H.
      apply NoDup_remove_2 in H. intros Hin. apply H. apply in_or_app. now left.
Qed.

Lemma In_fold_assign kv (src acc : list (string * V)) :
  In kv (fold_left (fun a kv => assign (fst kv) (snd kv) a) src acc) ->
  In kv src \/ In kv acc.
Proof.
  revert acc. induction src as [|[k v] src IH]; intros acc; simpl; [tauto|].
  intros H. apply IH in H. destruct H as [H|H]; [tauto|].
  apply In_assign in H. simpl in H. intuition.
Qed.

Lemma In_keys_fold_assign k (src acc : list (string * V)) :
  In k (map fst (fold_left (fun a kv => assign (fst kv) (snd kv) a) src acc)) <->
  In k (map fst src) \/ In k (map fst acc).
Proof.
  revert acc. induction src as [|[k' v'] src IH]; intros acc; simpl; [tauto|].
  rewrite IH, In_keys_assign. intuition.
Qed.

End PropertyLists.

(* ------------------------------------------------------------------------- *)
(** ** The build command registers exactly when the diff says so *)

Lemma positive_length {A} (l : list A) : (0 <? length l)%nat = true <-> l <> [].
Proof.
  destruct l; simpl; split; intros H; try discriminate; try reflexivity.
  now contradiction H.
Qed.

Lemma andThen_await {A B} (a : A) (k : A -> Build.Run B) :
  Build.andThen (Build.await (Ok a)) k = k a.
Proof. unfold Build.andThen, Build.await. simpl. now destruct (k a). Qed.

(** C6.  A build whose steps all answer calls [registerCommands] if and only if
    the [force] option is set or one of the added, removed and changed command
    differences between the loaded and the generated manifest is not empty; it
    then calls it once, with the generated commands and the three differences. *)
Theorem registration_decided_by_diff :
  forall (s : Build.Steps) (options config compileTime generated size : Value)
         (oldManifest manifest oldCommands newCommands : Value),
    truthy (prop options "watch") = false ->
    Build.loadConfig s = Ok config ->
    Build.compile s = Ok compileTime ->
    Build.generateDefaults s = Ok generated ->
    Build.getProjectSize s = Ok size ->
    Build.loadManifest s = Ok oldManifest ->
    Build.generateManifest s generated "robo" = Ok manifest ->
    member oldManifest "commands" = Ok oldCommands ->
    member manifest "commands" = Ok newCommands ->
    let added := Build.findCommandDifferences s oldCommands newCommands "added" in
    let removed := Build.findCommandDifferences s oldCommands newCommands "removed" in
    let changed := Build.findCommandDifferences s oldCommands newCommands "changed" in
    let calls := fst (Build.buildAction s options) in
    (calls <> [] <->
       truthy (prop options "force") = true \/ added <> [] \/ removed <> [] \/ changed <> [])
    /\ (forall call, In call calls ->
          calls = [call]
          /\ Build.newCommands call = newCommands
          /\ Build.addedCommands call = added
          /\ Build.removedCommands call = removed
          /\ Build.changedCommands call = changed).
Proof.
  intros s options config compileTime generated size oldManifest manifest
         oldCommands newCommands Hwatch Hc Hcomp Hgen Hsize Hold Hnew Hoc Hnc
         added removed changed calls.
  subst calls. unfold Build.buildAction.
  rewrite Hwatch, Hc, Hcomp, Hgen, Hsize, Hold. rewrite !andThen_await.
  rewrite Hnew, andThen_await, Hoc, andThen_await, Hnc, andThen_await.
  fold added removed changed.
  destruct (truthy (prop options "force")
            || (0 <? length added)%nat || (0 <? length removed)%nat
            || (0 <? length changed)%nat) eqn:E; simpl fst.
  - split.
    + split; [intros _ | intros _; discriminate].
      repeat (apply orb_true_iff in E; destruct E as [E|E]);
        rewrite ?positive_length in E; tauto.
    + intros call [<-|[]]. simpl. repeat split; reflexivity.
  - split; [|intros call []].
    split; [intros H; now contradiction H|].
    apply orb_false_iff in E. destruct E as [E E3].
    apply orb_false_iff in E. destruct E as [E E2].
    apply orb_false_iff in E. destruct E as [E0 E1].
    intros [H|[H|[H|H]]]; [congruence| | |];
      apply positive_length in H; congruence.
Qed.

Lemma registration_decided_by_diff_witness :
  let s := Runs.steps (VObject [("commands", VObject [])])
                      (VObject [("commands", VObject [("ping", VObject [])])])
                      (fun kind => if kind =? "added" then [VString "ping"] else []) in
  fst (Build.buildAction s (VObject [])) <> [] <->
  truthy (prop (VObject []) "force") = true
  \/ Build.findCommandDifferences s (VObject []) (VObject [("ping", VObject [])]) "added" <> []
  \/ Build.findCommandDifferences s (VObject []) (VObject [("ping", VObject [])]) "removed" <> []
  \/ Build.findCommandDifferences s (VObject []) (VObject [("ping", VObject [])]) "changed" <> [].
Proof.
  intros s.
  exact (proj1 (registration_decided_by_diff s (VObject []) VNull (VNumber 12) (VObject [])
                  (VNumber 2048) _ _ _ _
                  eq_refl eq_refl eq_refl eq_refl eq_refl eq_refl eq_refl eq_refl eq_refl)).
Defined.

(** [{ ...o }] of an object is a copy with the same properties. *)
Lemma spread_object (ps : Props) : NoDup (map fst ps) -> spread [] (VObject ps) = ps.
Proof. intros H. unfold spread. simpl. now rewrite (fold_assign_fresh ps []). Qed.

(* ------------------------------------------------------------------------- *)
(** ** Events: what [mergeEvents] keeps, and what the legacy plugin fold drops *)








(** C2.  Two installed plugins that both listen to [ready]: the plugin fold of
    the legacy revision keeps the listener of the second plugin only, where
    [mergeEvents] on the same two event maps, and the plugin fold of the current
    revision, keep both in order. *)
Theorem legacy_plugin_fold_overwrites_listeners :
  let plugins := strings ["first"; "second"] in
  (exists pluginsManifest,
     Legacy.readPluginManifest Runs.twoPlugins plugins = Ok pluginsManifest
     /\ prop (prop pluginsManifest "events") "ready" =
        VArray [ VObject [ ("__auto", VBool true);
                           ("__plugin", VObject [ ("name", VString "second");
                                                  ("path", VString "node_modules/second") ]);
                           ("__path", VString "/second/ready.js") ] ])
  /\ (exists merged,
        mergeEvents (prop Runs.firstPlugin "events") (prop Runs.secondPlugin "events")
          = Ok merged
        /\ prop merged "ready" =
           VArray [Runs.listener "/first/ready.js"; Runs.listener "/second/ready.js"])
  /\ (exists pluginsManifest,
        Manifest.readPluginManifest Runs.twoPlugins plugins = Ok pluginsManifest
        /\ prop (prop pluginsManifest "events") "ready" =
           VArray [Runs.listener "/first/ready.js"; Runs.listener "/second/ready.js"]).
Proof.
  intros plugins. repeat split; eexists; (split; [vm_compute; reflexivity | reflexivity]).
Qed.

(* ------------------------------------------------------------------------- *)
(** ** API routes below a route file *)

Lemma nestedRoutes_visits :
  Manifest.scanDir Runs.nestedRoutes 4 Runs.record (Runs.firstCall Api) [] =
  Ok [ (["a"; "b"], [".robo"; "build"; "api"; "a"; "b.js"], []);
       (["a"; "b"; "c"], [".robo"; "build"; "api"; "a"; "b"; "c.js"], []) ].
Proof. vm_compute. reflexivity. Qed.

(** C4.  With [api/a/b.js] beside [api/a/b/c.js] the file is visited first and
    stored at [a.subroutes.b]; the visit of [c.js] then walks into that entry,
    which has no [subroutes], and throws; [generateEntries] gives no entries for
    any amount of fuel. *)
Theorem api_route_below_route_file_throws :
  (exists entry,
     Manifest.makeEntry Runs.nestedRoutes Api [] ["a"; "b"; "c"]
       [".robo"; "build"; "api"; "a"; "b"; "c.js"] [] = Ok entry
     /\ predicateBody Api ["a"; "b"; "c"] entry
          [("a", VObject [("subroutes",
                           VObject [("b", VObject [("__path",
                                       VString "/.robo/build/api/a/b.js")])])])]
        = Err TypeError)
  /\ forall fuel, exists e,
       Manifest.generateEntries Runs.nestedRoutes fuel Api [] = Err e.
Proof.
  split.
  - eexists. split; vm_compute; reflexivity.
  - intros fuel.
    do 4 (destruct fuel as [|fuel]; [eexists; vm_compute; reflexivity|]).
    eexists. vm_compute. reflexivity.
Qed.

(* ------------------------------------------------------------------------- *)
(** ** Plugin permissions and scopes in the emitted manifest *)

(** C5.  The plugin fold concatenates the permissions and the scopes of the
    two plugins, and the manifest that [generateManifest] emits carries none of
    them: both lists are assigned afresh from the configuration. *)
Theorem plugin_permissions_and_scopes_dropped :
  exists pluginsManifest manifest disk,
    Manifest.readPluginManifest Runs.twoPlugins (prop (loadConfig Runs.twoPlugins) "plugins")
      = Ok pluginsManifest
    /\ prop pluginsManifest "permissions" = strings ["BanMembers"; "KickMembers"]
    /\ prop pluginsManifest "scopes" = strings ["identify"; "guilds"]
    /\ Manifest.generateManifest Runs.twoPlugins "2024-01-01T00:00:00.000Z" 3 VUndefined "robo"
       = Ok (manifest, disk)
    /\ prop manifest "permissions" = VArray []
    /\ prop manifest "scopes" = strings ["bot"].
Proof.
  do 3 eexists.
  split; [vm_compute; reflexivity|].
  split; [reflexivity|]. split; [reflexivity|].
  split; [vm_compute; reflexivity|].
  split; reflexivity.
Qed.

(* ------------------------------------------------------------------------- *)
(** ** Plugin options are redacted *)

Definition REDACTED : Value := VString "[REDACTED]".

(** Two plugin entries that differ at most in the values of their options. *)
Definition same_plugin_shape (p q : Value) : Prop :=
  p = q \/
  exists name o1 o2,
    p = VArray [name; o1] /\ q = VArray [name; o2]
    /\ typeof o1 = "object" /\ typeof o2 = "object"
    /\ own_keys o1 = own_keys o2.

Lemma redactedObj_as_assign (options acc : Props) :
  fold_left (fun redactedObj kv => assign (fst kv) REDACTED redactedObj) options acc =
  fold_left (fun a kv => assign (fst kv) (snd kv) a)
            (map (fun kv => (fst kv, REDACTED)) options) acc.
Proof.
  revert acc. induction options as [|kv options IH]; intros acc; simpl; [reflexivity|].
  apply IH.
Qed.

Lemma redactedObj_keys_only (o1 o2 : Props) :
  map fst o1 = map fst o2 ->
  map (fun kv : string * Value => (fst kv, REDACTED)) o1 =
  map (fun kv : string * Value => (fst kv, REDACTED)) o2.
Proof.
  revert o2. induction o1 as [|[k v] o1 IH]; intros [|[k' v'] o2]; simpl;
    try discriminate; [reflexivity|].
  intros [= -> H]. now rewrite (IH o2 H).
Qed.

(** A pair with object options: the name stays, the options keep their keys
    and every value becomes the redaction mark. *)
Lemma redactPlugin_pair (name options : Value) :
  typeof options = "object" ->
  exists redactedObj,
    redactPlugin (VArray [name; options]) = VArray [name; VObject redactedObj]
    /\ (forall k, In k (map fst redactedObj) <-> In k (own_keys options))
    /\ (forall k v, In (k, v) redactedObj -> v = REDACTED)
    /\ (NoDup (own_keys options) -> map fst redactedObj = own_keys options).
Proof.
  intros Hobj. unfold redactPlugin. cbn [is_array prop]. simpl String.eqb.
  cbn [indexed lookup or_undefined]. simpl String.eqb. cbn [or_undefined].
  rewrite Hobj. simpl String.eqb. cbv iota.
  eexists. split; [reflexivity|]. fold REDACTED. rewrite redactedObj_as_assign.
  unfold own_keys. set (ps := own_props options). split; [|split].
  - intros k. rewrite In_keys_fold_assign, map_map. simpl. tauto.
  - intros k v Hin. apply In_fold_assign in Hin. destruct Hin as [Hin|[]].
    apply in_map_iff in Hin. now destruct Hin as (kv & [= <- <-] & Hin).
  - intros Hnd. rewrite (fold_assign_fresh _ []).
    + simpl. rewrite map_map. reflexivity.
    + simpl. rewrite map_map. exact Hnd.
Qed.

(** The redaction of a pair depends on the keys of its options only. *)
Lemma redactPlugin_same_shape (p q : Value) :
  same_plugin_shape p q -> redactPlugin p = redactPlugin q.
Proof.
  intros [->|(name & o1 & o2 & -> & -> & H1 & H2 & Hkeys)]; [reflexivity|].
  unfold redactPlugin. cbn [is_array prop]. simpl String.eqb.
  cbn [indexed lookup or_undefined]. simpl String.eqb. cbn [or_undefined].
  rewrite H1, H2. simpl String.eqb. cbv iota.
  fold REDACTED. rewrite !redactedObj_as_assign.
  now rewrite (redactedObj_keys_only (own_props o1) (own_props o2) Hkeys).
Qed.

Lemma redactPluginOptions_object (config : Props) (plugins : list Value) :
  NoDup (map fst config) ->
  lookup "plugins" config = Some (VArray plugins) ->
  redactPluginOptions (VObject config) =
  Ok (VObject (assign "plugins" (VArray (map redactPlugin plugins)) config)).
Proof.
  intros Hnd Hl. unfold redactPluginOptions. cbn [member prop bind].
  rewrite Hl. cbn [or_undefined truthy negb]. now rewrite spread_object.
Qed.

(* ------------------------------------------------------------------------- *)
(** ** The shape of a composed manifest *)

Ltac inv_bind H :=
  match type of H with
  | bind ?c _ = Ok _ =>
      let x := fresh "x" in
      let E := fresh "E" in
      destruct c as [x|?] eqn:E; [cbn [bind] in H | discriminate H]
  end.

(** The properties of [{ ...base, ...pluginsManifest, written }]. *)
Definition literalProps (base pluginsManifest : Value) (w : Props) : Props :=
  fold_left (fun a kv => assign (fst kv) (snd kv) a) w
            (spread (spread [] base) pluginsManifest).

Lemma literal_written (base pluginsManifest : Value) (w : Props) :
  literal [base; pluginsManifest; VObject w] = VObject (literalProps base pluginsManifest w).
Proof. reflexivity. Qed.

(** A property replaced by its entries in sorted order. *)
Definition sorted_at (cmp : string -> string -> comparison) (ps : Props) (k : string)
    : Props :=
  assign k (sort_entries cmp (or_undefined (lookup k ps))) ps.

(** The assignments that follow the literal. *)
Definition settled (cmp : string -> string -> comparison) (sortedKeys : list string)
    (permissions scopes : list Value) (ps : Props) : Props :=
  fold_left (sorted_at cmp) sortedKeys
    (assign "scopes" (VArray scopes) (assign "permissions" (VArray permissions) ps)).

Lemma sortProperty_object cmp k ps :
  sortProperty cmp k (VObject ps) = Ok (VObject (sorted_at cmp ps k)).
Proof. reflexivity. Qed.

Lemma compose_inv (h : Host) (now type : string) (g : Manifest.Gathered) (m : Value) :
  Manifest.compose h now type g = Ok m ->
  exists redacted seed mergedEvents pluginMiddleware permissions scopes,
    redactPluginOptions (loadConfig h) = Ok redacted
    /\ member (loadConfig h) "seed" = Ok seed
    /\ mergeEvents (prop (Manifest.pluginsManifest g) "events") (Manifest.events g)
       = Ok mergedEvents
    /\ iterate (prop (Manifest.pluginsManifest g) "middleware") = Ok pluginMiddleware
    /\ generatePermissions (localeCompare h) (loadConfig h) = Ok permissions
    /\ generateScopes (localeCompare h) (loadConfig h)
         (VObject (assign "permissions" (VArray permissions)
            (literalProps (Manifest.BASE_MANIFEST h) (Manifest.pluginsManifest g)
               (Manifest.written h now type g redacted seed mergedEvents pluginMiddleware))))
       = Ok scopes
    /\ m = VObject
             (settled (localeCompare h) ["api"; "commands"; "events"] permissions scopes
                (literalProps (Manifest.BASE_MANIFEST h) (Manifest.pluginsManifest g)
                   (Manifest.written h now type g redacted seed mergedEvents
                      pluginMiddleware))).
Proof.
  intros H. unfold Manifest.compose in H.
  inv_bind H. inv_bind H. inv_bind H. inv_bind H. inv_bind H.
  rewrite literal_written in H. cbn [set_member bind] in H.
  inv_bind H. rewrite !sortProperty_object in H. cbn [bind] in H.
  rewrite !sortProperty_object in H. cbn [bind] in H.
  injection H as <-.
  do 6 eexists. repeat (split; [reflexivity || eassumption|]). reflexivity.
Qed.

Lemma legacy_compose_inv (h : Host) (now type : string) (g : Legacy.Gathered) (m : Value) :
  Legacy.compose h now type g = Ok m ->
  exists redacted mergedEvents permissions scopes,
    redactPluginOptions (loadConfig h) = Ok redacted
    /\ mergeEvents (prop (Legacy.pluginsManifest g) "events") (Legacy.events g)
       = Ok mergedEvents
    /\ generatePermissions (localeCompare h) (loadConfig h) = Ok permissions
    /\ generateScopes (localeCompare h) (loadConfig h)
         (VObject (assign "permissions" (VArray permissions)
            (literalProps Legacy.BASE_MANIFEST (Legacy.pluginsManifest g)
               (Legacy.written h now type g redacted mergedEvents))))
       = Ok scopes
    /\ m = VObject
             (settled (localeCompare h) ["commands"; "events"] permissions scopes
                (literalProps Legacy.BASE_MANIFEST (Legacy.pluginsManifest g)
                   (Legacy.written h now type g redacted mergedEvents))).
Proof.
  intros H. unfold Legacy.compose in H.
  inv_bind H. inv_bind H. inv_bind H.
  rewrite literal_written in H. cbn [set_member bind] in H.
  inv_bind H. rewrite !sortProperty_object in H. cbn [bind] in H.
  rewrite !sortProperty_object in H. cbn [bind] in H.
  injection H as <-.
  do 4 eexists. repeat (split; [reflexivity || eassumption|]). reflexivity.
Qed.

Lemma generateManifest_inv h now fuel defaults type m disk :
  Manifest.generateManifest h now fuel defaults type = Ok (m, disk) ->
  exists g,
    Manifest.gather h fuel defaults type = Ok g
    /\ Manifest.compose h now type g = Ok m
    /\ persist true (tree h) m = Ok disk.
Proof.
  intros H. unfold Manifest.generateManifest in H.
  inv_bind H. inv_bind H. inv_bind H. injection H as <- <-. eauto.
Qed.

Lemma legacy_generateManifest_inv h now fuel defaults type m disk :
  Legacy.generateManifest h now fuel defaults type = Ok (m, disk) ->
  exists g,
    Legacy.gather h fuel defaults type = Ok g
    /\ Legacy.compose h now type g = Ok m
    /\ persist false (tree h) m = Ok disk.
Proof.
  intros H. unfold Legacy.generateManifest in H.
  inv_bind H. inv_bind H. inv_bind H. injection H as <- <-. eauto.
Qed.

(** Reading a property of a composed manifest. *)
Lemma lookup_sorted_at cmp ps k k' :
  lookup k' (sorted_at cmp ps k) =
  if k =? k' then Some (sort_entries cmp (or_undefined (lookup k ps))) else lookup k' ps.
Proof. unfold sorted_at. apply lookup_assign. Qed.

Lemma lookup_literalProps_written base pluginsManifest w k v :
  lookup k (rev w) = Some v -> lookup k (literalProps base pluginsManifest w) = Some v.
Proof. intros H. unfold literalProps. now rewrite lookup_fold_assign, H. Qed.

Lemma robo_of_composed h now type g m :
  Manifest.compose h now type g = Ok m ->
  exists redacted seed,
    redactPluginOptions (loadConfig h) = Ok redacted
    /\ prop m "__robo" = Manifest.roboBlock h now type redacted seed.
Proof.
  intros H. apply compose_inv in H.
  destruct H as (redacted & seed & me & pmw & perms & scopes & Hr & _ & _ & _ & _ & _ & ->).
  exists redacted, seed. split; [exact Hr|].
  unfold prop, settled. cbn [fold_left].
  rewrite !lookup_sorted_at. cbn [String.eqb Ascii.eqb Bool.eqb].
  rewrite !lookup_assign. cbn [String.eqb Ascii.eqb Bool.eqb].
  erewrite lookup_literalProps_written; reflexivity.
Qed.

Lemma legacy_robo_of_composed h now type g m :
  Legacy.compose h now type g = Ok m ->
  exists redacted,
    redactPluginOptions (loadConfig h) = Ok redacted
    /\ prop m "__robo" = Legacy.roboBlock h now type redacted.
Proof.
  intros H. apply legacy_compose_inv in H.
  destruct H as (redacted & me & perms & scopes & Hr & _ & _ & _ & ->).
  exists redacted. split; [exact Hr|].
  unfold prop, settled. cbn [fold_left].
  rewrite !lookup_sorted_at. cbn [String.eqb Ascii.eqb Bool.eqb].
  rewrite !lookup_assign. cbn [String.eqb Ascii.eqb Bool.eqb].
  erewrite lookup_literalProps_written; reflexivity.
Qed.

Lemma redactPlugin_same_shapes (plugins plugins' : list Value) :
  Forall2 same_plugin_shape plugins plugins' ->
  map redactPlugin plugins = map redactPlugin plugins'.
Proof.
  induction 1 as [|p q ps qs Hpq _ IH]; simpl; [reflexivity|].
  now rewrite (redactPlugin_same_shape p q Hpq), IH.
Qed.

Lemma embedded_config h now fuel defaults type m disk redacted :
  redactPluginOptions (loadConfig h) = Ok redacted ->
  Manifest.generateManifest h now fuel defaults type = Ok (m, disk) ->
  prop (prop m "__robo") "config" = redacted.
Proof.
  intros Hr H. apply generateManifest_inv in H. destruct H as (g & _ & Hc & _).
  apply robo_of_composed in Hc. destruct Hc as (r & seed & Hr' & ->).
  rewrite Hr in Hr'. now injection Hr' as <-.
Qed.

Lemma legacy_embedded_config h now fuel defaults type m disk redacted :
  redactPluginOptions (loadConfig h) = Ok redacted ->
  Legacy.generateManifest h now fuel defaults type = Ok (m, disk) ->
  prop (prop m "__robo") "config" = redacted.
Proof.
  intros Hr H. apply legacy_generateManifest_inv in H. destruct H as (g & _ & Hc & _).
  apply legacy_robo_of_composed in Hc. destruct Hc as (r & Hr' & ->).
  rewrite Hr in Hr'. now injection Hr' as <-.
Qed.

(** C10.  For a configuration object with a [plugins] array: the redacted
    configuration is the same object with each plugin redacted in place; a
    [[name, options]] pair whose options are an object keeps its name and the
    keys of its options, every value replaced by ['[REDACTED]']; that redacted
    configuration is what both revisions embed under [__robo.config]; and a
    configuration that differs in the values of plugin options only is
    redacted to, and embeds, the very same value. *)
Theorem plugin_options_never_reach_manifest :
  forall (h : Host) (config : Props) (plugins : list Value),
    loadConfig h = VObject config ->
    NoDup (map fst config) ->
    lookup "plugins" config = Some (VArray plugins) ->
    let redacted := VObject (assign "plugins" (VArray (map redactPlugin plugins)) config) in
    redactPluginOptions (VObject config) = Ok redacted
    /\ length (map redactPlugin plugins) = length plugins
    /\ (forall i name options,
          nth_error plugins i = Some (VArray [name; options]) ->
          typeof options = "object" ->
          exists redactedObj,
            nth_error (map redactPlugin plugins) i = Some (VArray [name; VObject redactedObj])
            /\ (forall k, In k (map fst redactedObj) <-> In k (own_keys options))
            /\ (forall k v, In (k, v) redactedObj -> v = VString "[REDACTED]")
            /\ (NoDup (own_keys options) -> map fst redactedObj = own_keys options))
    /\ (forall now fuel defaults type m disk,
          Manifest.generateManifest h now fuel defaults type = Ok (m, disk) ->
          prop (prop m "__robo") "config" = redacted)
    /\ (forall now fuel defaults type m disk,
          Legacy.generateManifest h now fuel defaults type = Ok (m, disk) ->
          prop (prop m "__robo") "config" = redacted)
    /\ (forall (h' : Host) (plugins' : list Value),
          loadConfig h' = VObject (assign "plugins" (VArray plugins') config) ->
          Forall2 same_plugin_shape plugins plugins' ->
          redactPluginOptions (loadConfig h') = Ok redacted
          /\ (forall now fuel defaults type m disk,
                Manifest.generateManifest h' now fuel defaults type = Ok (m, disk) ->
                prop (prop m "__robo") "config" = redacted)
          /\ (forall now fuel defaults type m disk,
                Legacy.generateManifest h' now fuel defaults type = Ok (m, disk) ->
                prop (prop m "__robo") "config" = redacted)).
Proof.
  intros h config plugins Hcfg Hnd Hl redacted.
  assert (Hred : redactPluginOptions (VObject config) = Ok redacted)
    by now apply redactPluginOptions_object.
  split; [exact Hred|]. split; [apply length_map|]. split; [|split; [|split]].
  - intros i name options Hi Hobj.
    destruct (redactPlugin_pair name options Hobj) as (redactedObj & Heq & H).
    exists redactedObj. split; [|exact H].
    rewrite nth_error_map, Hi. simpl. now rewrite Heq.
  - intros now fuel defaults type m disk. apply embedded_config. now rewrite Hcfg.
  - intros now fuel defaults type m disk. apply legacy_embedded_config. now rewrite Hcfg.
  - intros h' plugins' Hcfg' Hshape.
    assert (Hred' : redactPluginOptions (loadConfig h') = Ok redacted).
    { rewrite Hcfg'. rewrite (redactPluginOptions_object _ plugins').
      - rewrite assign_assign_same. subst redacted.
        now rewrite (redactPlugin_same_shapes _ _ Hshape).
      - now apply NoDup_assign.
      - apply lookup_assign_same. }
    split; [exact Hred'|]. split; intros now fuel defaults type m disk.
    + now apply embedded_config.
    + now apply legacy_embedded_config.
Qed.

Lemma plugin_options_never_reach_manifest_witness :
  redactPluginOptions (loadConfig Runs.threeLevels) =
  Ok (VObject [("plugins",
                VArray [VArray [VString "analytics";
                                VObject [("token", VString "[REDACTED]")]]])]).
Proof.
  refine (proj1 (plugin_options_never_reach_manifest Runs.threeLevels _ _ eq_refl _ eq_refl)).
  repeat constructor. intros [].
Defined.

(* ------------------------------------------------------------------------- *)
(** ** Sorting keeps the properties *)

Lemma In_insert_sorted {A} (cmp : A -> A -> comparison) (x y : A) (l : list A) :
  In x (insert_sorted cmp y l) <-> x = y \/ In x l.
Proof.
  induction l as [|z l IH]; simpl.
  - intuition.
  - destruct (cmp y z); simpl; rewrite ?IH; intuition.
Qed.

Lemma In_js_sort {A} (cmp : A -> A -> comparison) (x : A) (l : list A) :
  In x (js_sort cmp l) <-> In x l.
Proof.
  unfold js_sort. induction l as [|y l IH]; simpl; [tauto|].
  rewrite In_insert_sorted, IH. intuition.
Qed.

Lemma In_sort_entries cmp (o : Value) (kv : string * Value) :
  In kv (own_props (sort_entries cmp o)) -> In kv (own_props o).
Proof.
  unfold sort_entries. cbn [own_props]. intros H.
  apply In_fold_assign in H. destruct H as [H|[]]. now apply In_js_sort in H.
Qed.

Lemma In_keys_sort_entries cmp (o : Value) (k : string) :
  In k (own_keys (sort_entries cmp o)) <-> In k (own_keys o).
Proof.
  unfold own_keys, sort_entries. cbn [own_props].
  rewrite In_keys_fold_assign. simpl. rewrite !in_map_iff.
  split.
  - intros [(kv & <- & H)|[]]. exists kv. split; [reflexivity|]. now apply In_js_sort in H.
  - intros (kv & <- & H). left. exists kv. split; [reflexivity|]. now apply In_js_sort.
Qed.

(** An object whose keys are distinct reads the same after sorting. *)
Lemma lookup_sort_entries cmp (o : Value) (k : string) :
  NoDup (own_keys o) ->
  lookup k (own_props (sort_entries cmp o)) = lookup k (own_props o).
Proof.
  intros Hnd. destruct (lookup k (own_props (sort_entries cmp o))) as [v|] eqn:E.
  - apply lookup_Some_In, In_sort_entries in E. symmetry. now apply In_lookup_NoDup.
  - apply lookup_None_iff in E. symmetry. apply lookup_None_iff.
    intros H. apply E. now apply In_keys_sort_entries.
Qed.

Lemma NoDup_literal (parts : list Value) : NoDup (own_keys (literal parts)).
Proof.
  unfold literal, own_keys. cbn [own_props].
  assert (H : forall acc : Props, NoDup (map fst acc) ->
                NoDup (map fst (fold_left spread parts acc))).
  { induction parts as [|p parts IH]; intros acc Hacc; simpl; [exact Hacc|].
    apply IH. unfold spread. now apply NoDup_fold_assign. }
  apply H. constructor.
Qed.

Lemma In_keys_spread (acc : Props) (src : Value) (k : string) :
  In k (map fst (spread acc src)) <-> In k (own_keys src) \/ In k (map fst acc).
Proof. unfold spread. apply In_keys_fold_assign. Qed.

Lemma lookup_spread (acc : Props) (src : Value) (k : string) :
  lookup k (spread acc src) =
  match lookup k (rev (own_props src)) with
  | Some v => Some v
  | None => lookup k acc
  end.
Proof. unfold spread. apply lookup_fold_assign. Qed.

(* ------------------------------------------------------------------------- *)
(** ** What a scanned file's entry looks like *)

(** Keys that [getValue] can give an entry, in either revision. *)
Definition valueKeys : list string :=
  [ "defaultMemberPermissions"; "dmPermission"; "description"; "descriptionLocalizations";
    "options"; "sage"; "frequency"; "timeout" ].

Definition keys_within (allowed : list string) (ps : Props) : Prop :=
  forall k, In k (map fst ps) -> In k allowed.

Lemma keys_within_assign allowed k v ps :
  In k allowed -> keys_within allowed ps -> keys_within allowed (assign k v ps).
Proof.
  intros Hk Hps k' Hin. apply In_keys_assign in Hin. destruct Hin as [->|Hin]; auto.
Qed.

Lemma keys_within_copy_when allowed test k config ps :
  In k allowed -> keys_within allowed ps ->
  keys_within allowed (Manifest.copy_when test k config ps).
Proof.
  intros Hk Hps. unfold Manifest.copy_when.
  destruct (test (prop config k)); [now apply keys_within_assign | exact Hps].
Qed.

Lemma keys_within_by_key allowed ps :
  keys_within allowed ps -> keys_within allowed (own_props (Manifest.by_key ps)).
Proof.
  intros Hps k Hin. unfold Manifest.by_key in Hin. cbn [own_props] in Hin.
  set (keys := js_sort String.compare (map fst ps)) in *.
  assert (Hkeys : forall x, In x keys -> In x allowed).
  { intros x Hx. apply Hps. subst keys. now apply In_js_sort in Hx. }
  clearbody keys.
  assert (H : forall acc : Props,
            In k (map fst (fold_left
                    (fun acc key => assign key (or_undefined (lookup key ps)) acc) keys acc)) ->
            In k keys \/ In k (map fst acc)).
  { clear Hin Hkeys. induction keys as [|x keys IH]; intros acc Hin; simpl in *; [tauto|].
    apply IH in Hin. destruct Hin as [Hin|Hin]; [tauto|].
    apply In_keys_assign in Hin. intuition. }
  apply H in Hin. destruct Hin as [Hin|[]]. now apply Hkeys.
Qed.

Ltac value_keys :=
  repeat first
    [ apply keys_within_copy_when; [simpl; tauto|]
    | apply keys_within_assign; [simpl; tauto|] ];
  try (intros ? []).

Lemma getValue_keys (type : EntryType) (config value : Value) :
  Manifest.getValue type config = Ok value -> keys_within valueKeys (own_props value).
Proof.
  unfold Manifest.getValue. destruct (negb (truthy config)).
  - intros [= <-]. intros k [].
  - intros H. inv_bind H. injection H as <-.
    apply keys_within_by_key.
    assert (Hx : keys_within valueKeys x).
    { destruct (is_type type Commands).
      - destruct (truthy (prop config "options")).
        + destruct (prop config "options"); try discriminate.
          inv_bind E. injection E as <-. value_keys.
        + injection E as <-. value_keys.
      - injection E as <-. intros k []. }
    destruct (is_type type Context), (is_type type Events); value_keys; exact Hx.
Qed.

Lemma legacy_getValue_keys (type : EntryType) (config value : Value) :
  Legacy.getValue type config = Ok value -> keys_within valueKeys (own_props value).
Proof.
  unfold Legacy.getValue. destruct (negb (truthy config)).
  - intros [= <-]. intros k [].
  - intros H. inv_bind H. injection H as <-.
    apply keys_within_by_key.
    assert (Hx : keys_within valueKeys x).
    { destruct (is_type type Commands).
      - destruct (truthy (prop config "options")).
        + destruct (prop config "options"); try discriminate.
          inv_bind E. injection E as <-. value_keys.
        + injection E as <-. value_keys.
      - injection E as <-. intros k []. }
    destruct (is_type type Events); value_keys; exact Hx.
Qed.

Lemma relative_nonempty (p : Path) : p <> [] -> relative p <> "".
Proof.
  assert (H : forall (q : Path) (s : string),
            s <> "" -> fold_left (fun s seg => (s ++ "/" ++ seg)%string) q s <> "").
  { induction q as [|seg q IH]; intros s Hs; simpl; [exact Hs|].
    apply IH. destruct s; [now contradiction Hs | discriminate]. }
  destruct p as [|seg p]; [intros Hp; now contradiction Hp|].
  intros _. unfold relative. simpl. apply H. discriminate.
Qed.

(** The entry a file contributes: its [__path] is the path of the file below
    the working directory, and it has no [subcommands] of its own. *)
Definition entry_of_file (fullPath : Path) (entry : Value) : Prop :=
  exists ps,
    entry = VObject ps
    /\ lookup "__path" ps = Some (VString (relative fullPath))
    /\ lookup "subcommands" ps = None.

Lemma entry_of_file_sorted cmp (value : Value) (extra : Props) (fullPath : Path) :
  keys_within valueKeys (own_props value) ->
  lookup "__path" (rev extra) = Some (VString (relative fullPath)) ->
  lookup "subcommands" (rev extra) = None ->
  entry_of_file fullPath (sort_entries cmp (literal [value; VObject extra])).
Proof.
  intros Hkeys Hpath Hsub.
  pose proof (NoDup_literal [value; VObject extra]) as Hnd.
  eexists. split; [reflexivity|].
  change (fold_left _ _ []) with
    (own_props (sort_entries cmp (literal [value; VObject extra]))).
  rewrite !lookup_sort_entries by exact Hnd.
  unfold literal. cbn [own_props fold_left]. rewrite !lookup_spread.
  cbn [own_props]. rewrite Hpath, Hsub. split; [reflexivity|].
  destruct (lookup "subcommands" (rev (own_props value))) as [v|] eqn:E; [|reflexivity].
  exfalso. apply lookup_Some_In in E. apply in_rev in E.
  assert (Hk : In "subcommands" valueKeys).
  { apply Hkeys. change "subcommands" with (fst ("subcommands", v)). now apply in_map. }
  simpl in Hk. repeat (destruct Hk as [Hk|Hk]; [discriminate Hk|]). exact Hk.
Qed.

Lemma makeEntry_of_file h type generatedKeys fileKeys fullPath moduleKeys entry :
  Manifest.makeEntry h type generatedKeys fileKeys fullPath moduleKeys = Ok entry ->
  entry_of_file fullPath entry.
Proof.
  unfold Manifest.makeEntry. intros H. inv_bind H. inv_bind H. injection H as <-.
  apply entry_of_file_sorted; [now apply getValue_keys in E0 | reflexivity | reflexivity].
Qed.

Lemma legacy_makeEntry_of_file h type generatedKeys fileKeys fullPath entry :
  Legacy.makeEntry h type generatedKeys fileKeys fullPath = Ok entry ->
  entry_of_file fullPath entry.
Proof.
  unfold Legacy.makeEntry. intros H. inv_bind H. inv_bind H. injection H as <-.
  apply entry_of_file_sorted;
    [now apply legacy_getValue_keys in E0 | reflexivity | reflexivity].
Qed.

(* ------------------------------------------------------------------------- *)
(** ** Commands nest by depth *)

(** An entry that stands for a command file. *)
Definition has_file (v : Value) : bool := truthy (prop v "__path").

(** The three kinds of node that scanning builds: the entry of a file, which
    has no subcommands, and a parent without a file, whose subcommands are of
    the kind one level down. *)
Definition leaf (v : Value) : Prop :=
  exists ps, v = VObject ps /\ has_file v = true /\ lookup "subcommands" ps = None.

Definition group (inner : Value -> Prop) (v : Value) : Prop :=
  exists ps subs,
    v = VObject ps /\ has_file v = false
    /\ lookup "subcommands" ps = Some (VObject subs)
    /\ Forall (fun kv => inner (snd kv)) subs.

Definition level2 (v : Value) : Prop := leaf v \/ group leaf v.
Definition level1 (v : Value) : Prop := leaf v \/ group level2 v.

(** The invariant of the [entries] of a command scan. *)
Definition commands_inv (entries : Props) : Prop := Forall (fun kv => level1 (snd kv)) entries.

Lemma entry_of_file_leaf fullPath entry :
  fullPath <> [] -> entry_of_file fullPath entry -> leaf entry.
Proof.
  intros Hp (ps & -> & Hpath & Hsub). exists ps. split; [reflexivity|].
  split; [|exact Hsub]. unfold has_file. cbn [prop]. rewrite Hpath. cbn.
  apply negb_true_iff. apply String.eqb_neq. now apply relative_nonempty.
Qed.

Lemma Forall_assign {V} (P : string * V -> Prop) k v (ps : list (string * V)) :
  Forall P ps -> P (k, v) -> Forall P (assign k v ps).
Proof.
  intros Hps Hkv. rewrite Forall_forall in *. intros kv Hin.
  apply In_assign in Hin. destruct Hin as [->|Hin]; auto.
Qed.

Lemma Forall_lookup {V} (P : string * V -> Prop) k v (ps : list (string * V)) :
  Forall P ps -> lookup k ps = Some v -> P (k, v).
Proof.
  intros Hps Hl. apply lookup_Some_In in Hl. rewrite Forall_forall in Hps. now apply Hps.
Qed.

(** The parent that a nested file is put under: the node already there, which
    has no file, or a fresh placeholder. *)
Lemma parent_without_file (inner : Value -> Prop) (nodes : Props) (k : string) :
  Forall (fun kv => leaf (snd kv) \/ group inner (snd kv)) nodes ->
  has_file (or_undefined (lookup k nodes)) = false ->
  exists ps subs,
    (if truthy (or_undefined (lookup k nodes))
     then or_undefined (lookup k nodes) else placeholder "subcommands") = VObject ps
    /\ has_file (VObject ps) = false
    /\ lookup "subcommands" ps = Some (VObject subs)
    /\ Forall (fun kv => inner (snd kv)) subs
    /\ (lookup k nodes = None -> ps = [("subcommands", VObject [])] /\ subs = [])
    /\ (forall k',
          prop (prop (or_undefined (lookup k nodes)) "subcommands") k' =
          or_undefined (lookup k' subs)).
Proof.
  intros Hall Hfile. destruct (lookup k nodes) as [v|] eqn:E; cbn [or_undefined] in *.
  - apply (Forall_lookup _ _ _ _ Hall) in E. simpl in E.
    destruct E as [(ps & -> & Hf & _)|(ps & subs & -> & Hf & Hs & Hin)]; [congruence|].
    exists ps, subs. cbn [truthy]. repeat split; trivial; try discriminate.
    intros k'. cbn [prop]. rewrite Hs. reflexivity.
  - exists [("subcommands", VObject [])], []. cbn [truthy]. unfold placeholder.
    repeat split; trivial.
Qed.

Lemma set_in_object ps field subs k x :
  lookup field ps = Some (VObject subs) ->
  set_in (VObject ps) field k x =
  Ok (VObject (assign field (VObject (assign k x subs)) ps)).
Proof. intros H. unfold set_in. cbn [member prop bind]. now rewrite H. Qed.

Lemma has_file_assign ps field x :
  field <> "__path" ->
  has_file (VObject (assign field x ps)) = has_file (VObject ps).
Proof.
  intros H. unfold has_file. cbn [prop]. now rewrite lookup_assign_other.
Qed.

(** Other kinds of file leave the steps for commands idle, and commands leave
    the other steps idle. *)
Lemma predicateBody_commands fileKeys entry entries :
  predicateBody Commands fileKeys entry entries =
  (entries <- subcommandGroupStep Commands fileKeys entry entries ;;
   entries <- subcommandStep Commands fileKeys entry entries ;;
   commandStep Commands fileKeys entry entries).
Proof.
  unfold predicateBody.
  assert (He : eventStep Commands fileKeys entry entries = Ok entries).
  { unfold eventStep. change (is_type Commands Events) with false. cbn [andb].
    now destruct (or_undefined (lookup (key_at fileKeys 0) entries)). }
  rewrite He. cbn [bind]. unfold contextStep at 1.
  change (is_type Commands Context) with false. cbn [andb bind].
  destruct (subcommandGroupStep Commands fileKeys entry entries) as [e1|]; [|reflexivity].
  cbn [bind].
  destruct (subcommandStep Commands fileKeys entry e1) as [e2|]; [|reflexivity].
  cbn [bind].
  destruct (commandStep Commands fileKeys entry e2) as [e3|]; reflexivity.
Qed.

Lemma legacy_directive_commands h generatedKeys fileKeys fullPath entries :
  Legacy.directive h Commands generatedKeys fileKeys fullPath entries =
  (entry <- Legacy.makeEntry h Commands generatedKeys fileKeys fullPath ;;
   predicateBody Commands fileKeys entry entries).
Proof.
  unfold Legacy.directive.
  destruct (Legacy.makeEntry h Commands generatedKeys fileKeys fullPath) as [entry|];
    [|reflexivity].
  cbn [bind]. rewrite predicateBody_commands.
  assert (He : eventStep Commands fileKeys entry entries = Ok entries).
  { unfold eventStep. change (is_type Commands Events) with false. cbn [andb].
    now destruct (or_undefined (lookup (key_at fileKeys 0) entries)). }
  now rewrite He.
Qed.

(** What the three steps do to a key path of each length. *)
Lemma command_depth1 k1 entry entries :
  predicateBody Commands [k1] entry entries = Ok (assign k1 entry entries).
Proof. rewrite predicateBody_commands. reflexivity. Qed.

Lemma command_depth2 k1 k2 entry entries :
  predicateBody Commands [k1; k2] entry entries =
  (let parentCommand := or_undefined (lookup k1 entries) in
   if has_file parentCommand then Err (ProcessExit 1) else
   let parentCommand :=
     if truthy parentCommand then parentCommand else placeholder "subcommands" in
   parentCommand <- set_in parentCommand "subcommands" k2 entry ;;
   Ok (assign k1 parentCommand entries)).
Proof.
  rewrite predicateBody_commands.
  change (subcommandGroupStep Commands [k1; k2] entry entries) with (@Ok Props entries).
  cbn [bind]. unfold subcommandStep, has_file.
  change (is_type Commands Commands && (length [k1; k2] =? 2)%nat) with true.
  cbv iota. cbn [key_at nth].
  destruct (truthy (prop (or_undefined (lookup k1 entries)) "__path")); [reflexivity|].
  cbv zeta.
  destruct (set_in _ "subcommands" k2 entry) as [p|]; reflexivity.
Qed.

Lemma command_depth3 k1 k2 k3 entry entries :
  predicateBody Commands [k1; k2; k3] entry entries =
  (let parentCommand := or_undefined (lookup k1 entries) in
   if has_file parentCommand then Err (ProcessExit 1) else
   let parentCommand :=
     if truthy parentCommand then parentCommand else placeholder "subcommands" in
   subcommands <- member parentCommand "subcommands" ;;
   parentSubcommand <- member subcommands k2 ;;
   if has_file parentSubcommand then Err (ProcessExit 1) else
   let parentSubcommand :=
     if truthy parentSubcommand then parentSubcommand else placeholder "subcommands" in
   parentSubcommand <- set_in parentSubcommand "subcommands" k3 entry ;;
   parentCommand <- set_in parentCommand "subcommands" k2 parentSubcommand ;;
   Ok (assign k1 parentCommand entries)).
Proof.
  rewrite predicateBody_commands.
  unfold subcommandGroupStep, has_file.
  change (is_type Commands Commands && (length [k1; k2; k3] =? 3)%nat) with true.
  cbv iota. cbn [key_at nth].
  destruct (truthy (prop (or_undefined (lookup k1 entries)) "__path")); [reflexivity|].
  cbv zeta.
  destruct (member _ "subcommands") as [subcommands|]; [|reflexivity]. cbn [bind].
  destruct (member subcommands k2) as [parentSubcommand|]; [|reflexivity]. cbn [bind].
  destruct (truthy (prop parentSubcommand "__path")); [reflexivity|].
  destruct (set_in _ "subcommands" k3 entry) as [q|]; [|reflexivity]. cbn [bind].
  destruct (set_in _ "subcommands" k2 q) as [p|]; reflexivity.
Qed.

(** Where the entry of a file two levels down ends up. *)
Lemma subcommand_placed k1 k2 entry entries :
  commands_inv entries ->
  has_file (or_undefined (lookup k1 entries)) = false ->
  exists ps subs,
    predicateBody Commands [k1; k2] entry entries =
      Ok (assign k1 (VObject (assign "subcommands" (VObject (assign k2 entry subs)) ps)) entries)
    /\ has_file (VObject ps) = false
    /\ lookup "subcommands" ps = Some (VObject subs)
    /\ Forall (fun kv => level2 (snd kv)) subs
    /\ (lookup k1 entries = None -> ps = [("subcommands", VObject [])] /\ subs = [])
    /\ (forall k,
          prop (prop (or_undefined (lookup k1 entries)) "subcommands") k =
          or_undefined (lookup k subs)).
Proof.
  intros Hinv Hfile.
  destruct (parent_without_file level2 entries k1 Hinv Hfile)
    as (ps & subs & Hp & Hf & Hs & Hall & Hnew & Hread).
  exists ps, subs. rewrite command_depth2. cbv zeta. rewrite Hfile, Hp.
  rewrite (set_in_object _ _ _ _ _ Hs). cbn [bind]. repeat split; trivial; now apply Hnew.
Qed.

(** Where the entry of a file three levels down ends up. *)
Lemma subcommand_group_placed k1 k2 k3 entry entries :
  commands_inv entries ->
  has_file (or_undefined (lookup k1 entries)) = false ->
  has_file (prop (prop (or_undefined (lookup k1 entries)) "subcommands") k2) = false ->
  exists ps subs ps2 subs2,
    predicateBody Commands [k1; k2; k3] entry entries =
      Ok (assign k1
            (VObject
               (assign "subcommands"
                  (VObject
                     (assign k2
                        (VObject (assign "subcommands" (VObject (assign k3 entry subs2)) ps2))
                        subs))
                  ps))
            entries)
    /\ has_file (VObject ps) = false
    /\ lookup "subcommands" ps = Some (VObject subs)
    /\ Forall (fun kv => level2 (snd kv)) subs
    /\ has_file (VObject ps2) = false
    /\ lookup "subcommands" ps2 = Some (VObject subs2)
    /\ Forall (fun kv => leaf (snd kv)) subs2
    /\ (lookup k1 entries = None -> ps = [("subcommands", VObject [])] /\ subs = [])
    /\ (lookup k2 subs = None -> ps2 = [("subcommands", VObject [])] /\ subs2 = [])
    /\ (forall k,
          prop (prop (or_undefined (lookup k1 entries)) "subcommands") k =
          or_undefined (lookup k subs)).
Proof.
  intros Hinv Hfile Hfile2.
  destruct (parent_without_file level2 entries k1 Hinv Hfile)
    as (ps & subs & Hp & Hf & Hs & Hall & Hnew & Hread).
  rewrite Hread in Hfile2.
  destruct (parent_without_file leaf subs k2 Hall Hfile2)
    as (ps2 & subs2 & Hp2 & Hf2 & Hs2 & Hall2 & Hnew2 & _).
  exists ps, subs, ps2, subs2. rewrite command_depth3. cbv zeta. rewrite Hfile, Hp.
  cbn [member prop bind]. rewrite Hs. cbn [or_undefined member prop bind].
  rewrite Hfile2, Hp2.
  rewrite (set_in_object _ _ _ _ _ Hs2). cbn [bind].
  rewrite (set_in_object _ _ _ _ _ Hs). cbn [bind].
  repeat split; trivial; try (now apply Hnew); now apply Hnew2.
Qed.



(* ------------------------------------------------------------------------- *)
(** ** A command file and subcommands never share an entry *)

(** Down to [depth] levels of [subcommands], no entry has a file and
    subcommands at once. *)
Fixpoint conflict_free (depth : nat) (v : Value) : Prop :=
  (has_file v = true -> own_props (prop v "subcommands") = [])
  /\ match depth with
     | O => True
     | S depth =>
         Forall (fun kv => conflict_free depth (snd kv)) (own_props (prop v "subcommands"))
     end.

Lemma leaf_conflict_free v : leaf v -> forall depth, conflict_free depth v.
Proof.
  intros (ps & -> & _ & Hsub) depth.
  assert (H : own_props (prop (VObject ps) "subcommands") = [])
    by (cbn [prop]; now rewrite Hsub).
  destruct depth; cbn [conflict_free]; rewrite H; split; trivial.
Qed.

Lemma group_conflict_free (inner : Value -> Prop) v :
  (forall x, inner x -> forall depth, conflict_free depth x) ->
  group inner v -> forall depth, conflict_free depth v.
Proof.
  intros Hinner (ps & subs & -> & Hfile & Hsub & Hall) depth.
  assert (H : own_props (prop (VObject ps) "subcommands") = subs)
    by (cbn [prop]; now rewrite Hsub).
  destruct depth; cbn [conflict_free]; rewrite H; (split; [congruence|]); trivial.
  rewrite Forall_forall in *. intros kv Hin. apply Hinner. now apply Hall.
Qed.

Lemma level2_conflict_free v : level2 v -> forall depth, conflict_free depth v.
Proof.
  intros [H|H]; [now apply leaf_conflict_free|].
  apply (group_conflict_free leaf); [apply leaf_conflict_free | exact H].
Qed.

Lemma level1_conflict_free v : level1 v -> forall depth, conflict_free depth v.
Proof.
  intros [H|H]; [now apply leaf_conflict_free|].
  apply (group_conflict_free level2); [apply level2_conflict_free | exact H].
Qed.

(** Every visit of a command file keeps the invariant. *)
Lemma commands_inv_step fileKeys entry entries entries' :
  leaf entry -> commands_inv entries ->
  predicateBody Commands fileKeys entry entries = Ok entries' ->
  commands_inv entries'.
Proof.
  intros Hleaf Hinv.
  destruct fileKeys as [|k1 [|k2 [|k3 [|k4 rest]]]].
  - rewrite predicateBody_commands. now intros [= <-].
  - rewrite command_depth1. intros [= <-]. apply Forall_assign; [exact Hinv | now left].
  - destruct (has_file (or_undefined (lookup k1 entries))) eqn:Hfile.
    + rewrite command_depth2. cbv zeta. rewrite Hfile. discriminate.
    + destruct (subcommand_placed k1 k2 entry entries Hinv Hfile)
        as (ps & subs & Hrun & Hf & Hs & Hall & _).
      rewrite Hrun. intros [= <-]. apply Forall_assign; [exact Hinv|]. cbn [snd].
      right. exists (assign "subcommands" (VObject (assign k2 entry subs)) ps),
                    (assign k2 entry subs).
      split; [reflexivity|]. split; [now rewrite has_file_assign|].
      split; [apply lookup_assign_same|].
      apply Forall_assign; [exact Hall | now left].
  - destruct (has_file (or_undefined (lookup k1 entries))) eqn:Hfile.
    + rewrite command_depth3. cbv zeta. rewrite Hfile. discriminate.
    + destruct (has_file (prop (prop (or_undefined (lookup k1 entries)) "subcommands") k2))
        eqn:Hfile2.
      * destruct (parent_without_file level2 entries k1 Hinv Hfile)
          as (ps & subs & Hp & Hf & Hs & Hall & Hnew & Hread).
        rewrite command_depth3. cbv zeta. rewrite Hfile, Hp.
        cbn [member prop bind]. rewrite Hs. cbn [or_undefined member prop bind].
        rewrite Hread in Hfile2. rewrite Hfile2. discriminate.
      * destruct (subcommand_group_placed k1 k2 k3 entry entries Hinv Hfile Hfile2)
          as (ps & subs & ps2 & subs2 & Hrun & Hf & Hs & Hall & Hf2 & Hs2 & Hall2 & _).
        rewrite Hrun. intros [= <-]. apply Forall_assign; [exact Hinv|]. cbn [snd].
        right. eexists _, _. split; [reflexivity|].
        split; [now rewrite has_file_assign|].
        split; [apply lookup_assign_same|].
        apply Forall_assign; [exact Hall|]. cbn [snd].
        right. eexists _, _. split; [reflexivity|].
        split; [now rewrite has_file_assign|].
        split; [apply lookup_assign_same|].
        apply Forall_assign; [exact Hall2 | exact Hleaf].
  - rewrite predicateBody_commands. now intros [= <-].
Qed.

Lemma foldM_invariant {A S} (I : S -> Prop) (body : A -> S -> Result S)
    (xs : list A) (s s' : S) :
  (forall x t t', In x xs -> I t -> body x t = Ok t' -> I t') ->
  I s -> foldM body xs s = Ok s' -> I s'.
Proof.
  revert s. induction xs as [|x xs IH]; intros s Hbody Hs H; simpl in H.
  - now injection H as <-.
  - inv_bind H. apply (IH x0); [| |exact H].
    + intros y t t' Hy. apply Hbody. now right.
    + apply (Hbody x s); [now left | exact Hs | exact E].
Qed.

(** A property of the scan state that every visit of a file keeps is kept by
    the scan, in either revision. *)
Lemma scanDir_invariant {S} (I : S -> Prop) (h : Host)
    (predicate : Manifest.ScanDirPredicate S) :
  (forall fileKeys fullPath moduleKeys t t',
     fullPath <> [] -> I t -> predicate fileKeys fullPath moduleKeys t = Ok t' -> I t') ->
  forall fuel options s s',
    I s -> Manifest.scanDir h fuel predicate options s = Ok s' -> I s'.
Proof.
  intros Hpred. induction fuel as [|fuel IH]; intros options s s' Hs H; [discriminate H|].
  cbn [Manifest.scanDir] in H.
  inv_bind H. inv_bind H. inv_bind H. destruct x1 as [files directories].
  inv_bind H. inv_bind H. inv_bind H.
  eapply foldM_invariant; [| |exact H].
  - intros module t t' _ Ht. apply IH. exact Ht.
  - eapply foldM_invariant; [| |exact E4].
    + intros childDir t t' _ Ht. apply IH. exact Ht.
    + eapply foldM_invariant; [| exact Hs | exact E3].
      intros file t t' _ Ht. apply Hpred; [|exact Ht].
      intros Hnil. now apply app_eq_nil in Hnil as [_ ?].
Qed.

Lemma legacy_scanDir_invariant {S} (I : S -> Prop) (h : Host)
    (directive : list string -> Path -> S -> Result S) :
  (forall fileKeys fullPath t t',
     fullPath <> [] -> I t -> directive fileKeys fullPath t = Ok t' -> I t') ->
  forall fuel options s s',
    I s -> Legacy.scanDir h fuel directive options s = Ok s' -> I s'.
Proof.
  intros Hpred. induction fuel as [|fuel IH]; intros options s s' Hs H; [discriminate H|].
  cbn [Legacy.scanDir] in H.
  inv_bind H. inv_bind H. destruct x0 as [files directories].
  inv_bind H. inv_bind H. inv_bind H.
  eapply foldM_invariant; [| |exact H].
  - intros module t t' _ Ht. apply IH. exact Ht.
  - eapply foldM_invariant; [| |exact E3].
    + intros childDir t t' _ Ht. apply IH. exact Ht.
    + eapply foldM_invariant; [| exact Hs | exact E2].
      intros file t t' _ Ht. apply Hpred; [|exact Ht].
      intros Hnil. now apply app_eq_nil in Hnil as [_ ?].
Qed.

Lemma generateEntries_commands_inv h fuel generatedKeys v :
  Manifest.generateEntries h fuel Commands generatedKeys = Ok v ->
  exists entries, v = VObject entries /\ commands_inv entries.
Proof.
  unfold Manifest.generateEntries, if_enoent.
  destruct (bind (member (loadConfig h) "experimental") _) as [r|e] eqn:E.
  - intros [= <-]. inv_bind E. inv_bind E. injection E as <-.
    eexists. split; [reflexivity|].
    eapply (scanDir_invariant commands_inv); [| |exact E1]; [|constructor].
    intros fileKeys fullPath moduleKeys t t' Hp Ht Hrun.
    unfold Manifest.predicate in Hrun. inv_bind Hrun.
    apply (commands_inv_step fileKeys x1 t t'); [|exact Ht|exact Hrun].
    apply (entry_of_file_leaf fullPath); [exact Hp|].
    now apply makeEntry_of_file in E.
  - destruct e; try discriminate.
    destruct (code =? "ENOENT"); [|discriminate].
    intros [= <-]. exists []. split; [reflexivity | constructor].
Qed.

Lemma legacy_generateEntries_commands_inv h fuel generatedKeys v :
  Legacy.generateEntries h fuel Commands generatedKeys = Ok v ->
  exists entries, v = VObject entries /\ commands_inv entries.
Proof.
  unfold Legacy.generateEntries, if_enoent.
  destruct (bind (Legacy.scanDir _ _ _ _ _) _) as [r|e] eqn:E.
  - intros [= <-]. inv_bind E. injection E as <-.
    eexists. split; [reflexivity|].
    eapply (legacy_scanDir_invariant commands_inv); [| |exact E0]; [|constructor].
    intros fileKeys fullPath t t' Hp Ht Hrun.
    rewrite legacy_directive_commands in Hrun. inv_bind Hrun.
    apply (commands_inv_step fileKeys x0 t t'); [|exact Ht|exact Hrun].
    apply (entry_of_file_leaf fullPath); [exact Hp|].
    now apply legacy_makeEntry_of_file in E.
  - destruct e; try discriminate.
    destruct (code =? "ENOENT"); [|discriminate].
    intros [= <-]. exists []. split; [reflexivity | constructor].
Qed.

(** The commands of a manifest, none of which has a file and subcommands. *)
Definition commands_conflict_free (manifestCommands : Value) : Prop :=
  forall depth, Forall (fun kv => conflict_free depth (snd kv)) (own_props manifestCommands).

Lemma Forall_spread (P : string * Value -> Prop) (acc : Props) (src : Value) :
  Forall P acc -> Forall P (own_props src) -> Forall P (spread acc src).
Proof.
  intros Hacc Hsrc. rewrite Forall_forall in *. intros kv Hin.
  unfold spread in Hin. apply In_fold_assign in Hin. destruct Hin; auto.
Qed.

Lemma commands_conflict_free_literal (a b : Value) :
  commands_conflict_free a -> commands_conflict_free b ->
  commands_conflict_free (literal [a; b]).
Proof.
  intros Ha Hb depth. unfold literal. cbn [own_props fold_left].
  apply Forall_spread; [apply Forall_spread; [constructor | apply Ha] | apply Hb].
Qed.

Lemma commands_conflict_free_sorted cmp (o : Value) :
  commands_conflict_free o -> commands_conflict_free (sort_entries cmp o).
Proof.
  intros Ho depth. specialize (Ho depth). rewrite Forall_forall in *.
  intros kv Hin. apply Ho. now apply In_sort_entries in Hin.
Qed.

Lemma commands_inv_conflict_free entries :
  commands_inv entries -> commands_conflict_free (VObject entries).
Proof.
  intros Hinv depth. cbn [own_props]. unfold commands_inv in Hinv.
  rewrite Forall_forall in *. intros kv Hin. apply level1_conflict_free. now apply Hinv.
Qed.

Lemma conflict_free_assign depth field x ps :
  field <> "__path" -> field <> "subcommands" ->
  conflict_free depth (VObject ps) -> conflict_free depth (VObject (assign field x ps)).
Proof.
  intros H1 H2 H.
  assert (Hs : prop (VObject (assign field x ps)) "subcommands" = prop (VObject ps) "subcommands")
    by (cbn [prop]; now rewrite lookup_assign_other).
  destruct depth; cbn [conflict_free] in *; rewrite Hs, has_file_assign by exact H1; exact H.
Qed.

(** The plugin manifests a host can load have conflict-free commands: what
    this very program emits, by the theorem below. *)
Definition plugins_conflict_free (h : Host) : Prop :=
  (forall basePath name manifest,
     useManifest h basePath name = Ok manifest ->
     commands_conflict_free (prop manifest "commands"))
  /\ (forall content manifest,
        JSON_parse h content = Ok manifest ->
        commands_conflict_free (prop manifest "commands")).

Lemma prop_literal2_written (a : Value) (w : Props) (k : string) (v : Value) :
  lookup k (rev w) = Some v -> prop (literal [a; VObject w]) k = v.
Proof.
  intros H. unfold literal. cbn [fold_left prop]. unfold spread at 1. cbn [own_props].
  now rewrite lookup_fold_assign, H.
Qed.

Lemma readPluginManifest_commands h plugins pluginsManifest :
  plugins_conflict_free h ->
  Manifest.readPluginManifest h plugins = Ok pluginsManifest ->
  commands_conflict_free (prop pluginsManifest "commands").
Proof.
  intros [Hplugins _]. unfold Manifest.readPluginManifest.
  assert (Hbase : commands_conflict_free (prop (Manifest.BASE_MANIFEST h) "commands"))
    by (intros depth; constructor).
  destruct (negb (has_length plugins)); [now intros [= <-]|].
  intros H. inv_bind H.
  eapply (foldM_invariant (fun pm => commands_conflict_free (prop pm "commands")));
    [|exact Hbase|exact H].
  intros plugin pm pm' _ Hpm Hstep. unfold Manifest.foldPlugin in Hstep.
  inv_bind Hstep. destruct (findPackagePath h _) as [packagePath|];
    [|now injection Hstep as <-].
  do 9 inv_bind Hstep. injection Hstep as <-.
  erewrite prop_literal2_written by reflexivity.
  apply commands_conflict_free_literal; [exact Hpm|].
  eapply Hplugins. eassumption.
Qed.

Lemma legacy_loadManifest_commands h name basePath manifest :
  plugins_conflict_free h ->
  Legacy.loadManifest h name basePath = Ok manifest ->
  commands_conflict_free (prop manifest "commands").
Proof.
  intros [_ Hparse]. unfold Legacy.loadManifest, if_enoent.
  assert (Hbase : commands_conflict_free (prop Legacy.BASE_MANIFEST "commands"))
    by (intros depth; constructor).
  match goal with |- match ?c with _ => _ end = _ -> _ => destruct c as [r|e] eqn:E end.
  2:{ destruct e; try discriminate. destruct (code =? "ENOENT"); [|discriminate].
      now intros [= <-]. }
  intros [= <-]. inv_bind E.
  destruct (Legacy.is_blank x); [now injection E as <-|].
  inv_bind E. pose proof (Hparse _ _ E1) as Hx0.
  destruct (truthy name && negb (basePath =? "")); [|now injection E as <-].
  inv_bind E. inv_bind E. inv_bind E. inv_bind E. inv_bind E.
  assert (Hx2 : commands_conflict_free x2).
  { assert (Hx1 : commands_conflict_free x1).
    { destruct x0; try discriminate; injection E2 as <-; exact Hx0. }
    assert (Hfold : exists keys,
               foldM (fun key manifestCommands =>
                        command <- member manifestCommands key ;;
                        command <- set_member command "__auto" (VBool true) ;;
                        command <- set_member command "__plugin"
                                     (VObject [("name", name); ("path", VString basePath)]) ;;
                        set_member manifestCommands key command) keys x1 = Ok x2).
    { destruct x1; try discriminate; eexists; exact E3. }
    destruct Hfold as (keys & Hfold).
    eapply (foldM_invariant commands_conflict_free); [|exact Hx1|exact Hfold].
    clear. intros key mc mc' _ Hmc Hstep. cbv beta in Hstep.
    inv_bind Hstep. inv_bind Hstep. inv_bind Hstep.
    destruct mc as [| | | | | | |ps]; try discriminate. injection Hstep as <-.
    destruct x as [| | | | | | |cps]; try discriminate. injection E0 as <-.
    cbn [set_member] in E1. injection E1 as <-.
    cbn [member prop] in E. injection E as E.
    intros depth. cbn [own_props]. apply Forall_assign; [apply Hmc|]. cbn [snd].
    apply conflict_free_assign; [discriminate | discriminate |].
    apply conflict_free_assign; [discriminate | discriminate |].
    destruct (lookup key ps) as [c|] eqn:El; [|discriminate E].
    cbn [or_undefined] in E. subst c.
    exact (Forall_lookup _ _ _ _ (Hmc depth) El). }
  destruct x0 as [| | | | | | |mps]; try discriminate.
  cbn [set_member] in E4. injection E4 as <-.
  cbn [set_member] in E. injection E as <-.
  cbn [prop]. rewrite lookup_assign_other by discriminate.
  now rewrite lookup_assign_same.
Qed.

Lemma legacy_readPluginManifest_commands h plugins pluginsManifest :
  plugins_conflict_free h ->
  Legacy.readPluginManifest h plugins = Ok pluginsManifest ->
  commands_conflict_free (prop pluginsManifest "commands").
Proof.
  intros Hplugins. unfold Legacy.readPluginManifest.
  assert (Hbase : commands_conflict_free (prop Legacy.BASE_MANIFEST "commands"))
    by (intros depth; constructor).
  destruct (negb (has_length plugins)); [now intros [= <-]|].
  intros H. inv_bind H.
  eapply (foldM_invariant (fun pm => commands_conflict_free (prop pm "commands")));
    [|exact Hbase|exact H].
  intros plugin pm pm' _ Hpm Hstep. unfold Legacy.foldPlugin in Hstep.
  do 7 inv_bind Hstep. injection Hstep as <-.
  erewrite prop_literal2_written by reflexivity.
  apply commands_conflict_free_literal; [exact Hpm|].
  eapply legacy_loadManifest_commands; eassumption.
Qed.

(** The commands of a composed manifest: the plugin commands overridden by the
    scanned ones, in sorted order. *)
Lemma commands_of_composed h now type g m :
  Manifest.compose h now type g = Ok m ->
  prop m "commands" =
  sort_entries (localeCompare h)
    (literal [prop (Manifest.pluginsManifest g) "commands"; Manifest.commands g]).
Proof.
  intros H. apply compose_inv in H.
  destruct H as (redacted & seed & me & pmw & perms & scopes & _ & _ & _ & _ & _ & _ & ->).
  unfold prop, settled. cbn [fold_left].
  rewrite !lookup_sorted_at. cbn [String.eqb Ascii.eqb Bool.eqb or_undefined].
  rewrite !lookup_assign. cbn [String.eqb Ascii.eqb Bool.eqb].
  erewrite lookup_literalProps_written; reflexivity.
Qed.

Lemma legacy_commands_of_composed h now type g m :
  Legacy.compose h now type g = Ok m ->
  prop m "commands" =
  sort_entries (localeCompare h)
    (literal [prop (Legacy.pluginsManifest g) "commands"; Legacy.commands g]).
Proof.
  intros H. apply legacy_compose_inv in H.
  destruct H as (redacted & me & perms & scopes & _ & _ & _ & _ & ->).
  unfold prop, settled. cbn [fold_left].
  rewrite !lookup_sorted_at. cbn [String.eqb Ascii.eqb Bool.eqb or_undefined].
  rewrite !lookup_assign. cbn [String.eqb Ascii.eqb Bool.eqb].
  erewrite lookup_literalProps_written; reflexivity.
Qed.

Lemma emitted_commands_conflict_free h now fuel defaults type m disk :
  plugins_conflict_free h ->
  Manifest.generateManifest h now fuel defaults type = Ok (m, disk) ->
  commands_conflict_free (prop m "commands").
Proof.
  intros Hplugins H. apply generateManifest_inv in H. destruct H as (g & Hg & Hc & _).
  rewrite (commands_of_composed _ _ _ _ _ Hc).
  apply commands_conflict_free_sorted, commands_conflict_free_literal.
  - unfold Manifest.gather in Hg. do 6 inv_bind Hg. injection Hg as <-.
    cbn [Manifest.pluginsManifest].
    destruct (type =? "plugin").
    + injection E as <-. intros depth. constructor.
    + now apply (readPluginManifest_commands h _ _ Hplugins) in E.
  - unfold Manifest.gather in Hg. do 6 inv_bind Hg. injection Hg as <-.
    cbn [Manifest.commands].
    apply generateEntries_commands_inv in E1. destruct E1 as (entries & -> & Hinv).
    now apply commands_inv_conflict_free.
Qed.

Lemma legacy_emitted_commands_conflict_free h now fuel defaults type m disk :
  plugins_conflict_free h ->
  Legacy.generateManifest h now fuel defaults type = Ok (m, disk) ->
  commands_conflict_free (prop m "commands").
Proof.
  intros Hplugins H. apply legacy_generateManifest_inv in H.
  destruct H as (g & Hg & Hc & _).
  rewrite (legacy_commands_of_composed _ _ _ _ _ Hc).
  apply commands_conflict_free_sorted, commands_conflict_free_literal.
  - unfold Legacy.gather in Hg. do 3 inv_bind Hg. injection Hg as <-.
    cbn [Legacy.pluginsManifest].
    destruct (type =? "plugin").
    + injection E as <-. intros depth. constructor.
    + now apply (legacy_readPluginManifest_commands h _ _ Hplugins) in E.
  - unfold Legacy.gather in Hg. do 3 inv_bind Hg. injection Hg as <-.
    cbn [Legacy.commands].
    apply legacy_generateEntries_commands_inv in E0. destruct E0 as (entries & -> & Hinv).
    now apply commands_inv_conflict_free.
Qed.

Lemma receiver_of_file (v : Value) (k : string) :
  has_file (prop v k) = true -> truthy v = true /\ member v k = Ok (prop v k).
Proof.
  destruct v; intros H; try (cbn in H; discriminate H); split; reflexivity.
Qed.

(** C9.  A nested command file visited under a parent that carries a file
    ends the process with exit code 1, whether the file is the top-level
    command or the would-be subcommand group.  Every set of command entries
    that a scan does return, and every manifest that is emitted from it and
    from plugin manifests of the same kind, has no entry with both a file and
    subcommands, at any depth; this holds in both revisions. *)
Theorem command_file_excludes_subcommands :
  (forall (entries : Props) (entry : Value) (k1 k2 k3 : string),
     let parent := or_undefined (lookup k1 entries) in
     (has_file parent = true ->
      predicateBody Commands [k1; k2] entry entries = Err (ProcessExit 1)
      /\ predicateBody Commands [k1; k2; k3] entry entries = Err (ProcessExit 1))
     /\ (has_file parent = false ->
         has_file (prop (prop parent "subcommands") k2) = true ->
         predicateBody Commands [k1; k2; k3] entry entries = Err (ProcessExit 1)))
  /\ (forall h fuel generatedKeys v,
        Manifest.generateEntries h fuel Commands generatedKeys = Ok v ->
        commands_conflict_free v)
  /\ (forall h fuel generatedKeys v,
        Legacy.generateEntries h fuel Commands generatedKeys = Ok v ->
        commands_conflict_free v)
  /\ (forall h now fuel defaults type m disk,
        plugins_conflict_free h ->
        Manifest.generateManifest h now fuel defaults type = Ok (m, disk) ->
        commands_conflict_free (prop m "commands"))
  /\ (forall h now fuel defaults type m disk,
        plugins_conflict_free h ->
        Legacy.generateManifest h now fuel defaults type = Ok (m, disk) ->
        commands_conflict_free (prop m "commands")).
Proof.
  split; [|split; [|split; [|split]]].
  - intros entries entry k1 k2 k3 parent. subst parent. split.
    + intros Hfile. rewrite command_depth2, command_depth3. cbv zeta.
      rewrite Hfile. split; reflexivity.
    + intros Hfile Hfile2. rewrite command_depth3. cbv zeta. rewrite Hfile.
      destruct (receiver_of_file _ _ Hfile2) as [Hsubs Hmember2].
      assert (Htruthy : truthy (or_undefined (lookup k1 entries)) = true
                        /\ member (or_undefined (lookup k1 entries)) "subcommands"
                           = Ok (prop (or_undefined (lookup k1 entries)) "subcommands")).
      { destruct (or_undefined (lookup k1 entries));
          try (cbn in Hsubs; discriminate Hsubs); split; reflexivity. }
      destruct Htruthy as [-> ->]. cbn [bind]. rewrite Hmember2. cbn [bind].
      now rewrite Hfile2.
  - intros h fuel generatedKeys v H.
    apply generateEntries_commands_inv in H. destruct H as (entries & -> & Hinv).
    now apply commands_inv_conflict_free.
  - intros h fuel generatedKeys v H.
    apply legacy_generateEntries_commands_inv in H. destruct H as (entries & -> & Hinv).
    now apply commands_inv_conflict_free.
  - intros h now fuel defaults type m disk. apply emitted_commands_conflict_free.
  - intros h now fuel defaults type m disk. apply legacy_emitted_commands_conflict_free.
Qed.

Lemma command_file_excludes_subcommands_witness :
  predicateBody Commands ["ping"; "again"] (VObject [("__path", VString "/ping/again.js")])
    [("ping", VObject [("__path", VString "/ping.js")])]
  = Err (ProcessExit 1)
  /\ commands_conflict_free
       (VObject
          [ ("ping", VObject [ ("__auto", VUndefined); ("__module", VUndefined);
                               ("__path", VString "/.robo/build/commands/ping.js") ]);
            ("ban", VObject [("subcommands",
               VObject [("user", VObject [ ("__auto", VUndefined); ("__module", VUndefined);
                          ("__path", VString "/.robo/build/commands/ban/user.js") ])])]);
            ("settings", VObject [("subcommands",
               VObject [("update", VObject [("subcommands",
                  VObject [("something", VObject [ ("__auto", VUndefined);
                     ("__module", VUndefined);
                     ("__path",
                      VString "/.robo/build/commands/settings/update/something.js") ])])])])]) ]).
Proof.
  destruct command_file_excludes_subcommands as (Hexit & Hscan & _).
  split.
  - exact (proj1 (proj1 (Hexit [("ping", VObject [("__path", VString "/ping.js")])]
                          (VObject [("__path", VString "/ping/again.js")])
                          "ping" "again" "x") eq_refl)).
  - apply (Hscan Runs.threeLevels 4 []). vm_compute. reflexivity.
Defined.

(* ------------------------------------------------------------------------- *)
(** ** The one file that a run writes *)









(* ------------------------------------------------------------------------- *)
(** ** Scanning terminates, and what it visits *)

(** The number of directory levels below and including a node. *)
Fixpoint depth (n : Node) : nat :=
  match n with
  | Dir children =>
      S ((fix deepest (l : list (string * Node)) : nat :=
            match l with
            | [] => 0
            | (_, child) :: rest => Nat.max (depth child) (deepest rest)
            end) children)
  | _ => 0
  end.








Lemma foldM_app {A S} (body : A -> S -> Result S) (xs ys : list A) (s : S) :
  foldM body (xs ++ ys) s = (t <- foldM body xs s ;; foldM body ys t).
Proof.
  revert s. induction xs as [|x xs IH]; intros s; simpl; [reflexivity|].
  destruct (body x s); [apply IH | reflexivity].
Qed.

Lemma foldM_map {A B S} (f : A -> B) (body : B -> S -> Result S) (xs : list A) (s : S) :
  foldM body (map f xs) s = foldM (fun x => body (f x)) xs s.
Proof.
  revert s. induction xs as [|x xs IH]; intros s; simpl; [reflexivity|].
  destruct (body (f x) s); [apply IH | reflexivity].
Qed.

Section Scanning.

Variable h : Host.


Lemma resolve_error (root : Node) (p : Path) (e : Error) :
  resolve root p = Err e -> e = FsError "ENOENT" \/ e = FsError "ENOTDIR".
Proof.
  revert root. induction p as [|c rest IH]; intros root H; simpl in H; [discriminate H|].
  destruct root as [| |children]; try (injection H as <-; now right).
  destruct (lookup c children) as [child|]; [now apply (IH child)|].
  injection H as <-. now left.
Qed.

Lemma unless_missing_resolve {A} (root : Node) (p : Path) (e : Error) (otherwise : A) :
  resolve root p = Err e -> unless_missing (Err e) otherwise = Ok otherwise.
Proof. intros H. apply resolve_error in H. destruct H as [->| ->]; reflexivity. Qed.

(** A module directory is scanned when its name carries no mode, or the
    active one. *)
Definition mode_ok (module : string) : bool :=
  (Manifest.moduleMode h module =? "") || Mode_is h (Manifest.moduleMode h module).


(** The stages of one call of [scanDir]. *)
Lemma scanDir_run {S} (predicate : Manifest.ScanDirPredicate S) (fuel : nat)
    (options : Manifest.ScanDirOptions) (s s' : S) :
  Manifest.scanDir h (Datatypes.S fuel) predicate options s = Ok s' ->
  exists directoryPath directory files directories modules s1 s2,
    (match Manifest.recursionPath options with
     | Some p => Ok p
     | None => Manifest.startDirectory (Manifest.buildDirectory options) (Manifest.type options)
     end) = Ok directoryPath
    /\ if_enoent (readdir (tree h) directoryPath) (Ok []) = Ok directory
    /\ Manifest.classify h directoryPath directory = Ok (files, directories)
    /\ (if Manifest.withModules options
        then Manifest.findModules h (Manifest.recursionPath options) (Manifest.type options)
        else Ok []) = Ok modules
    /\ foldM (Manifest.visitFile predicate options directoryPath) files s = Ok s1
    /\ foldM (fun childDir =>
                Manifest.scanDir h fuel predicate
                  (Manifest.childOptions options directoryPath childDir))
             directories s1 = Ok s2
    /\ foldM (fun module =>
                Manifest.scanDir h fuel predicate (Manifest.moduleOptions options module))
             modules s2 = Ok s'.
Proof.
  intros H. cbn [Manifest.scanDir] in H.
  inv_bind H. inv_bind H. inv_bind H. destruct x1 as [files directories].
  inv_bind H. inv_bind H. inv_bind H.
  exists x, x0, files, directories, x1, x2, x3. repeat split; assumption.
Qed.




(** The predicate applied to a recorded visit. *)
Definition replay {S} (predicate : Manifest.ScanDirPredicate S) (visit : Runs.Visit)
    : S -> Result S :=
  predicate (fst (fst visit)) (snd (fst visit)) (snd visit).

Definition visitOf (options : Manifest.ScanDirOptions) (directoryPath : Path)
    (file : string) : Runs.Visit :=
  (Manifest.keysOf options ++ [basename file], directoryPath ++ [file],
   Manifest.moduleKeysOf options).

Lemma record_files (options : Manifest.ScanDirOptions) (directoryPath : Path)
    (files : list string) (visits : list Runs.Visit) :
  foldM (Manifest.visitFile Runs.record options directoryPath) files visits =
  Ok (visits ++ map (visitOf options directoryPath) files).
Proof.
  revert visits. induction files as [|file files IH]; intros visits; simpl.
  - now rewrite app_nil_r.
  - rewrite IH, <- app_assoc. reflexivity.
Qed.

(** What a scan records is a list of visits that does not depend on the
    state, and any predicate scanned with is that predicate folded over it. *)
Definition traced (fuel : nat) (options : Manifest.ScanDirOptions)
    (trace : list Runs.Visit) : Prop :=
  (forall visits, Manifest.scanDir h fuel Runs.record options visits = Ok (visits ++ trace))
  /\ (forall (S : Type) (predicate : Manifest.ScanDirPredicate S) (s : S),
        Manifest.scanDir h fuel predicate options s = foldM (replay predicate) trace s).

Lemma traced_fold (fuel : nat) {A} (mk : A -> Manifest.ScanDirOptions) :
  (forall options visits0 visits,
     Manifest.scanDir h fuel Runs.record options visits0 = Ok visits ->
     exists trace, visits = visits0 ++ trace /\ traced fuel options trace) ->
  forall (xs : list A) (visits0 visits : list Runs.Visit),
    foldM (fun x => Manifest.scanDir h fuel Runs.record (mk x)) xs visits0 = Ok visits ->
    exists trace,
      visits = visits0 ++ trace
      /\ (forall v, foldM (fun x => Manifest.scanDir h fuel Runs.record (mk x)) xs v
                    = Ok (v ++ trace))
      /\ (forall (S : Type) (predicate : Manifest.ScanDirPredicate S) (s : S),
            foldM (fun x => Manifest.scanDir h fuel predicate (mk x)) xs s
            = foldM (replay predicate) trace s).
Proof.
  intros IH. induction xs as [|x xs IHxs]; intros visits0 visits H; simpl in H.
  - injection H as <-. exists []. rewrite app_nil_r. split; [reflexivity|].
    split; [intros v; simpl; now rewrite app_nil_r | reflexivity].
  - inv_bind H. destruct (IH _ _ _ E) as (t1 & -> & Hrec1 & Hany1).
    destruct (IHxs _ _ H) as (t2 & -> & Hrec2 & Hany2).
    exists (t1 ++ t2). split; [now rewrite app_assoc|]. split.
    + intros v. simpl. rewrite Hrec1. cbn [bind]. rewrite Hrec2. now rewrite app_assoc.
    + intros S predicate s. simpl. rewrite Hany1, foldM_app.
      destruct (foldM (replay predicate) t1 s); [apply Hany2 | reflexivity].
Qed.

Lemma scanDir_traced (fuel : nat) :
  forall options visits0 visits,
    Manifest.scanDir h fuel Runs.record options visits0 = Ok visits ->
    exists trace, visits = visits0 ++ trace /\ traced fuel options trace.
Proof.
  induction fuel as [|fuel IH]; intros options visits0 visits H; [discriminate H|].
  destruct (scanDir_run _ _ _ _ _ H)
    as (dp & directory & files & directories & modules & s1 & s2
        & Hdp & Hdir & Hclass & Hmods & Hfiles & Hdirs & Hmodules).
  rewrite record_files in Hfiles. injection Hfiles as <-.
  destruct (traced_fold fuel (Manifest.childOptions options dp) IH _ _ _ Hdirs)
    as (t2 & -> & Hrec2 & Hany2).
  destruct (traced_fold fuel (Manifest.moduleOptions options) IH _ _ _ Hmodules)
    as (t3 & -> & Hrec3 & Hany3).
  exists (map (visitOf options dp) files ++ t2 ++ t3).
  split; [now rewrite <- !app_assoc|]. split.
  - intros v. cbn [Manifest.scanDir]. rewrite Hdp. cbn [bind]. rewrite Hdir. cbn [bind].
    rewrite Hclass. cbn [bind]. rewrite Hmods. cbn [bind].
    rewrite record_files. cbn [bind]. rewrite Hrec2. cbn [bind]. rewrite Hrec3.
    now rewrite <- !app_assoc.
  - intros S predicate s. cbn [Manifest.scanDir]. rewrite Hdp. cbn [bind].
    rewrite Hdir. cbn [bind]. rewrite Hclass. cbn [bind]. rewrite Hmods. cbn [bind].
    rewrite !foldM_app, foldM_map.
    change (fun x : string => replay predicate (visitOf options dp x))
      with (Manifest.visitFile predicate options dp).
    destruct (foldM (Manifest.visitFile predicate options dp) files s) as [u1|];
      [|reflexivity].
    cbn [bind]. rewrite Hany2, foldM_app.
    destruct (foldM (replay predicate) t2 u1) as [u2|]; [|reflexivity].
    cbn [bind]. apply Hany3.
Qed.




End Scanning.






(* ------------------------------------------------------------------------- *)
(** ** When a value can be serialized *)

Lemma Value_induction (P : Value -> Prop) :
  P VUndefined -> P VNull -> (forall b, P (VBool b)) -> (forall n, P (VNumber n)) ->
  (forall n, P (VBigInt n)) -> (forall s, P (VString s)) ->
  (forall elems, Forall P elems -> P (VArray elems)) ->
  (forall props, Forall (fun kv => P (snd kv)) props -> P (VObject props)) ->
  forall v, P v.
Proof.
  intros Hu Hn Hb Hnum Hbig Hs Harr Hobj.
  refine (fix IH (v : Value) : P v :=
            match v with
            | VUndefined => Hu
            | VNull => Hn
            | VBool b => Hb b
            | VNumber n => Hnum n
            | VBigInt n => Hbig n
            | VString s => Hs s
            | VArray elems =>
                Harr elems
                  ((fix all (l : list Value) : Forall P l :=
                      match l with
                      | [] => Forall_nil P
                      | x :: rest => Forall_cons x (IH x) (all rest)
                      end) elems)
            | VObject props =>
                Hobj props
                  ((fix all (l : list (string * Value)) : Forall (fun kv => P (snd kv)) l :=
                      match l with
                      | [] => Forall_nil _
                      | kv :: rest => Forall_cons kv (IH (snd kv)) (all rest)
                      end) props)
            end).
Qed.

(** No bigint outside the reach of [jsonReplacer]. *)
Fixpoint serializable (replacer : bool) (key : string) (value : Value) : bool :=
  match value with
  | VBigInt _ => replacer && (key =? "defaultMemberPermissions")
  | VArray elems =>
      (fix each (i : nat) (l : list Value) : bool :=
         match l with
         | [] => true
         | x :: rest => serializable replacer (nat_to_string i) x && each (S i) rest
         end) 0%nat elems
  | VObject props =>
      forallb (fun kv => serializable replacer (fst kv) (snd kv)) props
  | _ => true
  end.

(** [serialize] gives a text for a serializable value and throws a
    [TypeError] for any other, whatever the indentation. *)
Lemma serialize_outcome (value : Value) :
  forall replacer indent key,
    (serializable replacer key value = true
     /\ exists text, serialize replacer indent key value = Ok text)
    \/ (serializable replacer key value = false
        /\ serialize replacer indent key value = Err TypeError).
Proof.
  induction value as [| | b | n | n | s | elems IH | props IH] using Value_induction;
    intros replacer indent key; try (left; split; [reflexivity | eexists; reflexivity]).
  - cbn [serializable serialize]. unfold jsonReplacer.
    destruct replacer; cbn [andb]; [|now right].
    destruct (key =? "defaultMemberPermissions");
      [left; split; [reflexivity | eexists; reflexivity] | now right].
  - cbn [serializable serialize].
    assert (H : forall i,
              ((fix each (i : nat) (l : list Value) : bool :=
                  match l with
                  | [] => true
                  | x :: rest => serializable replacer (nat_to_string i) x && each (S i) rest
                  end) i elems = true
               /\ exists parts,
                   (fix each (i : nat) (l : list Value) : Result (list string) :=
                      match l with
                      | [] => Ok []
                      | x :: rest =>
                          sx <- serialize replacer (indent ++ "  ") (nat_to_string i) x ;;
                          srest <- each (S i) rest ;;
                          Ok (match sx with Some t => t | None => "null" end :: srest)
                      end) i elems = Ok parts)
              \/ ((fix each (i : nat) (l : list Value) : bool :=
                     match l with
                     | [] => true
                     | x :: rest => serializable replacer (nat_to_string i) x && each (S i) rest
                     end) i elems = false
                  /\ (fix each (i : nat) (l : list Value) : Result (list string) :=
                        match l with
                        | [] => Ok []
                        | x :: rest =>
                            sx <- serialize replacer (indent ++ "  ") (nat_to_string i) x ;;
                            srest <- each (S i) rest ;;
                            Ok (match sx with Some t => t | None => "null" end :: srest)
                        end) i elems = Err TypeError)).
    { induction IH as [|x rest Hx _ IHrest]; intros i.
      - left. split; [reflexivity | now eexists].
      - destruct (Hx replacer (indent ++ "  ")%string (nat_to_string i))
          as [[-> (t & ->)]|[-> ->]]; [|now right].
        cbn [andb bind].
        destruct (IHrest (S i)) as [[-> (parts & ->)]|[-> ->]]; [|now right].
        left. split; [reflexivity | now eexists]. }
    destruct (H 0%nat) as [[-> (parts & ->)]|[-> ->]]; [|now right].
    left. split; [reflexivity | now eexists].
  - cbn [serializable serialize].
    assert (H : (forallb (fun kv => serializable replacer (fst kv) (snd kv)) props = true
                 /\ exists parts,
                     (fix each (l : list (string * Value)) : Result (list string) :=
                        match l with
                        | [] => Ok []
                        | (k, x) :: rest =>
                            sx <- serialize replacer (indent ++ "  ") k x ;;
                            srest <- each rest ;;
                            Ok (match sx with
                                | Some t => (quote k ++ ": " ++ t)%string :: srest
                                | None => srest
                                end)
                        end) props = Ok parts)
                \/ (forallb (fun kv => serializable replacer (fst kv) (snd kv)) props = false
                    /\ (fix each (l : list (string * Value)) : Result (list string) :=
                          match l with
                          | [] => Ok []
                          | (k, x) :: rest =>
                              sx <- serialize replacer (indent ++ "  ") k x ;;
                              srest <- each rest ;;
                              Ok (match sx with
                                  | Some t => (quote k ++ ": " ++ t)%string :: srest
                                  | None => srest
                                  end)
                          end) props = Err TypeError)).
    { induction IH as [|[k x] rest Hx _ IHrest].
      - left. split; [reflexivity | now eexists].
      - cbn [forallb fst snd]. cbn [snd] in Hx.
        destruct (Hx replacer (indent ++ "  ")%string k) as [[-> (t & ->)]|[-> ->]];
          [|now right].
        cbn [andb bind].
        destruct IHrest as [[-> (parts & ->)]|[-> ->]]; [|now right].
        left. split; [reflexivity | now eexists]. }
    destruct H as [[-> (parts & ->)]|[-> ->]]; [|now right].
    left. split; [reflexivity | now eexists].
Qed.

Lemma JSON_stringify_outcome (replacer : bool) (value : Value) :
  (serializable replacer "" value = true
   /\ exists text, JSON_stringify replacer value = Ok text)
  \/ (serializable replacer "" value = false
      /\ JSON_stringify replacer value = Err TypeError).
Proof.
  unfold JSON_stringify.
  destruct (serialize_outcome value replacer "" "") as [[-> (t & ->)]|[-> ->]];
    [left; split; [reflexivity | now eexists] | now right].
Qed.

Lemma forallb_assign {V} (test : string * V -> bool) (k : string) (v v0 : V)
    (ps : list (string * V)) :
  lookup k ps = Some v0 -> test (k, v) = test (k, v0) ->
  forallb test (assign k v ps) = forallb test ps.
Proof.
  intros Hl Ht. induction ps as [|[k' v'] ps IH]; simpl in *; [discriminate|].
  destruct (k' =? k) eqn:E.
  - apply String.eqb_eq in E. subst k'. injection Hl as ->. simpl. now rewrite Ht.
  - simpl. now rewrite IH.
Qed.

(* ------------------------------------------------------------------------- *)
(** ** Two runs at different times *)







Lemma lookup_settled_other cmp (sortedKeys : list string) (permissions scopes : list Value)
    (Q : Props) (k : string) :
  ~ In k sortedKeys -> k <> "permissions" -> k <> "scopes" ->
  lookup k (settled cmp sortedKeys permissions scopes Q) = lookup k Q.
Proof.
  intros Hkeys Hp Hs. unfold settled.
  transitivity (lookup k (assign "scopes" (VArray scopes)
                            (assign "permissions" (VArray permissions) Q))).
  - generalize (assign "scopes" (VArray scopes)
                  (assign "permissions" (VArray permissions) Q)).
    induction sortedKeys as [|k' ks IH]; intros X; simpl; [reflexivity|].
    rewrite IH by (intros H; apply Hkeys; now right).
    rewrite lookup_sorted_at.
    destruct (k' =? k) eqn:E; [|reflexivity].
    apply String.eqb_eq in E. exfalso. apply Hkeys. now left.
  - rewrite !lookup_assign_other by congruence. reflexivity.
Qed.















(* ------------------------------------------------------------------------- *)
(** * Further properties of the code

    What follows covers the functions around those above: the helpers of the
    two manifest revisions, the walk of a directory, the entries made of it,
    the reading of a plugin's manifest, and the avatar and display name helpers
    of the activity.  As everywhere in this development a property read is a
    read of an own property: a name inherited from [Object.prototype], such as
    [constructor] or [toString], is taken as any other absent key. *)

(** ** Sorting with a consistent comparator *)

(** [a] may stand before [b]. *)
Definition le_by {A} (cmp : A -> A -> comparison) (a b : A) : Prop := cmp a b <> Gt.

(** What [Array.prototype.sort] asks of its comparator, as far as the order of
    the result goes. *)
Definition consistent {A} (cmp : A -> A -> comparison) : Prop :=
  (forall a b, cmp a b = Gt -> cmp b a <> Gt)
  /\ (forall a b c, cmp a b <> Gt -> cmp b c <> Gt -> cmp a c <> Gt).

Lemma insert_sorted_sorted {A} (cmp : A -> A -> comparison) (x : A) (l : list A) :
  consistent cmp ->
  StronglySorted (le_by cmp) l -> StronglySorted (le_by cmp) (insert_sorted cmp x l).
Proof.
  intros [Htotal Htrans] Hl. induction Hl as [|y rest Hrest IH Hy]; simpl.
  - constructor; constructor.
  - destruct (cmp x y) eqn:Exy.
    + constructor; [now constructor|]. constructor; [unfold le_by; congruence|].
      eapply Forall_impl; [|exact Hy]. intros z Hz. apply (Htrans x y z); [congruence|exact Hz].
    + constructor; [now constructor|]. constructor; [unfold le_by; congruence|].
      eapply Forall_impl; [|exact Hy]. intros z Hz. apply (Htrans x y z); [congruence|exact Hz].
    + constructor; [exact IH|]. apply Forall_forall. intros z Hz.
      apply In_insert_sorted in Hz. destruct Hz as [->|Hz].
      * now apply Htotal.
      * rewrite Forall_forall in Hy. now apply Hy.
Qed.

Lemma js_sort_sorted {A} (cmp : A -> A -> comparison) (l : list A) :
  consistent cmp -> StronglySorted (le_by cmp) (js_sort cmp l).
Proof.
  intros Hc. unfold js_sort. induction l as [|x l IH]; simpl.
  - constructor.
  - now apply insert_sorted_sorted.
Qed.

Lemma StronglySorted_filter {A} (R : A -> A -> Prop) (f : A -> bool) (l : list A) :
  StronglySorted R l -> StronglySorted R (filter f l).
Proof.
  induction 1 as [|x l Hl IH Hx]; simpl; [constructor|].
  destruct (f x); [|exact IH]. constructor; [exact IH|].
  apply Forall_forall. intros y Hy. apply filter_In in Hy.
  rewrite Forall_forall in Hx. now apply Hx.
Qed.

(** [dedup] and [filter truthy] on a list of strings. *)
Fixpoint uniq (l : list string) : list string :=
  match l with
  | [] => []
  | x :: rest => x :: filter (fun y => negb (x =? y)) (uniq rest)
  end.

Lemma filter_map_strings (f : Value -> bool) (l : list string) :
  filter f (map VString l) = map VString (filter (fun s => f (VString s)) l).
Proof.
  induction l as [|x l IH]; simpl; [reflexivity|]. rewrite IH. now destruct (f (VString x)).
Qed.

Lemma dedup_strings (l : list string) : dedup (map VString l) = map VString (uniq l).
Proof.
  induction l as [|x l IH]; simpl; [reflexivity|].
  now rewrite IH, filter_map_strings.
Qed.

Lemma In_uniq (s : string) (l : list string) : In s (uniq l) <-> In s l.
Proof.
  induction l as [|x l IH]; simpl; [tauto|].
  rewrite filter_In, IH. destruct (String.eqb_spec x s) as [->|Hne]; simpl.
  - intuition (try discriminate; auto).
  - intuition.
Qed.

Lemma NoDup_filter {A} (f : A -> bool) (l : list A) : NoDup l -> NoDup (filter f l).
Proof.
  induction 1 as [|x l Hx Hl IH]; simpl; [constructor|].
  destruct (f x); [|exact IH]. constructor; [|exact IH].
  intros Hin. apply filter_In in Hin. now apply Hx.
Qed.

Lemma NoDup_uniq (l : list string) : NoDup (uniq l).
Proof.
  induction l as [|x l IH]; simpl; constructor.
  - intros Hin. apply filter_In in Hin. destruct Hin as [_ Hne].
    now rewrite String.eqb_refl in Hne.
  - now apply NoDup_filter.
Qed.

Lemma uniq_sorted (R : string -> string -> Prop) (l : list string) :
  StronglySorted R l -> StronglySorted R (uniq l).
Proof.
  induction 1 as [|x l Hl IH Hx]; simpl; constructor.
  - now apply StronglySorted_filter.
  - apply Forall_forall. intros y Hy. apply filter_In in Hy. destruct Hy as [Hy _].
    apply -> In_uniq in Hy. rewrite Forall_forall in Hx. now apply Hx.
Qed.

Lemma all_strings_map (l : list string) : all_strings (map VString l) = Some l.
Proof. induction l as [|x l IH]; simpl; [reflexivity|]. now rewrite IH. Qed.

Lemma sort_by_locale_strings cmp (l : list string) :
  sort_by_locale cmp (map VString l) = Ok (map VString (js_sort cmp l)).
Proof. unfold sort_by_locale. now rewrite all_strings_map. Qed.

(** What the last two statements of [generatePermissions] and [generateScopes]
    leave of a list of strings. *)
Definition tidy (cmp : string -> string -> comparison) (l : list string) : list string :=
  filter (fun s => negb (s =? "")) (uniq (js_sort cmp l)).

Lemma tidy_result cmp (l : list string) :
  (sorted <- sort_by_locale cmp (map VString l) ;; Ok (filter truthy (dedup sorted)))
  = Ok (map VString (tidy cmp l)).
Proof.
  rewrite sort_by_locale_strings. cbn [bind].
  now rewrite dedup_strings, filter_map_strings.
Qed.

Lemma tidy_spec cmp (l : list string) :
  (forall s, In s (tidy cmp l) <-> In s l /\ s <> "")
  /\ NoDup (tidy cmp l)
  /\ (consistent cmp -> StronglySorted (le_by cmp) (tidy cmp l)).
Proof.
  unfold tidy. split; [|split].
  - intros s. rewrite filter_In, In_uniq, In_js_sort.
    destruct (String.eqb_spec s "") as [->|Hne]; simpl; intuition discriminate.
  - apply NoDup_filter, NoDup_uniq.
  - intros Hc. apply StronglySorted_filter, uniq_sorted, js_sort_sorted, Hc.
Qed.

(** The order of [String.compare], the comparator of the concrete runs. *)
Lemma ascii_compare_trans (a b c : ascii) :
  Ascii.compare a b <> Gt -> Ascii.compare b c <> Gt -> Ascii.compare a c <> Gt.
Proof.
  unfold Ascii.compare. rewrite !N.compare_le_iff. apply N.le_trans.
Qed.

Lemma ascii_compare_eq (a b : ascii) : Ascii.compare a b = Eq -> a = b.
Proof.
  unfold Ascii.compare. intros H. apply N.compare_eq in H.
  rewrite <- (ascii_N_embedding a), <- (ascii_N_embedding b). now rewrite H.
Qed.

Lemma string_compare_trans (a b c : string) :
  String.compare a b <> Gt -> String.compare b c <> Gt -> String.compare a c <> Gt.
Proof.
  revert b c. induction a as [|x a IH]; intros [|y b] [|z c]; simpl; try congruence.
  destruct (Ascii.compare x y) eqn:Exy; [| |congruence];
    destruct (Ascii.compare y z) eqn:Eyz; try congruence.
  - apply ascii_compare_eq in Exy, Eyz. subst. 
    assert (Hzz : Ascii.compare z z = Eq) by (unfold Ascii.compare; apply N.compare_refl).
    rewrite Hzz. apply IH.
  - apply ascii_compare_eq in Exy. subst. now rewrite Eyz.
  - apply ascii_compare_eq in Eyz. subst. now rewrite Exy.
  - intros _ _.
    assert (H : Ascii.compare x z <> Gt)
      by (apply (ascii_compare_trans x y z); congruence).
    destruct (Ascii.compare x z) eqn:Exz; try congruence.
    apply ascii_compare_eq in Exz. subst.
    unfold Ascii.compare in *. rewrite N.compare_lt_iff in Exy, Eyz.
    exfalso. eapply N.lt_irrefl, N.lt_trans; eassumption.
Qed.

Lemma string_compare_consistent : consistent String.compare.
Proof.
  split.
  - intros a b H. rewrite String.compare_antisym, H. discriminate.
  - apply string_compare_trans.
Qed.

(* ------------------------------------------------------------------------- *)
(** ** Scopes and permissions *)

Lemma strings_nil (l : list string) : strings l = VArray [] -> l = [].
Proof. destruct l; [reflexivity | discriminate]. Qed.

Lemma has_length_array (l : list Value) : has_length (VArray l) = negb (length l =? 0)%nat.
Proof. now destruct l. Qed.

(** [if (v?.length) acc.push(...v)] for a property that is absent or lists
    strings. *)
Lemma push_listed (v : Value) (extra : list string) (acc : list Value) :
  nullish v (VArray []) = strings extra ->
  (if has_length v then more <- iterate v ;; Ok (acc ++ more) else Ok acc)
  = Ok (acc ++ map VString extra).
Proof.
  intros H. destruct v; simpl in H; try discriminate H;
    try (symmetry in H; apply strings_nil in H; subst extra; simpl; now rewrite app_nil_r).
  injection H as ->. rewrite has_length_array.
  destruct extra; simpl; [now rewrite app_nil_r | reflexivity].
Qed.

(** X2.  [generateScopes] on a configuration object whose [invite.scopes] is
    absent or lists strings, for a manifest whose [commands] is an object:
    the scopes returned are ['bot'], ['applications.commands'] exactly when
    the manifest has a command, and the non-empty scopes of the configuration;
    none occurs twice, and they stand in the order of a consistent
    [localeCompare]. *)
Theorem scopes_cover_the_manifest :
  forall (cmp : string -> string -> comparison) (config newManifest cs : Props)
         (extra : list string),
    lookup "commands" newManifest = Some (VObject cs) ->
    nullish (prop (prop (VObject config) "invite") "scopes") (VArray []) = strings extra ->
    exists scopes,
      generateScopes cmp (VObject config) (VObject newManifest) = Ok (map VString scopes)
      /\ (forall s, In s scopes <->
            s = "bot" \/ (s = "applications.commands" /\ cs <> []) \/ (In s extra /\ s <> ""))
      /\ NoDup scopes
      /\ (consistent cmp -> StronglySorted (le_by cmp) scopes).
Proof.
  intros cmp config newManifest cs extra Hcommands Hextra.
  set (found := if (0 <? length cs)%nat then ["applications.commands"] else []).
  exists (tidy cmp (("bot" :: found) ++ extra)).
  destruct (tidy_spec cmp (("bot" :: found) ++ extra)) as (Hin & Hnodup & Hsorted).
  split; [|split; [|split]]; [| |exact Hnodup|exact Hsorted].
  - unfold generateScopes. cbn [member prop bind]. rewrite Hcommands. cbn [or_undefined].
    change (own_keys (VObject cs)) with (map fst cs). rewrite length_map.
    replace (if (0 <? length cs)%nat
             then [VString "bot"] ++ [VString "applications.commands"]
             else [VString "bot"])
      with (map VString ("bot" :: found))
      by (unfold found; now destruct (0 <? length cs)%nat).
    cbn [bind]. rewrite (push_listed _ extra _ Hextra). cbn [bind].
    rewrite <- map_app. apply tidy_result.
  - intros s. rewrite Hin. simpl. rewrite in_app_iff. unfold found.
    destruct cs as [|c cs]; simpl.
    + split.
      * intros [[H|[[]|H]] Hne]; [now left | right; right; now split].
      * intros [->|[[_ H]|[H Hne]]]; [split; [now left | discriminate] | now contradiction H |].
        split; [right; now right | exact Hne].
    + split.
      * intros [[H|[[H|[]]|H]] Hne];
          [now left | right; left; split; [now symmetry | discriminate] | right; right; now split].
      * intros [->|[[-> _]|[H Hne]]];
          [split; [now left | discriminate] | split; [right; left; now left | discriminate] |].
        split; [right; right; exact H | exact Hne].
Qed.

Lemma scopes_cover_the_manifest_witness :
  exists scopes,
    generateScopes String.compare
      (VObject [("invite", VObject [("scopes", strings ["identify"; "bot"])])])
      (VObject [("commands", VObject [("ping", VObject [])])])
    = Ok (map VString scopes)
    /\ (forall s, In s scopes <->
          s = "bot" \/ (s = "applications.commands" /\ [("ping", VObject [])] <> [])
          \/ (In s ["identify"; "bot"] /\ s <> ""))
    /\ NoDup scopes
    /\ (consistent String.compare -> StronglySorted (le_by String.compare) scopes).
Proof.
  apply (scopes_cover_the_manifest String.compare
           [("invite", VObject [("scopes", strings ["identify"; "bot"])])]
           [("commands", VObject [("ping", VObject [])])]
           [("ping", VObject [])] ["identify"; "bot"]); reflexivity.
Defined.








(* ------------------------------------------------------------------------- *)
(** ** Merging events *)






(* ------------------------------------------------------------------------- *)
(** ** The value kept of a module's [config] *)

Lemma lookup_copy_when (test : Value -> bool) (k k' : string) (config : Value) (value : Props) :
  lookup k' (Manifest.copy_when test k config value) =
  if (k =? k') && test (prop config k) then Some (prop config k) else lookup k' value.
Proof.
  unfold Manifest.copy_when. destruct (test (prop config k)).
  - rewrite lookup_assign. now rewrite andb_true_r.
  - now rewrite andb_false_r.
Qed.

Lemma NoDup_copy_when (test : Value -> bool) (k : string) (config : Value) (value : Props) :
  NoDup (map fst value) -> NoDup (map fst (Manifest.copy_when test k config value)).
Proof.
  intros H. unfold Manifest.copy_when.
  destruct (test (prop config k)); [now apply NoDup_assign | exact H].
Qed.

Lemma lookup_fold_keys (g : string -> Value) (keys : list string) (acc : Props) (k : string) :
  lookup k (fold_left (fun acc key => assign key (g key) acc) keys acc) =
  if existsb (String.eqb k) keys then Some (g k) else lookup k acc.
Proof.
  revert acc. induction keys as [|key keys IH]; intros acc; simpl; [reflexivity|].
  rewrite IH, lookup_assign. rewrite (String.eqb_sym k key).
  destruct (existsb (String.eqb k) keys); [now rewrite orb_true_r|].
  rewrite orb_false_r. destruct (String.eqb_spec key k) as [->|]; reflexivity.
Qed.

Lemma keys_fold_keys (g : string -> Value) (keys : list string) (acc : Props) :
  NoDup (map fst acc ++ keys) ->
  map fst (fold_left (fun acc key => assign key (g key) acc) keys acc) = map fst acc ++ keys.
Proof.
  revert acc. induction keys as [|key keys IH]; intros acc Hnd; simpl.
  - now rewrite app_nil_r.
  - assert (Hfresh : lookup key acc = None).
    { apply lookup_None_iff. apply NoDup_remove_2 in Hnd. intros Hin. apply Hnd.
      apply in_or_app. now left. }
    rewrite IH; rewrite (assign_fresh _ _ _ Hfresh), map_app; simpl;
      rewrite <- app_assoc; [reflexivity | exact Hnd].
Qed.

Lemma NoDup_insert_sorted {A} (cmp : A -> A -> comparison) (x : A) (l : list A) :
  ~ In x l -> NoDup l -> NoDup (insert_sorted cmp x l).
Proof.
  intros Hx Hl. induction Hl as [|y l Hy Hl IH]; simpl.
  - constructor; [intros []|constructor].
  - destruct (cmp x y); try (constructor; [exact Hx | now constructor]).
    constructor.
    + rewrite In_insert_sorted. intros [->|H]; [apply Hx; now left | now apply Hy].
    + apply IH. intros H. apply Hx. now right.
Qed.

Lemma NoDup_js_sort {A} (cmp : A -> A -> comparison) (l : list A) :
  NoDup l -> NoDup (js_sort cmp l).
Proof.
  unfold js_sort. induction 1 as [|x l Hx Hl IH]; simpl; [constructor|].
  apply NoDup_insert_sorted; [|exact IH]. fold (js_sort cmp l). now rewrite In_js_sort.
Qed.

(** [by_key] keeps what every key is bound to and lists the keys in order. *)
Lemma prop_by_key (value : Props) (k : string) :
  prop (Manifest.by_key value) k = or_undefined (lookup k value).
Proof.
  unfold Manifest.by_key. cbn [prop]. rewrite lookup_fold_keys. cbn [lookup].
  destruct (existsb (String.eqb k) (js_sort String.compare (map fst value))) eqn:E;
    [reflexivity|].
  destruct (lookup k value) eqn:El; [|reflexivity].
  apply lookup_Some_In, (in_map fst) in El. simpl in El.
  apply (In_js_sort String.compare) in El.
  assert (Hex : existsb (String.eqb k) (js_sort String.compare (map fst value)) = true).
  { apply existsb_exists. exists k. split; [exact El | apply String.eqb_refl]. }
  congruence.
Qed.

Lemma keys_by_key (value : Props) :
  NoDup (map fst value) ->
  own_keys (Manifest.by_key value) = js_sort String.compare (map fst value).
Proof.
  intros Hnd. unfold Manifest.by_key, own_keys. cbn [own_props].
  rewrite keys_fold_keys; [reflexivity|]. simpl. now apply NoDup_js_sort.
Qed.

(** Required options first, each group in the order written. *)
Definition required (option : Value) : bool := truthy (prop option "required").

Lemma by_required_required (x y : Value) :
  required x = true -> Manifest.by_required x y <> Gt.
Proof.
  unfold required, Manifest.by_required. intros ->. simpl.
  destruct (truthy (prop y "required")); discriminate.
Qed.

Lemma insert_required (x : Value) (l : list Value) :
  required x = true -> insert_sorted Manifest.by_required x l = x :: l.
Proof.
  intros Hx. destruct l as [|y l]; simpl; [reflexivity|].
  pose proof (by_required_required x y Hx) as H.
  destruct (Manifest.by_required x y); congruence.
Qed.

Lemma insert_optional (x : Value) (first rest : list Value) :
  required x = false ->
  Forall (fun y => required y = true) first ->
  Forall (fun y => required y = false) rest ->
  insert_sorted Manifest.by_required x (first ++ rest) = first ++ x :: rest.
Proof.
  intros Hx Hfirst Hrest. induction Hfirst as [|y first Hy Hfirst IH]; simpl.
  - destruct Hrest as [|y rest Hy Hrest]; simpl; [reflexivity|].
    unfold Manifest.by_required. unfold required in Hx, Hy. now rewrite Hx, Hy.
  - unfold Manifest.by_required at 1. unfold required in Hx, Hy. rewrite Hx, Hy. simpl.
    now rewrite IH.
Qed.

Lemma sort_by_required (l : list Value) :
  js_sort Manifest.by_required l =
  filter required l ++ filter (fun o => negb (required o)) l.
Proof.
  unfold js_sort. induction l as [|x l IH]; simpl; [reflexivity|].
  rewrite IH. destruct (required x) eqn:Ex; simpl.
  - now apply insert_required.
  - apply insert_optional; [exact Ex| |]; apply Forall_forall; intros y Hy;
      apply filter_In in Hy; destruct Hy as [_ Hy]; [exact Hy|].
    now destruct (required y).
Qed.

Lemma mapM_Forall2 {A B} (f : A -> Result B) (l : list A) (l' : list B) :
  Manifest.mapM f l = Ok l' -> Forall2 (fun x y => f x = Ok y) l l'.
Proof.
  revert l'. induction l as [|x l IH]; intros l' H; simpl in H.
  - injection H as <-. constructor.
  - inv_bind H. inv_bind H. injection H as <-. constructor; [exact E | now apply IH].
Qed.

Lemma mapM_total {A B} (f : A -> Result B) (l : list A) :
  Forall (fun x => exists y, f x = Ok y) l -> exists l', Manifest.mapM f l = Ok l'.
Proof.
  induction 1 as [|x l [y Hy] Hl [l' IH]]; simpl.
  - now eexists.
  - rewrite Hy, IH. now eexists.
Qed.

Ltac through_copies :=
  repeat (first [rewrite lookup_copy_when | rewrite lookup_assign];
          cbn [String.eqb Ascii.eqb Bool.eqb andb]).

Lemma optionValue_keeps (option mapped : Value) :
  Manifest.optionValue option = Ok mapped ->
  prop mapped "name" = prop option "name"
  /\ required mapped = required option.
Proof.
  unfold Manifest.optionValue. intros H. inv_bind H.
  assert (Hname : x = prop option "name") by (destruct option; now inversion E).
  injection H as <-. unfold required. cbn [prop]. through_copies. cbn [lookup String.eqb Ascii.eqb Bool.eqb or_undefined].
  split; [now subst x|].
  destruct (truthy (prop option "required")) eqn:Er; cbn [or_undefined]; [exact Er | reflexivity].
Qed.

Lemma legacy_optionValue_keeps (option mapped : Value) :
  Legacy.optionValue option = Ok mapped ->
  prop mapped "name" = prop option "name"
  /\ required mapped = required option.
Proof.
  unfold Legacy.optionValue. intros H. inv_bind H.
  assert (Hname : x = prop option "name") by (destruct option; now inversion E).
  injection H as <-. unfold required. cbn [prop]. through_copies. cbn [lookup String.eqb Ascii.eqb Bool.eqb or_undefined].
  split; [now subst x|].
  destruct (truthy (prop option "required")) eqn:Er; cbn [or_undefined]; [exact Er | reflexivity].
Qed.

Definition is_nullish (v : Value) : bool :=
  match v with
  | VUndefined | VNull => true
  | _ => false
  end.

Lemma member_total (v : Value) (k : string) :
  is_nullish v = false -> member v k = Ok (prop v k).
Proof. now destruct v. Qed.

Definition required_first (mapped : list Value) : Value :=
  VArray (filter required mapped ++ filter (fun o => negb (required o)) mapped).

(** X4.  [getValue] for a command whose [config.options] is an array without
    [null] or [undefined] elements, in both revisions: the [options] kept are
    one per option of the config, with its name and its [required] flag, the
    required ones first and then the others, each group in the order the
    config lists them. *)
Theorem required_options_come_first :
  forall (config : Value) (configOptions : list Value),
    truthy config = true ->
    prop config "options" = VArray configOptions ->
    Forall (fun option => is_nullish option = false) configOptions ->
    (exists mapped value,
       Manifest.getValue Commands config = Ok value
       /\ Forall2 (fun option kept =>
                     Manifest.optionValue option = Ok kept
                     /\ prop kept "name" = prop option "name"
                     /\ required kept = required option)
                  configOptions mapped
       /\ prop value "options" = required_first mapped)
    /\ (exists mapped value,
          Legacy.getValue Commands config = Ok value
          /\ Forall2 (fun option kept =>
                        Legacy.optionValue option = Ok kept
                        /\ prop kept "name" = prop option "name"
                        /\ required kept = required option)
                     configOptions mapped
          /\ prop value "options" = required_first mapped).
Proof.
  intros config configOptions Hconfig Hoptions Hdefined. split.
  - destruct (mapM_total Manifest.optionValue configOptions) as [mapped Hmapped].
    { eapply Forall_impl; [|exact Hdefined]. intros option Ho. unfold Manifest.optionValue.
      rewrite (member_total _ _ Ho). cbn [bind]. now eexists. }
    exists mapped. unfold Manifest.getValue. rewrite Hconfig, Hoptions. cbn [negb truthy].
    change (is_type Commands Commands) with true. cbv iota. rewrite Hmapped. cbn [bind].
    change (is_type Commands Context) with false.
    change (is_type Commands Events) with false. cbv iota.
    eexists. split; [reflexivity|]. split.
    + apply mapM_Forall2 in Hmapped. eapply Forall2_impl; [|exact Hmapped].
      intros option kept Hk. split; [exact Hk | now apply optionValue_keeps].
    + rewrite prop_by_key. through_copies. cbn [or_undefined].
      unfold required_first. now rewrite sort_by_required.
  - destruct (mapM_total Legacy.optionValue configOptions) as [mapped Hmapped].
    { eapply Forall_impl; [|exact Hdefined]. intros option Ho. unfold Legacy.optionValue.
      rewrite (member_total _ _ Ho). cbn [bind]. now eexists. }
    exists mapped. unfold Legacy.getValue. rewrite Hconfig, Hoptions. cbn [negb truthy].
    change (is_type Commands Commands) with true. cbv iota. rewrite Hmapped. cbn [bind].
    change (is_type Commands Events) with false. cbv iota.
    eexists. split; [reflexivity|]. split.
    + apply mapM_Forall2 in Hmapped. eapply Forall2_impl; [|exact Hmapped].
      intros option kept Hk. split; [exact Hk | now apply legacy_optionValue_keeps].
    + rewrite prop_by_key. through_copies. cbn [or_undefined].
      unfold required_first. now rewrite sort_by_required.
Qed.

Lemma required_options_come_first_witness :
  exists value,
    Manifest.getValue Commands
      (VObject [("options",
                 VArray [ VObject [("name", VString "reason")];
                          VObject [("name", VString "user"); ("required", VBool true)] ])])
    = Ok value
    /\ prop (prop (prop value "options") "0") "name" = VString "user".
Proof.
  destruct (required_options_come_first
              (VObject [("options",
                         VArray [ VObject [("name", VString "reason")];
                                  VObject [("name", VString "user");
                                           ("required", VBool true)] ])])
              [ VObject [("name", VString "reason")];
                VObject [("name", VString "user"); ("required", VBool true)] ]
              eq_refl eq_refl)
    as [(mapped & value & Hrun & _ & _) _].
  - repeat constructor.
  - exists value. split; [exact Hrun|].
    vm_compute in Hrun. injection Hrun as <-. reflexivity.
Defined.

Ltac fresh_keys :=
  repeat first [ apply NoDup_copy_when | apply NoDup_assign ]; try constructor.

Definition kept_timeout (config : Value) (raw : Props) : Prop :=
  or_undefined (lookup "timeout" raw) = prop config "timeout".

Lemma kept_timeout_copy (config : Value) (inner : Props) :
  lookup "timeout" inner = None ->
  kept_timeout config (Manifest.copy_when is_defined "timeout" config inner).
Proof.
  intros H. unfold kept_timeout. rewrite lookup_copy_when, H. cbn [String.eqb Ascii.eqb Bool.eqb andb].
  now destruct (prop config "timeout").
Qed.

Lemma getValue_raw (type : EntryType) (config value : Value) :
  Manifest.getValue type config = Ok value ->
  truthy config = true ->
  exists raw,
    value = Manifest.by_key raw
    /\ NoDup (map fst raw)
    /\ kept_timeout config raw
    /\ (type = Events ->
        lookup "frequency" raw = Some (nullish (prop config "frequency") (VString "always"))).
Proof.
  unfold Manifest.getValue. intros H Hconfig. rewrite Hconfig in H. cbn [negb] in H.
  destruct type; unfold is_type, type_name in H;
    cbn [String.eqb Ascii.eqb Bool.eqb andb] in H; inv_bind H; injection H as <-.
  2: { destruct (truthy (prop config "options")).
       - destruct (prop config "options"); try discriminate E.
         inv_bind E. injection E as <-.
         eexists. split; [reflexivity|]. split; [fresh_keys|]. split; [|discriminate].
         apply kept_timeout_copy. now through_copies.
       - injection E as <-.
         eexists. split; [reflexivity|]. split; [fresh_keys|]. split; [|discriminate].
         apply kept_timeout_copy. now through_copies. }
  all: injection E as <-; eexists; (split; [reflexivity|]); (split; [fresh_keys|]);
    (split; [apply kept_timeout_copy; now through_copies|]); try discriminate.
  intros _. now through_copies.
Qed.

Lemma legacy_getValue_raw (type : EntryType) (config value : Value) :
  Legacy.getValue type config = Ok value ->
  truthy config = true ->
  exists raw,
    value = Manifest.by_key raw
    /\ NoDup (map fst raw)
    /\ kept_timeout config raw
    /\ (type = Events ->
        lookup "frequency" raw = Some (nullish (prop config "frequency") (VString "always"))).
Proof.
  unfold Legacy.getValue. intros H Hconfig. rewrite Hconfig in H. cbn [negb] in H.
  destruct type; unfold is_type, type_name in H;
    cbn [String.eqb Ascii.eqb Bool.eqb andb] in H; inv_bind H; injection H as <-.
  2: { destruct (truthy (prop config "options")).
       - destruct (prop config "options"); try discriminate E.
         inv_bind E. injection E as <-.
         eexists. split; [reflexivity|]. split; [fresh_keys|]. split; [|discriminate].
         apply kept_timeout_copy. now through_copies.
       - injection E as <-.
         eexists. split; [reflexivity|]. split; [fresh_keys|]. split; [|discriminate].
         apply kept_timeout_copy. now through_copies. }
  all: injection E as <-; eexists; (split; [reflexivity|]); (split; [fresh_keys|]);
    (split; [apply kept_timeout_copy; now through_copies|]); try discriminate.
  intros _. now through_copies.
Qed.

(** How the value of an entry is shaped. *)
Definition value_shape (config value : Value) : Prop :=
  NoDup (own_keys value)
  /\ StronglySorted (le_by String.compare) (own_keys value)
  /\ prop value "timeout" = prop config "timeout".

Lemma by_key_shape (config : Value) (raw : Props) :
  NoDup (map fst raw) -> kept_timeout config raw ->
  value_shape config (Manifest.by_key raw).
Proof.
  intros Hnd Htimeout. unfold value_shape. rewrite keys_by_key by exact Hnd.
  split; [now apply NoDup_js_sort|].
  split; [apply js_sort_sorted, string_compare_consistent|].
  now rewrite prop_by_key.
Qed.

(** X5.  [getValue] in both revisions, for every type: a falsy [config] gives
    the empty object; otherwise the keys of the value are pairwise different
    and stand in code-unit order, the value has the [timeout] of the config
    (none when the config has none), and the value of an event always has a
    [frequency], ['always'] unless the config gives one. *)
Theorem entry_value_shape :
  forall (type : EntryType) (config : Value),
    (truthy config = false ->
     Manifest.getValue type config = Ok (VObject [])
     /\ Legacy.getValue type config = Ok (VObject []))
    /\ (forall value,
          truthy config = true ->
          Manifest.getValue type config = Ok value \/ Legacy.getValue type config = Ok value ->
          value_shape config value
          /\ (type = Events ->
              prop value "frequency" = nullish (prop config "frequency") (VString "always"))).
Proof.
  intros type config. split.
  - intros H. unfold Manifest.getValue, Legacy.getValue. now rewrite H.
  - intros value Hconfig [H|H];
      [apply getValue_raw in H | apply legacy_getValue_raw in H]; try exact Hconfig;
      destruct H as (raw & -> & Hnd & Htimeout & Hfrequency);
      (split; [now apply by_key_shape|]);
      intros Htype; rewrite prop_by_key, (Hfrequency Htype); reflexivity.
Qed.

Lemma entry_value_shape_witness :
  Manifest.getValue Events VUndefined = Ok (VObject [])
  /\ prop (Manifest.by_key [("timeout", VNumber 5); ("frequency", VString "always")])
          "frequency" = VString "always".
Proof.
  split.
  - apply (entry_value_shape Events VUndefined). reflexivity.
  - apply (proj2 (proj2 (entry_value_shape Events (VObject [("timeout", VNumber 5)]))
                    (Manifest.by_key [("timeout", VNumber 5); ("frequency", VString "always")])
                    eq_refl (or_introl eq_refl))
             eq_refl).
Defined.

(* ------------------------------------------------------------------------- *)
(** ** Redaction, once more *)

Lemma redactedObj_fixed (redactedObj : Props) :
  NoDup (map fst redactedObj) ->
  (forall k v, In (k, v) redactedObj -> v = REDACTED) ->
  fold_left (fun acc kv => assign (fst kv) REDACTED acc) redactedObj [] = redactedObj.
Proof.
  intros Hnd Hall. rewrite redactedObj_as_assign.
  assert (Hmap : map (fun kv : string * Value => (fst kv, REDACTED)) redactedObj = redactedObj).
  { clear Hnd. induction redactedObj as [|[k v] rest IH]; simpl; [reflexivity|].
    rewrite (Hall k v) by now left. rewrite IH; [reflexivity|].
    intros k' v' Hin. apply (Hall k' v'). now right. }
  rewrite Hmap. now apply (fold_assign_fresh redactedObj []).
Qed.

Lemma redactPlugin_passes (plugin : Value) :
  is_array plugin = false \/ typeof (prop plugin "1") <> "object" ->
  redactPlugin plugin = plugin.
Proof.
  unfold redactPlugin. intros [->|H]; [reflexivity|].
  destruct (is_array plugin); [|reflexivity].
  destruct (String.eqb_spec (typeof (prop plugin "1")) "object"); [contradiction | reflexivity].
Qed.

Lemma redactPlugin_idempotent (plugin : Value) :
  redactPlugin (redactPlugin plugin) = redactPlugin plugin.
Proof.
  destruct (is_array plugin) eqn:Ea;
    [|rewrite !(redactPlugin_passes plugin) by (now left); reflexivity].
  destruct (String.eqb_spec (typeof (prop plugin "1")) "object") as [Hobj|Hobj];
    [|rewrite !(redactPlugin_passes plugin) by (now right); reflexivity].
  assert (Hfirst : exists redactedObj,
             redactPlugin plugin = VArray [prop plugin "0"; VObject redactedObj]
             /\ NoDup (map fst redactedObj)
             /\ (forall k v, In (k, v) redactedObj -> v = REDACTED)).
  { unfold redactPlugin. rewrite Ea, Hobj. simpl String.eqb. cbv iota. fold REDACTED.
    eexists. split; [reflexivity|]. rewrite redactedObj_as_assign. split.
    - apply NoDup_fold_assign. constructor.
    - intros k v Hin. apply In_fold_assign in Hin. destruct Hin as [Hin|[]].
      apply in_map_iff in Hin. now destruct Hin as (kv & [= <- <-] & _). }
  destruct Hfirst as (redactedObj & -> & Hnd & Hall).
  unfold redactPlugin. cbn [is_array prop]. simpl String.eqb.
  cbn [indexed lookup or_undefined]. simpl String.eqb. cbn [or_undefined typeof].
  simpl String.eqb. cbv iota. cbn [own_props]. fold REDACTED.
  now rewrite redactedObj_fixed.
Qed.

(** X6.  [redactPluginOptions] on a configuration object: without plugins the
    configuration comes back as it is; with an array of plugins, redacting
    what has been redacted changes nothing, every other setting keeps its
    value and its place, and a plugin that is not a pair, or whose second part
    is no object, stays as it is. *)
Theorem redaction_is_idempotent :
  forall (config : Props),
    NoDup (map fst config) ->
    (truthy (prop (VObject config) "plugins") = false ->
     redactPluginOptions (VObject config) = Ok (VObject config))
    /\ (forall plugins,
          lookup "plugins" config = Some (VArray plugins) ->
          exists redacted kept,
            redactPluginOptions (VObject config) = Ok redacted
            /\ redactPluginOptions redacted = Ok redacted
            /\ own_keys redacted = map fst config
            /\ (forall k, k <> "plugins" -> prop redacted k = prop (VObject config) k)
            /\ prop redacted "plugins" = VArray kept
            /\ length kept = length plugins
            /\ (forall i plugin,
                  nth_error plugins i = Some plugin ->
                  is_array plugin = false \/ typeof (prop plugin "1") <> "object" ->
                  nth_error kept i = Some plugin)).
Proof.
  intros config Hnd. split.
  - intros H. unfold redactPluginOptions. cbn [member bind]. now rewrite H.
  - intros plugins Hl.
    exists (VObject (assign "plugins" (VArray (map redactPlugin plugins)) config)),
           (map redactPlugin plugins).
    split; [now apply redactPluginOptions_object|]. split; [|split; [|split; [|split; [|split]]]].
    + rewrite (redactPluginOptions_object _ (map redactPlugin plugins)).
      * rewrite assign_assign_same, map_map.
        do 4 f_equal. apply map_ext. intros plugin. apply redactPlugin_idempotent.
      * now apply NoDup_assign.
      * apply lookup_assign_same.
    + unfold own_keys. cbn [own_props]. rewrite keys_assign.
      assert (Hex : existsb (String.eqb "plugins") (map fst config) = true).
      { apply existsb_exists. exists "plugins". split; [|reflexivity].
        apply lookup_Some_In in Hl. now apply (in_map fst) in Hl. }
      now rewrite Hex.
    + intros k Hk. cbn [prop]. rewrite lookup_assign.
      destruct (String.eqb_spec "plugins" k) as [<-|_]; [now contradiction Hk | reflexivity].
    + cbn [prop]. now rewrite lookup_assign_same.
    + apply length_map.
    + intros i plugin Hi Hpass. rewrite nth_error_map, Hi. cbn [option_map].
      now rewrite redactPlugin_passes.
Qed.

Lemma redaction_is_idempotent_witness :
  exists redacted,
    redactPluginOptions
      (VObject [ ("plugins",
                  VArray [ VString "@roboplay/plugin-ai";
                           VArray [VString "analytics"; VObject [("token", VString "hunter2")]] ]);
                 ("seed", VNull) ])
    = Ok redacted
    /\ redactPluginOptions redacted = Ok redacted.
Proof.
  destruct (proj2 (redaction_is_idempotent
                     [ ("plugins",
                        VArray [ VString "@roboplay/plugin-ai";
                                 VArray [VString "analytics";
                                         VObject [("token", VString "hunter2")]] ]);
                       ("seed", VNull) ]
                     ltac:(repeat constructor; simpl; intuition discriminate))
                  _ eq_refl)
    as (redacted & kept & Hrun & Hagain & _).
  exists redacted. now split.
Defined.

(* ------------------------------------------------------------------------- *)
(** ** The order and the reach of a scan *)

Section Walk.

Variable h : Host.

(** What the [fs.stat] pass makes of a name of the directory. *)
Definition walked_file (directoryPath : Path) (file : string) : bool :=
  match stat (tree h) (directoryPath ++ [file]) with
  | Ok (File _) => existsb (String.eqb (extname file)) (ALLOWED_EXTENSIONS h)
  | _ => false
  end.

Definition walked_directory (directoryPath : Path) (file : string) : bool :=
  match stat (tree h) (directoryPath ++ [file]) with
  | Ok (Dir _) => true
  | _ => false
  end.

Lemma classify_exact (directoryPath : Path) (directory files directories : list string) :
  Manifest.classify h directoryPath directory = Ok (files, directories) ->
  files = filter (walked_file directoryPath) directory
  /\ directories = filter (walked_directory directoryPath) directory.
Proof.
  unfold Manifest.classify.
  match goal with |- foldM ?b _ _ = _ -> _ => set (body := b) end.
  assert (H : forall names fs ds,
            foldM body names (fs, ds) = Ok (files, directories) ->
            files = fs ++ filter (walked_file directoryPath) names
            /\ directories = ds ++ filter (walked_directory directoryPath) names).
  { induction names as [|name names IH]; intros fs ds Hrun.
    - injection Hrun as <- <-. now rewrite !app_nil_r.
    - cbn [foldM] in Hrun. inv_bind Hrun. subst body. cbv beta iota in E. inv_bind E.
      cbn [filter]. unfold walked_file at 1, walked_directory at 1. rewrite E0.
      destruct x0 as [content| |below].
      + destruct (existsb (String.eqb (extname name)) (ALLOWED_EXTENSIONS h));
          cbn [negb] in E; injection E as <-; apply IH in Hrun;
          destruct Hrun as [-> ->]; now rewrite <- ?app_assoc.
      + injection E as <-. now apply IH in Hrun.
      + injection E as <-. apply IH in Hrun. destruct Hrun as [-> ->].
        now rewrite <- ?app_assoc. }
  intros Hrun. now apply H in Hrun.
Qed.

(** The names of the modules directory, none when it cannot be listed. *)
Definition moduleNames (recursionPath : option Path) : list string :=
  match readdir (tree h) (Manifest.modulesPathOf recursionPath) with
  | Ok names => names
  | Err _ => []
  end.

Definition walked_module (recursionPath : option Path) (type : EntryType) (module : string)
    : bool :=
  mode_ok h module
  && match stat (tree h) (Manifest.modulesPathOf recursionPath ++ [module; type_name type]) with
     | Ok (Dir _) => true
     | _ => false
     end.

Definition modulePath (recursionPath : option Path) (type : EntryType) (module : string)
    : Path :=
  Manifest.modulesPathOf recursionPath ++ [module; type_name type].

Lemma readdir_error (p : Path) (e : Error) :
  readdir (tree h) p = Err e -> e = FsError "ENOENT" \/ e = FsError "ENOTDIR".
Proof.
  unfold readdir. destruct (resolve (tree h) p) as [n|e'] eqn:Er; cbn [bind].
  - destruct n; intros [= <-]; now right.
  - intros [= <-]. now apply resolve_error in Er.
Qed.

Lemma findModules_exact (recursionPath : option Path) (type : EntryType) :
  Manifest.findModules h recursionPath type =
  Ok (map (modulePath recursionPath type)
          (filter (walked_module recursionPath type) (moduleNames recursionPath))).
Proof.
  unfold Manifest.findModules, moduleNames.
  destruct (readdir (tree h) (Manifest.modulesPathOf recursionPath)) as [names|e] eqn:Er;
    cbn [bind].
  - match goal with |- unless_missing (foldM ?b _ _) _ = _ => set (body := b) end.
    assert (H : forall names modules,
              foldM body names modules =
              Ok (modules ++ map (modulePath recursionPath type)
                                 (filter (walked_module recursionPath type) names))).
    { clear. induction names as [|name names IH]; intros modules.
      - simpl. now rewrite app_nil_r.
      - cbn [foldM filter].
        assert (Hstep : body name modules =
                        Ok (if walked_module recursionPath type name
                            then modules ++ [modulePath recursionPath type name]
                            else modules)).
        { subst body. cbv beta. unfold walked_module, mode_ok, modulePath.
          destruct (Manifest.moduleMode h name =? ""); cbn [negb andb orb].
          - destruct (stat (tree h) _) as [[| |]|e] eqn:Es; cbn [bind];
              try reflexivity.
            now rewrite (unless_missing_resolve _ _ _ _ Es).
          - destruct (Mode_is h (Manifest.moduleMode h name)); cbn [negb andb orb];
              [|reflexivity].
            destruct (stat (tree h) _) as [[| |]|e] eqn:Es; cbn [bind];
              try reflexivity.
            now rewrite (unless_missing_resolve _ _ _ _ Es). }
        rewrite Hstep. cbn [bind]. rewrite IH.
        destruct (walked_module recursionPath type name); [|reflexivity].
        cbn [map]. now rewrite <- app_assoc. }
    rewrite H. reflexivity.
  - apply readdir_error in Er. destruct Er as [-> | ->]; reflexivity.
Qed.





(** The parts of a call of [scanDir]: its own files, then what the calls for
    its directories visit, then what the calls for its modules visit. *)
Definition modulesOf (options : Manifest.ScanDirOptions) : list Path :=
  if Manifest.withModules options
  then map (modulePath (Manifest.recursionPath options) (Manifest.type options))
           (filter (walked_module (Manifest.recursionPath options) (Manifest.type options))
                   (moduleNames (Manifest.recursionPath options)))
  else [].

Lemma scan_parts (fuel : nat) (options : Manifest.ScanDirOptions)
    (visits0 visits : list Runs.Visit) :
  Manifest.scanDir h (S fuel) Runs.record options visits0 = Ok visits ->
  exists directoryPath names below beside,
    (match Manifest.recursionPath options with
     | Some p => Ok p
     | None => Manifest.startDirectory (Manifest.buildDirectory options) (Manifest.type options)
     end) = Ok directoryPath
    /\ if_enoent (readdir (tree h) directoryPath) (Ok []) = Ok names
    /\ foldM (fun childDir =>
                Manifest.scanDir h fuel Runs.record
                  (Manifest.childOptions options directoryPath childDir))
             (filter (walked_directory directoryPath) names) [] = Ok below
    /\ foldM (fun module =>
                Manifest.scanDir h fuel Runs.record (Manifest.moduleOptions options module))
             (modulesOf options) [] = Ok beside
    /\ visits =
       visits0 ++ map (visitOf options directoryPath) (filter (walked_file directoryPath) names)
         ++ below ++ beside.
Proof.
  intros Hrun. apply scanDir_run in Hrun.
  destruct Hrun as (directoryPath & names & files & directories & modules & s1 & s2
                    & Hdir & Hnames & Hclassify & Hmodules & Hfiles & Hbelow & Hbeside).
  apply classify_exact in Hclassify. destruct Hclassify as [-> ->].
  rewrite record_files in Hfiles. injection Hfiles as <-.
  assert (Hm : modules = modulesOf options).
  { unfold modulesOf. destruct (Manifest.withModules options).
    - rewrite findModules_exact in Hmodules. now injection Hmodules as <-.
    - now injection Hmodules as <-. }
  subst modules.
  destruct (traced_fold h fuel _ (scanDir_traced h fuel) _ _ _ Hbelow)
    as (below & -> & Hbelow' & _).
  destruct (traced_fold h fuel _ (scanDir_traced h fuel) _ _ _ Hbeside)
    as (beside & -> & Hbeside' & _).
  exists directoryPath, names, below, beside.
  split; [exact Hdir|]. split; [exact Hnames|].
  split; [apply (Hbelow' [])|]. split; [apply (Hbeside' [])|].
  now rewrite <- !app_assoc.
Qed.

(** What a fold of calls visits, call by call. *)
Lemma fold_segments {A} (mk : A -> Manifest.ScanDirOptions) (fuel : nat)
    (Seg : A -> list Runs.Visit -> Prop) (xs : list A) :
  (forall x v0 v,
     In x xs -> Manifest.scanDir h fuel Runs.record (mk x) v0 = Ok v ->
     exists T, v = v0 ++ T /\ Seg x T) ->
  forall v0 v,
    foldM (fun x => Manifest.scanDir h fuel Runs.record (mk x)) xs v0 = Ok v ->
    exists Ts, v = v0 ++ concat Ts /\ Forall2 Seg xs Ts.
Proof.
  induction xs as [|x xs IH]; intros Hseg v0 v Hrun.
  - injection Hrun as <-. exists []. split; [now rewrite app_nil_r | constructor].
  - cbn [foldM] in Hrun. inv_bind Hrun.
    destruct (Hseg x v0 x0 (or_introl eq_refl) E) as (T & -> & HT).
    destruct (IH (fun y u0 u Hy => Hseg y u0 u (or_intror Hy)) _ _ Hrun) as (Ts & -> & HTs).
    exists (T :: Ts). split; [simpl; now rewrite app_assoc | now constructor].
Qed.

End Walk.

(** [v1] is visited before [v2]. *)
Definition before (v1 v2 : Runs.Visit) (visits : list Runs.Visit) : Prop :=
  exists l1 l2 l3, visits = l1 ++ v1 :: l2 ++ v2 :: l3.












Section Order.

Variable h : Host.






(** A visit is of a file with an extension that counts, named by the last
    of its keys. *)
Definition allowed_visit (v : Runs.Visit) : Prop :=
  exists directoryPath file content keys,
    v = (keys ++ [basename file], directoryPath ++ [file], snd v)
    /\ stat (tree h) (directoryPath ++ [file]) = Ok (File content)
    /\ existsb (String.eqb (extname file)) (ALLOWED_EXTENSIONS h) = true.

Lemma Forall2_concat {A} (Q : Runs.Visit -> Prop) (xs : list A) (Ts : list (list Runs.Visit)) :
  Forall2 (fun _ T => Forall Q T) xs Ts -> Forall Q (concat Ts).
Proof.
  induction 1 as [|x T xs Ts HT _ IH]; simpl; [constructor|].
  apply Forall_app. now split.
Qed.

Lemma scan_allowed :
  forall fuel options visits0 visits,
    Manifest.scanDir h fuel Runs.record options visits0 = Ok visits ->
    exists T, visits = visits0 ++ T /\ Forall allowed_visit T.
Proof.
  induction fuel as [|fuel IH]; intros options visits0 visits Hrun; [discriminate Hrun|].
  apply scan_parts in Hrun.
  destruct Hrun as (directoryPath & names & below & beside
                    & Hdir & Hnames & Hbelow & Hbeside & ->).
  apply (fold_segments h _ fuel (fun _ T => Forall allowed_visit T)) in Hbelow;
    [|intros c v0 v _ Hc; apply (IH _ _ _ Hc)].
  apply (fold_segments h _ fuel (fun _ T => Forall allowed_visit T)) in Hbeside;
    [|intros c v0 v _ Hc; apply (IH _ _ _ Hc)].
  destruct Hbelow as (Ts1 & -> & Hall1). destruct Hbeside as (Ts2 & -> & Hall2).
  eexists. split; [reflexivity|]. simpl.
  apply Forall_app. split; [|apply Forall_app; split; eapply Forall2_concat; eassumption].
  apply Forall_forall. intros y Hy. apply in_map_iff in Hy. destruct Hy as (f & <- & Hf).
  apply filter_In in Hf. destruct Hf as [_ Hf]. unfold walked_file in Hf.
  destruct (stat (tree h) (directoryPath ++ [f])) as [[content| |]|] eqn:Es; try discriminate Hf.
  exists directoryPath, f, content, (Manifest.keysOf options). now split.
Qed.

End Order.

(** An event file listed after the directory of the same name. *)
Definition directoryListedFirst : Host :=
  Runs.host
    (Runs.build [("events", Dir [ ("messageCreate", Dir [("dm.js", File "")]);
                                   ("messageCreate.js", File "");
                                   ("notes.txt", File "") ])])
    (VObject []).



(** X8.  Every visit of a scan, that is every call of its predicate, is for a
    file of the tree whose extension is one of [ALLOWED_EXTENSIONS], with the
    name of the file without that extension as the last key: directories,
    other kinds of node and files with another extension are never handed to
    the predicate. *)
Theorem only_allowed_files_are_visited :
  forall (h : Host) (fuel : nat) (options : Manifest.ScanDirOptions)
         (visits : list Runs.Visit),
    Manifest.scanDir h fuel Runs.record options [] = Ok visits ->
    (forall v, In v visits ->
       exists directoryPath file content keys,
         v = (keys ++ [basename file], directoryPath ++ [file], snd v)
         /\ stat (tree h) (directoryPath ++ [file]) = Ok (File content)
         /\ existsb (String.eqb (extname file)) (ALLOWED_EXTENSIONS h) = true)
    /\ (forall (S : Type) (predicate : Manifest.ScanDirPredicate S) (s : S),
          Manifest.scanDir h fuel predicate options s = foldM (replay predicate) visits s).
Proof.
  intros h fuel options visits Hrun. split.
  - destruct (scan_allowed h _ _ _ _ Hrun) as (T & -> & Hall).
    intros v Hv. rewrite Forall_forall in Hall. exact (Hall v Hv).
  - destruct (scanDir_traced h _ _ _ _ Hrun) as (T & -> & _ & Hreplay). exact Hreplay.
Qed.

Lemma only_allowed_files_are_visited_witness :
  Manifest.scanDir directoryListedFirst 5 Runs.record (Runs.firstCall Events) []
  = Ok [ (["messageCreate"], [".robo"; "build"; "events"; "messageCreate.js"], []);
         (["messageCreate"; "dm"],
          [".robo"; "build"; "events"; "messageCreate"; "dm.js"], []) ]
  /\ exists directoryPath file content keys,
       (["messageCreate"; "dm"], [".robo"; "build"; "events"; "messageCreate"; "dm.js"],
        @nil string)
       = (keys ++ [basename file], directoryPath ++ [file], @nil string)
       /\ stat (tree directoryListedFirst) (directoryPath ++ [file]) = Ok (File content)
       /\ existsb (String.eqb (extname file)) (ALLOWED_EXTENSIONS directoryListedFirst) = true.
Proof.
  split; [reflexivity|].
  apply (proj1 (only_allowed_files_are_visited directoryListedFirst 5
                  (Runs.firstCall Events) _ eq_refl)
           (["messageCreate"; "dm"],
            [".robo"; "build"; "events"; "messageCreate"; "dm.js"], [])).
  right. now left.
Defined.

(* ------------------------------------------------------------------------- *)
(** ** The entries of a scan *)












(** *** API routes *)












(* ------------------------------------------------------------------------- *)
(** ** Local entries and plugin entries in the emitted manifest *)

Ltac step_result H :=
  cbv zeta in H;
  repeat match type of H with
         | (if ?c then _ else _) = Ok _ => destruct c
         | bind _ _ = Ok _ => inv_bind H
         | match ?x with _ => _ end = Ok _ => destruct x
         | Err _ = Ok _ => discriminate H
         end;
  try (injection H as <-).

Ltac keys_kept :=
  repeat first
    [ apply NoDup_assign
    | match goal with |- context [if ?c then _ else _] => destruct c end ];
  assumption.

Lemma predicateBody_keys (type : EntryType) (fileKeys : list string) (entry : Value)
    (entries entries' : Props) :
  NoDup (map fst entries) ->
  predicateBody type fileKeys entry entries = Ok entries' ->
  NoDup (map fst entries').
Proof.
  intros Hnd H. unfold predicateBody in H.
  inv_bind H. assert (H0 : NoDup (map fst x)).
  { unfold eventStep in E. step_result E; keys_kept. }
  clear E Hnd. inv_bind H. assert (H1 : NoDup (map fst x0)).
  { unfold contextStep in E. step_result E; keys_kept. }
  clear E H0. inv_bind H. assert (H2 : NoDup (map fst x1)).
  { unfold subcommandGroupStep in E. step_result E; keys_kept. }
  clear E H1. inv_bind H. assert (H3 : NoDup (map fst x2)).
  { unfold subcommandStep in E. step_result E; keys_kept. }
  clear E H2. inv_bind H. assert (H4 : NoDup (map fst x3)).
  { unfold commandStep in E. step_result E; keys_kept. }
  clear E H3. inv_bind H. assert (H5 : NoDup (map fst x4)).
  { unfold middlewareStep in E. step_result E; keys_kept. }
  clear E H4. unfold apiStep in H. step_result H; keys_kept.
Qed.

Lemma generateEntries_keys (h : Host) (fuel : nat) (type : EntryType)
    (generatedKeys : list string) (v : Value) :
  Manifest.generateEntries h fuel type generatedKeys = Ok v ->
  exists entries, v = VObject entries /\ NoDup (map fst entries).
Proof.
  unfold Manifest.generateEntries, if_enoent.
  destruct (bind (member (loadConfig h) "experimental") _) as [r|e] eqn:E.
  - intros [= <-]. inv_bind E. inv_bind E. injection E as <-.
    eexists. split; [reflexivity|].
    eapply (scanDir_invariant (fun entries : Props => NoDup (map fst entries)));
      [| |exact E1]; [|constructor].
    intros fileKeys fullPath moduleKeys t t' _ Ht Hrun.
    unfold Manifest.predicate in Hrun. inv_bind Hrun.
    now apply (predicateBody_keys type fileKeys x1 t t').
  - destruct e; try discriminate.
    destruct (code =? "ENOENT"); [|discriminate].
    intros [= <-]. exists []. split; [reflexivity | constructor].
Qed.

(** An object whose keys are pairwise different. *)
Definition plain_object (v : Value) : Prop :=
  exists ps, v = VObject ps /\ NoDup (map fst ps).

Lemma plain_object_literal (parts : list Value) : plain_object (literal parts).
Proof.
  exists (fold_left spread parts []). split; [reflexivity|]. apply (NoDup_literal parts).
Qed.

Lemma readPluginManifest_plain (h : Host) (plugins pluginsManifest : Value) :
  Manifest.readPluginManifest h plugins = Ok pluginsManifest ->
  plain_object (prop pluginsManifest "api")
  /\ plain_object (prop pluginsManifest "commands").
Proof.
  unfold Manifest.readPluginManifest.
  assert (Hbase : plain_object (prop (Manifest.BASE_MANIFEST h) "api")
                  /\ plain_object (prop (Manifest.BASE_MANIFEST h) "commands"))
    by (split; exists []; split; try reflexivity; constructor).
  destruct (negb (has_length plugins)); [now intros [= <-]|].
  intros H. inv_bind H.
  eapply (foldM_invariant (fun pm => plain_object (prop pm "api")
                                     /\ plain_object (prop pm "commands")));
    [|exact Hbase|exact H].
  intros plugin pm pm' _ Hpm Hstep. unfold Manifest.foldPlugin in Hstep.
  inv_bind Hstep. destruct (findPackagePath h _) as [packagePath|];
    [|now injection Hstep as <-].
  do 9 inv_bind Hstep. injection Hstep as <-.
  split; (erewrite prop_literal2_written by reflexivity); apply plain_object_literal.
Qed.

Lemma gathered_plain (h : Host) (fuel : nat) (defaults : Value) (type : string)
    (g : Manifest.Gathered) :
  Manifest.gather h fuel defaults type = Ok g ->
  plain_object (prop (Manifest.pluginsManifest g) "api")
  /\ plain_object (prop (Manifest.pluginsManifest g) "commands")
  /\ plain_object (Manifest.api g)
  /\ plain_object (Manifest.commands g).
Proof.
  unfold Manifest.gather. intros H. do 6 inv_bind H. injection H as <-.
  cbn [Manifest.pluginsManifest Manifest.api Manifest.commands].
  assert (Hpm : plain_object (prop x "api") /\ plain_object (prop x "commands")).
  { destruct (type =? "plugin").
    - injection E as <-. split; exists []; split; try reflexivity; constructor.
    - now apply (readPluginManifest_plain h _ _ E). }
  destruct Hpm as [Hapi Hcommands]. split; [exact Hapi|]. split; [exact Hcommands|].
  split; [apply (generateEntries_keys _ _ _ _ _ E0) | apply (generateEntries_keys _ _ _ _ _ E1)].
Qed.

Lemma api_of_composed h now type g m :
  Manifest.compose h now type g = Ok m ->
  prop m "api" =
  sort_entries (localeCompare h)
    (literal [prop (Manifest.pluginsManifest g) "api"; Manifest.api g]).
Proof.
  intros H. apply compose_inv in H.
  destruct H as (redacted & seed & me & pmw & perms & scopes & _ & _ & _ & _ & _ & _ & ->).
  unfold prop, settled. cbn [fold_left].
  rewrite !lookup_sorted_at. cbn [String.eqb Ascii.eqb Bool.eqb or_undefined].
  rewrite !lookup_assign. cbn [String.eqb Ascii.eqb Bool.eqb].
  erewrite lookup_literalProps_written; reflexivity.
Qed.

Lemma middleware_of_composed h now type g m :
  Manifest.compose h now type g = Ok m ->
  exists pluginMiddleware,
    iterate (prop (Manifest.pluginsManifest g) "middleware") = Ok pluginMiddleware
    /\ prop m "middleware" = VArray (pluginMiddleware ++ Manifest.middleware g).
Proof.
  intros H. apply compose_inv in H.
  destruct H as (redacted & seed & me & pmw & perms & scopes & _ & _ & _ & Hpmw & _ & _ & ->).
  exists pmw. split; [exact Hpmw|].
  unfold prop. rewrite lookup_settled_other;
    [|simpl; intuition discriminate|discriminate|discriminate].
  erewrite lookup_literalProps_written; reflexivity.
Qed.

(** The entry that wins under a key: the local one when there is one. *)
Definition overriding (local plugins : Value) (k : string) : Value :=
  match lookup k (own_props local) with
  | Some v => v
  | None => prop plugins k
  end.

Lemma prop_sorted_literal cmp (plugins local : Value) (k : string) :
  plain_object plugins -> plain_object local ->
  prop (sort_entries cmp (literal [plugins; local])) k = overriding local plugins k
  /\ (In k (own_keys (sort_entries cmp (literal [plugins; local]))) <->
      In k (own_keys local) \/ In k (own_keys plugins)).
Proof.
  intros (ps & -> & Hps) (ls & -> & Hls). split.
  - change (prop (sort_entries cmp (literal [VObject ps; VObject ls])) k)
      with (or_undefined
              (lookup k (own_props (sort_entries cmp (literal [VObject ps; VObject ls]))))).
    rewrite lookup_sort_entries by apply NoDup_literal.
    unfold literal. cbn [fold_left own_props]. rewrite !lookup_spread. cbn [own_props lookup].
    rewrite !lookup_rev_NoDup by assumption. unfold overriding. cbn [own_props prop].
    destruct (lookup k ls); [reflexivity|]. now destruct (lookup k ps).
  - rewrite In_keys_sort_entries. unfold literal, own_keys. cbn [fold_left own_props].
    rewrite !In_keys_spread. unfold own_keys. cbn [own_props map In]. tauto.
Qed.

(** X12.  In the manifest that [generateManifest] returns, the commands and
    the API routes are those of the plugins and those scanned locally, by key:
    under every key stands the local entry when there is one and the entry of
    the plugins otherwise, and the keys are those of either side; the
    middleware is the middleware of the plugins followed by the local one. *)
Theorem local_entries_override_plugin_entries :
  forall (h : Host) (now : string) (fuel : nat) (defaults : Value) (type : string)
         (m : Value) (disk : Node),
    Manifest.generateManifest h now fuel defaults type = Ok (m, disk) ->
    exists g pluginMiddleware,
      Manifest.gather h fuel defaults type = Ok g
      /\ (forall k,
            prop (prop m "commands") k =
            overriding (Manifest.commands g) (prop (Manifest.pluginsManifest g) "commands") k)
      /\ (forall k,
            In k (own_keys (prop m "commands")) <->
            In k (own_keys (Manifest.commands g))
            \/ In k (own_keys (prop (Manifest.pluginsManifest g) "commands")))
      /\ (forall k,
            prop (prop m "api") k =
            overriding (Manifest.api g) (prop (Manifest.pluginsManifest g) "api") k)
      /\ (forall k,
            In k (own_keys (prop m "api")) <->
            In k (own_keys (Manifest.api g))
            \/ In k (own_keys (prop (Manifest.pluginsManifest g) "api")))
      /\ iterate (prop (Manifest.pluginsManifest g) "middleware") = Ok pluginMiddleware
      /\ prop m "middleware" = VArray (pluginMiddleware ++ Manifest.middleware g).
Proof.
  intros h now fuel defaults type m disk H.
  apply generateManifest_inv in H. destruct H as (g & Hg & Hm & _).
  destruct (gathered_plain _ _ _ _ _ Hg) as (Hpa & Hpc & Hla & Hlc).
  destruct (middleware_of_composed _ _ _ _ _ Hm) as (pluginMiddleware & Hpmw & Hmw).
  exists g, pluginMiddleware. split; [exact Hg|].
  rewrite (commands_of_composed _ _ _ _ _ Hm), (api_of_composed _ _ _ _ _ Hm).
  split; [intros k; now apply prop_sorted_literal|].
  split; [intros k; now apply prop_sorted_literal|].
  split; [intros k; now apply prop_sorted_literal|].
  split; [intros k; now apply prop_sorted_literal|].
  now split.
Qed.

(** A project with a command [ping] of its own and a plugin that brings
    [ping] and [help]. *)
Definition localAndPlugin : Host :=
  {| tree := Runs.build [("commands", Dir [("ping.js", File "")])];
     localeCompare := String.compare;
     ALLOWED_EXTENSIONS := [".js"];
     Mode_get := "development";
     Mode_is := fun mode => mode =? "development";
     import_config := fun _ => Ok VUndefined;
     loadConfig := VObject [("plugins", strings ["helper"])];
     findPackagePath := fun _ => Some "node_modules/helper";
     useManifest := fun _ _ =>
       Ok (VObject [ ("commands",
                      VObject [ ("ping", VObject [("__path", VString "/plugin/ping.js")]);
                                ("help", VObject [("__path", VString "/plugin/help.js")]) ]);
                     ("permissions", VArray []) ]);
     isTypescriptProject := false;
     version := VString "0.9.0";
     readFile := fun _ => Err (FsError "ENOENT");
     JSON_parse := fun _ => Err SyntaxError |}.

Lemma local_entries_override_plugin_entries_witness :
  exists m disk,
    Manifest.generateManifest localAndPlugin "2024-01-01T00:00:00.000Z" 3 VUndefined "robo"
    = Ok (m, disk)
    /\ prop (prop (prop m "commands") "ping") "__path"
       = VString "/.robo/build/commands/ping.js"
    /\ prop (prop m "commands") "help" = VObject [("__path", VString "/plugin/help.js")].
Proof.
  destruct (Manifest.generateManifest localAndPlugin "2024-01-01T00:00:00.000Z" 3 VUndefined
              "robo") as [[m disk]|e] eqn:E; [|vm_compute in E; discriminate E].
  destruct (local_entries_override_plugin_entries _ _ _ _ _ _ _ E)
    as (g & pluginMiddleware & Hg & Hcommands & _).
  exists m, disk. split; [reflexivity|].
  rewrite !Hcommands. vm_compute in Hg. injection Hg as <-. split; reflexivity.
Defined.

(* ------------------------------------------------------------------------- *)
(** ** The order of the emitted entries *)











(* ------------------------------------------------------------------------- *)
(** ** Loading the manifest of a plugin (legacy revision) *)










(* ------------------------------------------------------------------------- *)
(** ** The manifest the legacy revision remembers

    [loadManifest] ends with [finally { _manifest = manifest }]: whatever way it
    ends, the module-level [_manifest] takes what the variable [manifest] holds
    then, and [getManifest] returns it. *)

Module LegacyState.

(** A loop that stops at the first throw, with the state it had reached. *)
Fixpoint foldP {A S} (body : A -> S -> Result S) (xs : list A) (s : S) : S * option Error :=
  match xs with
  | [] => (s, None)
  | x :: rest =>
      match body x s with
      | Ok s' => foldP body rest s'
      | Err e => (s, Some e)
      end
  end.

(** [let _manifest: Manifest = null], and its reader. *)
Definition initial : Value := VNull.


(** The [try] block: how it ends, and what [manifest] holds then. *)
Definition attempt (h : Host) (name : Value) (basePath : string) : Result Value * Value :=
  let manifestPath := Legacy.manifestFile basePath in
  match readFile h manifestPath with
  | Err e => (Err e, VUndefined)
  | Ok manifestContent =>
      if Legacy.is_blank manifestContent
      then (Ok Legacy.BASE_MANIFEST, Legacy.BASE_MANIFEST) else
      match JSON_parse h manifestContent with
      | Err e => (Err e, VUndefined)
      | Ok manifest =>
          if truthy name && negb (basePath =? "") then
            let plugin := VObject [("name", name); ("path", VString basePath)] in
            let pluginInfo := VObject [("__auto", VBool true); ("__plugin", plugin)] in
            match member manifest "commands" with
            | Err e => (Err e, manifest)
            | Ok VUndefined | Ok VNull => (Err TypeError, manifest)
            | Ok manifestCommands =>
                let '(manifestCommands, thrown) :=
                  foldP (fun key manifestCommands =>
                           command <- member manifestCommands key ;;
                           command <- set_member command "__auto" (VBool true) ;;
                           command <- set_member command "__plugin" plugin ;;
                           set_member manifestCommands key command)
                        (own_keys manifestCommands) manifestCommands in
                match thrown, set_member manifest "commands" manifestCommands with
                | Some e, Ok manifest => (Err e, manifest)
                | Some e, Err _ => (Err e, manifest)
                | None, Err e => (Err e, manifest)
                | None, Ok manifest =>
                        match member manifest "events" with
                        | Err e => (Err e, manifest)
                        | Ok VUndefined | Ok VNull => (Err TypeError, manifest)
                        | Ok manifestEvents =>
                            let '(manifestEvents, thrown) :=
                              foldP (fun key manifestEvents =>
                                       match prop manifestEvents key with
                                       | VArray configs =>
                                           set_member manifestEvents key
                                             (VArray (map (fun eventConfig =>
                                                             literal [pluginInfo; eventConfig])
                                                          configs))
                                       | _ => Err TypeError
                                       end)
                                    (own_keys manifestEvents) manifestEvents in
                            match thrown, set_member manifest "events" manifestEvents with
                            | Some e, Ok manifest => (Err e, manifest)
                            | Some e, Err _ => (Err e, manifest)
                            | None, Err e => (Err e, manifest)
                            | None, Ok manifest => (Ok manifest, manifest)
                            end
                        end
                end
            end
          else (Ok manifest, manifest)
      end
  end.

(** [loadManifest]: the [catch] and the [finally]; the second component is the
    [_manifest] it leaves. *)
Definition loadManifest (h : Host) (name : Value) (basePath : string)
    : Result Value * Value :=
  match attempt h name basePath with
  | (Err (FsError code), manifest) =>
      if code =? "ENOENT" then (Ok Legacy.BASE_MANIFEST, Legacy.BASE_MANIFEST)
      else (Err (FsError code), manifest)
  | ended => ended
  end.

End LegacyState.





(* ------------------------------------------------------------------------- *)
(** ** A build that does not come to its end *)

(** X16.  [buildAction] with the [watch] option ends the process with code 1
    before any step is taken; in every run it calls [registerCommands] once
    at most; and a run that throws has either made no call of
    [registerCommands], or the call itself is what threw: no step that fails
    before leaves commands registered. *)
Theorem a_failed_build_registers_nothing :
  forall (s : Build.Steps) (options : Value),
    let run := Build.buildAction s options in
    (truthy (prop options "watch") = true -> run = ([], Err (ProcessExit 1)))
    /\ length (fst run) <= 1
    /\ (forall e,
          snd run = Err e ->
          fst run = []
          \/ exists call,
               fst run = [call]
               /\ Build.registerCommands s (Build.dev call) (Build.newCommands call)
                    (Build.changedCommands call) (Build.addedCommands call)
                    (Build.removedCommands call) = Err e).
Proof.
  intros s options run. subst run. unfold Build.buildAction.
  destruct (truthy (prop options "watch")).
  - split; [reflexivity|]. split; [simpl; lia|]. intros e _. now left.
  - split; [discriminate|].
    unfold Build.andThen, Build.await. cbn [fst snd].
    destruct (Build.loadConfig s); cbn [fst snd app];
      [|split; [simpl; lia | intros e' _; now left]].
    destruct (Build.compile s); cbn [fst snd app];
      [|split; [simpl; lia | intros e' _; now left]].
    destruct (Build.generateDefaults s); cbn [fst snd app];
      [|split; [simpl; lia | intros e' _; now left]].
    destruct (Build.getProjectSize s); cbn [fst snd app];
      [|split; [simpl; lia | intros e' _; now left]].
    destruct (Build.loadManifest s) as [oldManifest|]; cbn [fst snd app];
      [|split; [simpl; lia | intros e' _; now left]].
    destruct (Build.generateManifest s _ "robo") as [manifest|]; cbn [fst snd app];
      [|split; [simpl; lia | intros e' _; now left]].
    destruct (member oldManifest "commands"); cbn [fst snd app];
      [|split; [simpl; lia | intros e' _; now left]].
    destruct (member manifest "commands"); cbn [fst snd app];
      [|split; [simpl; lia | intros e' _; now left]].
    destruct (truthy (prop options "force") || _ || _ || _); cbn [fst snd app].
    + split; [simpl; lia|]. intros e He. right. eexists. split; [reflexivity|]. exact He.
    + split; [simpl; lia|]. intros e He. discriminate He.
Qed.

Lemma a_failed_build_registers_nothing_witness :
  Build.buildAction (Runs.steps (VObject []) (VObject []) (fun _ => []))
    (VObject [("watch", VBool true); ("force", VBool true)])
  = ([], Err (ProcessExit 1)).
Proof.
  apply (proj1 (a_failed_build_registers_nothing
                  (Runs.steps (VObject []) (VObject []) (fun _ => []))
                  (VObject [("watch", VBool true); ("force", VBool true)]))).
  reflexivity.
Defined.

(* ------------------------------------------------------------------------- *)
(** ** Bigints on the way to the manifest file *)

(** X17.  [JSON.stringify] with [jsonReplacer] (the current revision) and
    without a replacer (the legacy one): a bigint under the key
    [defaultMemberPermissions] is written by the replacer as the string of its
    digits followed by [n], and any other bigint throws a [TypeError]; the
    serializer gives a text exactly when the value holds no bigint out of the
    replacer's reach, and throws a [TypeError], nothing else, when it does. *)
Theorem bigints_in_the_written_manifest :
  forall (replacer : bool) (value : Value),
    (serializable replacer "" value = true ->
     exists text, JSON_stringify replacer value = Ok text)
    /\ (serializable replacer "" value = false ->
        JSON_stringify replacer value = Err TypeError)
    /\ (forall n key indent,
          serialize true indent key (VBigInt n) =
          (if key =? "defaultMemberPermissions"
           then Ok (Some (quote (Z_to_string n ++ "n")))
           else Err TypeError)
          /\ serialize false indent key (VBigInt n) = Err TypeError).
Proof.
  intros replacer value.
  destruct (JSON_stringify_outcome replacer value) as [[Hs Hok]|[Hs Herr]];
    (split; [|split]).
  - intros _. exact Hok.
  - intros H. congruence.
  - intros n key indent. cbn [serialize jsonReplacer].
    now destruct (key =? "defaultMemberPermissions").
  - intros H. congruence.
  - intros _. exact Herr.
  - intros n key indent. cbn [serialize jsonReplacer].
    now destruct (key =? "defaultMemberPermissions").
Qed.

Lemma bigints_in_the_written_manifest_witness :
  (exists text,
     JSON_stringify true
       (VObject [("commands",
                  VObject [("ban", VObject [("defaultMemberPermissions", VBigInt 4)])])])
     = Ok text)
  /\ JSON_stringify false
       (VObject [("commands",
                  VObject [("ban", VObject [("defaultMemberPermissions", VBigInt 4)])])])
     = Err TypeError.
Proof.
  split.
  - apply (proj1 (bigints_in_the_written_manifest true
                    (VObject [("commands",
                               VObject [("ban",
                                         VObject [("defaultMemberPermissions", VBigInt 4)])])]))).
    reflexivity.
  - apply (proj1 (proj2 (bigints_in_the_written_manifest false
                    (VObject [("commands",
                               VObject [("ban",
                                         VObject [("defaultMemberPermissions", VBigInt 4)])])])))).
    reflexivity.
Defined.

(* ------------------------------------------------------------------------- *)
(** ** Plugins that are not installed *)

(** The name [readPluginManifest] looks a plugin up by, and whether it finds
    its package. *)
Definition pluginName (plugin : Value) : Value :=
  if typeof plugin =? "string" then plugin else prop plugin "0".

Definition installed (h : Host) (plugin : Value) : bool :=
  match findPackagePath h (pluginName plugin) with
  | Some _ => true
  | None => false
  end.

Lemma foldPlugin_skips (h : Host) (plugin pluginsManifest : Value) :
  is_nullish plugin = false -> installed h plugin = false ->
  Manifest.foldPlugin h plugin pluginsManifest = Ok pluginsManifest.
Proof.
  intros Hdefined Hinstalled. unfold Manifest.foldPlugin, installed, pluginName in *.
  destruct (typeof plugin =? "string"); cbn [bind].
  - now destruct (findPackagePath h plugin).
  - rewrite (member_total _ _ Hdefined). cbn [bind].
    now destruct (findPackagePath h (prop plugin "0")).
Qed.

Lemma fold_installed (h : Host) (plugins : list Value) (pluginsManifest : Value) :
  Forall (fun plugin => is_nullish plugin = false) plugins ->
  foldM (Manifest.foldPlugin h) plugins pluginsManifest =
  foldM (Manifest.foldPlugin h) (filter (installed h) plugins) pluginsManifest.
Proof.
  intros Hall. revert pluginsManifest.
  induction Hall as [|plugin plugins Hp Hall IH]; intros pluginsManifest; [reflexivity|].
  cbn [foldM filter]. destruct (installed h plugin) eqn:Ei.
  - cbn [foldM]. destruct (Manifest.foldPlugin h plugin pluginsManifest); cbn [bind];
      [apply IH | reflexivity].
  - rewrite (foldPlugin_skips _ _ _ Hp Ei). cbn [bind]. apply IH.
Qed.

(** X18.  [readPluginManifest] of the current revision on a list of plugins
    none of which is [null] or [undefined]: the plugins whose package is not
    found are skipped, so that the result is that of the list without them,
    and [BASE_MANIFEST] when no plugin of the list is installed. *)
Theorem plugins_not_installed_are_skipped :
  forall (h : Host) (plugins : list Value),
    Forall (fun plugin => is_nullish plugin = false) plugins ->
    Manifest.readPluginManifest h (VArray plugins) =
    Manifest.readPluginManifest h (VArray (filter (installed h) plugins))
    /\ (filter (installed h) plugins = [] ->
        Manifest.readPluginManifest h (VArray plugins) = Ok (Manifest.BASE_MANIFEST h)).
Proof.
  intros h plugins Hall.
  assert (Hrun : forall l,
            Manifest.readPluginManifest h (VArray l) =
            foldM (Manifest.foldPlugin h) l (Manifest.BASE_MANIFEST h)).
  { intros l. unfold Manifest.readPluginManifest. rewrite has_length_array.
    now destruct l. }
  rewrite !Hrun, (fold_installed _ _ _ Hall). split; [reflexivity|].
  now intros ->.
Qed.

Lemma plugins_not_installed_are_skipped_witness :
  Manifest.readPluginManifest (Runs.host (Dir []) (VObject []))
    (VArray [VString "missing"; VArray [VString "gone"; VObject []]])
  = Ok (Manifest.BASE_MANIFEST (Runs.host (Dir []) (VObject []))).
Proof.
  apply (proj2 (plugins_not_installed_are_skipped (Runs.host (Dir []) (VObject []))
                  [VString "missing"; VArray [VString "gone"; VObject []]]
                  ltac:(repeat constructor))).
  reflexivity.
Defined.

(* ------------------------------------------------------------------------- *)
(** * Avatars and display names of the activity

    [getUserAvatarUrl] and [getUserDisplayName].  Their arguments are the
    objects the Discord SDK hands over, taken as [Value]s. *)

Module Avatar.

(** [`${v}`]: the string a template literal makes of a primitive value.  A
    number of 21 digits or more prints with an exponent, and an array or an
    object goes through its own conversion: those are left out. *)
Definition toString (v : Value) : Result string :=
  match v with
  | VUndefined => Ok "undefined"
  | VNull => Ok "null"
  | VBool b => Ok (if b then "true" else "false")
  | VNumber n => if (Z.abs n <? 10 ^ 21)%Z then Ok (Z_to_string n) else Err Unmodelled
  | VBigInt n => Ok (Z_to_string n)
  | VString s => Ok s
  | VArray _ | VObject _ => Err Unmodelled
  end.

(** The double nearest to a natural number, ties to even; [None] past the
    largest double, where the conversion gives [Infinity]. *)
Definition nearest_double (n : Z) : option Z :=
  let bits := (Z.log2 n + 1)%Z in
  if (bits <=? 53)%Z then Some n else
  let shift := (bits - 53)%Z in
  let q := Z.shiftr n shift in
  let r := (n mod 2 ^ shift)%Z in
  let half := (2 ^ (shift - 1))%Z in
  let rounded :=
    if (half <? r)%Z || ((r =? half)%Z && Z.odd q)
    then Z.shiftl (q + 1) shift
    else Z.shiftl q shift in
  if (rounded <? 2 ^ 1024)%Z then Some rounded else None.

Definition is_digit (c : ascii) : bool :=
  (48 <=? nat_of_ascii c)%nat && (nat_of_ascii c <=? 57)%nat.

Fixpoint digits_value (acc : Z) (s : string) : Z :=
  match s with
  | EmptyString => acc
  | String c rest => digits_value (10 * acc + Z.of_nat (nat_of_ascii c - 48))%Z rest
  end.

(** [Number(v)] where the value is [undefined], [null], a boolean, a number, a
    bigint, or a string that is empty or made of decimal digits; [None] is
    [NaN] or an infinity, which [>>] both take for 0. *)
Definition toNumber (v : Value) : Result (option Z) :=
  match v with
  | VUndefined => Ok None
  | VNull => Ok (Some 0%Z)
  | VBool b => Ok (Some (if b then 1%Z else 0%Z))
  | VNumber n => Ok (Some n)
  | VBigInt n => Ok (option_map (Z.mul (Z.sgn n)) (nearest_double (Z.abs n)))
  | VString s =>
      if forallb is_digit (list_ascii_of_string s)
      then Ok (nearest_double (digits_value 0%Z s))
      else Err Unmodelled
  | VArray _ | VObject _ => Err Unmodelled
  end.

(** [ToInt32], the conversion [>>] applies to its left operand. *)
Definition toInt32 (n : option Z) : Z :=
  match n with
  | None => 0%Z
  | Some n => ((n + 2 ^ 31) mod 2 ^ 32 - 2 ^ 31)%Z
  end.

(** [Math.abs(Number(id) >> 22) % 6]. *)
Definition defaultAvatarIndex (id : Value) : Result Z :=
  n <- toNumber id ;;
  Ok (Z.abs (Z.shiftr (toInt32 n) 22) mod 6)%Z.

(** A parameter with a default: the default stands in for [undefined] only. *)
Definition defaulted (v fallback : Value) : Value :=
  match v with
  | VUndefined => fallback
  | _ => v
  end.

(** [getUserAvatarUrl({ guildMember, user, cdn, size })]; [guildId] is
    [discordSdk.guildId].  The parts of a template literal are evaluated and
    converted from left to right. *)
Definition getUserAvatarUrl (guildId : Value) (guildMember user cdn size : Value)
    : Result string :=
  let cdn := defaulted cdn (VString "https://cdn.discordapp.com") in
  let size := defaulted size (VNumber 256) in
  if negb (is_nullish (prop guildMember "avatar")) && negb (is_nullish guildId) then
    c <- toString cdn ;;
    g <- toString guildId ;;
    id <- member user "id" ;;
    i <- toString id ;;
    a <- toString (prop guildMember "avatar") ;;
    s <- toString size ;;
    Ok (c ++ "/guilds/" ++ g ++ "/users/" ++ i ++ "/avatars/" ++ a ++ ".png?size=" ++ s)%string
  else
    avatar <- member user "avatar" ;;
    if negb (is_nullish avatar) then
      c <- toString cdn ;;
      i <- toString (prop user "id") ;;
      a <- toString avatar ;;
      s <- toString size ;;
      Ok (c ++ "/avatars/" ++ i ++ "/" ++ a ++ ".png?size=" ++ s)%string
    else
      index <- defaultAvatarIndex (prop user "id") ;;
      c <- toString cdn ;;
      s <- toString size ;;
      Ok (c ++ "/embed/avatars/" ++ Z_to_string index ++ ".png?size=" ++ s)%string.

(** [a !== '']. *)
Definition not_empty (v : Value) : bool :=
  match v with
  | VString s => negb (s =? "")
  | _ => true
  end.

(** [getUserDisplayName({ guildMember, user })]. *)
Definition getUserDisplayName (guildMember user : Value) : Result Value :=
  if negb (is_nullish (prop guildMember "nick")) && not_empty (prop guildMember "nick")
  then Ok (prop guildMember "nick") else
  discriminator <- member user "discriminator" ;;
  if negb (same_value discriminator (VString "0")) then
    u <- toString (prop user "username") ;;
    d <- toString discriminator ;;
    Ok (VString (u ++ "#" ++ d))
  else
    if negb (is_nullish (prop user "global_name")) && not_empty (prop user "global_name")
    then Ok (prop user "global_name")
    else Ok (prop user "username").

End Avatar.

(** X19.  [getUserAvatarUrl] for a user without an avatar of their own, when
    the guild gives none either (no guild avatar, or no guild): for an [id]
    that [Number] takes (undefined, null, a boolean, a number, a bigint, or a
    string of digits) the URL returned is that of a default avatar,
    [<cdn>/embed/avatars/<index>.png?size=<size>], with an index from 0 to 5,
    the Discord CDN and 256 standing in for an undefined [cdn] and [size];
    the index is 0 when the id is no number, or a number below 2^22. *)
Theorem default_avatar_is_one_of_six :
  forall (guildId guildMember user cdn size : Value) (number : option Z) (c s : string),
    is_nullish user = false ->
    is_nullish (prop guildMember "avatar") = true \/ is_nullish guildId = true ->
    is_nullish (prop user "avatar") = true ->
    Avatar.toNumber (prop user "id") = Ok number ->
    Avatar.toString (Avatar.defaulted cdn (VString "https://cdn.discordapp.com")) = Ok c ->
    Avatar.toString (Avatar.defaulted size (VNumber 256)) = Ok s ->
    exists index,
      (0 <= index < 6)%Z
      /\ Avatar.getUserAvatarUrl guildId guildMember user cdn size =
         Ok (c ++ "/embed/avatars/" ++ Z_to_string index ++ ".png?size=" ++ s)%string
      /\ (number = None -> index = 0%Z)
      /\ (forall n, number = Some n -> (0 <= n < 2 ^ 22)%Z -> index = 0%Z).
Proof.
  intros guildId guildMember user cdn size number c s Huser Hguild Havatar Hnumber Hc Hs.
  exists (Z.abs (Z.shiftr (Avatar.toInt32 number) 22) mod 6)%Z.
  split; [apply Z.mod_pos_bound; lia|]. split; [|split].
  - unfold Avatar.getUserAvatarUrl.
    assert (Hcond : negb (is_nullish (prop guildMember "avatar")) && negb (is_nullish guildId)
                    = false).
    { destruct Hguild as [-> | ->]; [reflexivity | apply andb_false_r]. }
    rewrite Hcond, (member_total _ _ Huser). cbn [bind]. rewrite Havatar. cbn [negb].
    unfold Avatar.defaultAvatarIndex. rewrite Hnumber. cbn [bind].
    rewrite Hc. cbn [bind]. rewrite Hs. reflexivity.
  - intros ->. reflexivity.
  - intros n -> Hn. unfold Avatar.toInt32.
    change (2 ^ 31)%Z with 2147483648%Z. change (2 ^ 32)%Z with 4294967296%Z.
    change (2 ^ 22)%Z with 4194304%Z in Hn.
    rewrite (Z.mod_small (n + 2147483648)) by lia.
    replace (n + 2147483648 - 2147483648)%Z with n by lia.
    rewrite Z.shiftr_div_pow2 by lia. change (2 ^ 22)%Z with 4194304%Z.
    rewrite Z.div_small by lia. reflexivity.
Qed.

Lemma default_avatar_is_one_of_six_witness :
  exists index,
    (0 <= index < 6)%Z
    /\ Avatar.getUserAvatarUrl VNull VNull (VObject [("id", VString "80351110224678912")])
         VUndefined VUndefined
       = Ok ("https://cdn.discordapp.com/embed/avatars/" ++ Z_to_string index
               ++ ".png?size=256")%string.
Proof.
  destruct (default_avatar_is_one_of_six VNull VNull
              (VObject [("id", VString "80351110224678912")]) VUndefined VUndefined
              _ _ _ eq_refl (or_introl eq_refl) eq_refl eq_refl eq_refl eq_refl)
    as (index & Hrange & Hurl & _).
  exists index. split; [exact Hrange | exact Hurl].
Defined.

Lemma append_not_empty (a b : string) : a <> "" -> (a ++ b)%string <> "".
Proof. destruct a; [congruence | discriminate]. Qed.

(** X20.  [getUserDisplayName] for a user whose [username] is a string that
    is not empty and whose [discriminator] is a primitive value: a name is
    returned, and it is neither [null], [undefined] nor the empty string; a
    nick of the guild member that is a non-empty string is the name returned,
    whatever the user. *)
Theorem display_name_is_never_empty :
  forall (guildMember user : Value) (username discriminator : string),
    is_nullish user = false ->
    prop user "username" = VString username ->
    username <> "" ->
    Avatar.toString (prop user "discriminator") = Ok discriminator ->
    exists name,
      Avatar.getUserDisplayName guildMember user = Ok name
      /\ is_nullish name = false
      /\ name <> VString ""
      /\ (forall nick,
            prop guildMember "nick" = VString nick -> nick <> "" -> name = VString nick).
Proof.
  intros guildMember user username discriminator Huser Hname Hne Hd.
  unfold Avatar.getUserDisplayName.
  destruct (negb (is_nullish (prop guildMember "nick")) &&
            Avatar.not_empty (prop guildMember "nick")) eqn:Hnick.
  - apply andb_prop in Hnick. destruct Hnick as [Hn He].
    exists (prop guildMember "nick"). split; [reflexivity|].
    split; [now destruct (is_nullish (prop guildMember "nick"))|]. split.
    + intros Heq. rewrite Heq in He. discriminate He.
    + now intros nick ->.
  - assert (Hno : forall nick, prop guildMember "nick" = VString nick -> nick <> "" -> False).
    { intros nick Hn Hnn. rewrite Hn in Hnick. cbn in Hnick.
      apply String.eqb_neq in Hnn. now rewrite Hnn in Hnick. }
    rewrite (member_total _ _ Huser). cbn [bind].
    destruct (negb (same_value (prop user "discriminator") (VString "0"))).
    + rewrite Hd, Hname. cbn [Avatar.toString bind].
      eexists. split; [reflexivity|]. split; [reflexivity|]. split.
      * intros [= H]. now apply (append_not_empty username _ Hne) in H.
      * intros nick Hn Hnn. now destruct (Hno nick Hn Hnn).
    + destruct (negb (is_nullish (prop user "global_name")) &&
                Avatar.not_empty (prop user "global_name")) eqn:Hglobal.
      * apply andb_prop in Hglobal. destruct Hglobal as [Hn He].
        exists (prop user "global_name"). split; [reflexivity|].
        split; [now destruct (is_nullish (prop user "global_name"))|]. split.
        -- intros Heq. rewrite Heq in He. discriminate He.
        -- intros nick Hn' Hnn. now destruct (Hno nick Hn' Hnn).
      * exists (VString username). rewrite Hname. split; [reflexivity|].
        split; [reflexivity|]. split; [congruence|].
        intros nick Hn Hnn. now destruct (Hno nick Hn Hnn).
Qed.

Lemma display_name_is_never_empty_witness :
  exists name,
    Avatar.getUserDisplayName (VObject [("nick", VString "")])
      (VObject [ ("username", VString "ann"); ("discriminator", VString "1234");
                 ("global_name", VString "Ann") ])
    = Ok name
    /\ name <> VString "".
Proof.
  destruct (display_name_is_never_empty (VObject [("nick", VString "")])
              (VObject [ ("username", VString "ann"); ("discriminator", VString "1234");
                         ("global_name", VString "Ann") ])
              "ann" "1234" eq_refl eq_refl ltac:(discriminate) eq_refl)
    as (name & Hrun & _ & Hne & _).
  exists name. now split.
Defined.
